(** * Descriptive chess notation: parser and formatter

    A shallow embedding of [descriptive_notation_parser.py]
    ([DescriptiveNotationParser]) and of [MoveToDescriptive.convert] from
    [chess_board_gui.py], with the properties of the translator proved over
    the embedding.

    Conventions.
    - Python [str] values are Rocq [string]s.  The alphabet of the model is
      ASCII: case mapping, white space and digits follow Python on code
      points below 128, and a byte above 127 is an opaque character that is
      neither a letter, a digit nor white space.  Python maps the case of
      characters beyond ASCII and counts the decimal digits of every
      script; a statement that rests on the case mapping or on the class of
      digits is made for ASCII strings ([is_ascii]).
    - Python [int] is [Z]; squares are the integers 0..63 of the chess
      library ([Square = int]), files and ranks are [square mod 8] and
      [square / 8].
    - A Python expression that can raise is a computation in the error monad
      [Res]: string indexing raises [IndexError], [int(...)] raises
      [ValueError].
    - [int] of a decimal string of more than 4300 digits raises
      [ValueError], the default of [sys.int_info.default_max_str_digits].
    - The chess library ([chess.Board]) is the external legal-move oracle.
      It is a record of the answers to the queries the code makes.  The
      answer of [piece_at] is the library's on the squares 0..63; beyond
      them the library raises or reads another square, and a statement
      about a square that is not one of a legal move bounds it.  The
      board is an object of the caller that the parser references; a heap
      of boards models what the parser sees after the caller has changed
      it.
    - The board window ([ChessBoardGUI] of [chess_board_gui.py]) is
      modelled by the geometry of its canvases and by the bookkeeping of
      its move history. *)

From Stdlib Require Import ZArith List String Ascii Bool Lia Arith Permutation.
From Stdlib Require Import Numbers.DecimalString.
Import ListNotations.

Local Open Scope string_scope.
Local Open Scope Z_scope.

(** ** Results of Python expressions *)

Inductive exn : Type :=
| IndexError
| ValueError
| KeyError.

Inductive Res (A : Type) : Type :=
| Val (a : A)
| Exc (e : exn).

Arguments Val {A} a.
Arguments Exc {A} e.

Definition bind {A B : Type} (c : Res A) (k : A -> Res B) : Res B :=
  match c with
  | Val a => k a
  | Exc e => Exc e
  end.

Notation "x <- c ;; k" := (bind c (fun x => k))
  (at level 61, c at next level, right associativity).

(** A computation that ends with a value. *)
Definition returns {A : Type} (c : Res A) : Prop :=
  exists v, c = Val v.

(** A computation that raises nothing but [ValueError]. *)
Definition raises_only_ValueError {A : Type} (c : Res A) : Prop :=
  forall e, c = Exc e -> e = ValueError.

(** ** Python strings *)

Module PyStr.

Definition ord (c : ascii) : Z := Z.of_N (N_of_ascii c).

(** [str.isspace] on ASCII: TAB, LF, VT, FF, CR, the separators FS, GS, RS,
    US, and the space.  The [\s] class of [re] is the same set. *)
Definition isspace (c : ascii) : bool :=
  let n := ord c in
  ((9 <=? n) && (n <=? 13)) || ((28 <=? n) && (n <=? 32)).

(** The class [\d] of [re] and the digits of [int] on ASCII: 0 to 9.
    Python counts the decimal digits of every script among them. *)
Definition isdigit (c : ascii) : bool :=
  let n := ord c in (48 <=? n) && (n <=? 57).

(** [A-Z] *)
Definition isupper (c : ascii) : bool :=
  let n := ord c in (65 <=? n) && (n <=? 90).

Definition islower (c : ascii) : bool :=
  let n := ord c in (97 <=? n) && (n <=? 122).

Definition upper_char (c : ascii) : ascii :=
  if islower c then ascii_of_N (N_of_ascii c - 32) else c.

Definition lower_char (c : ascii) : ascii :=
  if isupper c then ascii_of_N (N_of_ascii c + 32) else c.

(** [s.lower()] on ASCII; Python also maps characters beyond ASCII. *)
Fixpoint lower (s : string) : string :=
  match s with
  | EmptyString => EmptyString
  | String c s' => String (lower_char c) (lower s')
  end.

(** [s.upper()] on ASCII; Python also maps characters beyond ASCII. *)
Fixpoint upper (s : string) : string :=
  match s with
  | EmptyString => EmptyString
  | String c s' => String (upper_char c) (upper s')
  end.

Fixpoint lstrip (s : string) : string :=
  match s with
  | EmptyString => EmptyString
  | String c s' => if isspace c then lstrip s' else s
  end.

Fixpoint rstrip (s : string) : string :=
  match s with
  | EmptyString => EmptyString
  | String c s' =>
      match rstrip s' with
      | EmptyString => if isspace c then EmptyString else String c EmptyString
      | r => String c r
      end
  end.

(** [s.strip()] *)
Definition strip (s : string) : string := rstrip (lstrip s).

(** [s.startswith(p)] *)
Definition startswith (s p : string) : bool := prefix p s.

(** [s[n:]] *)
Fixpoint drop (n : nat) (s : string) : string :=
  match n, s with
  | O, _ => s
  | S n', EmptyString => EmptyString
  | S n', String _ s' => drop n' s'
  end.

(** [s[:n]] *)
Fixpoint take (n : nat) (s : string) : string :=
  match n, s with
  | O, _ => EmptyString
  | S n', EmptyString => EmptyString
  | S n', String c s' => String c (take n' s')
  end.

(** [c in s] for a one-character [c] *)
Fixpoint contains (c : ascii) (s : string) : bool :=
  match s with
  | EmptyString => false
  | String d s' => Ascii.eqb d c || contains c s'
  end.

(** [s.replace(c, '')] for a one-character [c] *)
Fixpoint remove (c : ascii) (s : string) : string :=
  match s with
  | EmptyString => EmptyString
  | String d s' => if Ascii.eqb d c then remove c s' else String d (remove c s')
  end.

(** [s[n]], a one-character string; out of range raises. *)
Definition index (s : string) (n : nat) : Res string :=
  match get n s with
  | Some c => Val (String c EmptyString)
  | None => Exc IndexError
  end.

(** [s in l] for a list of strings *)
Definition mem (s : string) (l : list string) : bool :=
  existsb (String.eqb s) l.

(** The longest prefix of [s] made of characters in the class [p], and the
    rest: what a greedy [[p]*] consumes. *)
Fixpoint span (p : ascii -> bool) (s : string) : string * string :=
  match s with
  | EmptyString => (EmptyString, EmptyString)
  | String c s' =>
      if p c then let (a, b) := span p s' in (String c a, b)
      else (EmptyString, s)
  end.

(** Every character of [s] is ASCII. *)
Definition is_ascii (s : string) : bool :=
  forallb (fun c => ord c <? 128) (list_ascii_of_string s).

(** The length of the run of decimal digits at the head of [s]. *)
Definition digit_run (s : string) : nat := length (fst (span isdigit s)).

(** The length of the longest run of decimal digits in [s]. *)
Fixpoint longest_digit_run (s : string) : nat :=
  match s with
  | EmptyString => O
  | String _ s' => Nat.max (digit_run s) (longest_digit_run s')
  end.

(** The cap of the interpreter on the length of a decimal string given to
    [int] ([sys.int_info.default_max_str_digits]). *)
Definition int_max_str_digits : nat := 4300.

Definition digit_value (c : ascii) : Z := ord c - 48.

Definition int_of_digits (s : string) : Z :=
  fold_left (fun acc c => 10 * acc + digit_value c) (list_ascii_of_string s) 0.

(** [int(s)]: the value of a non-empty string of decimal digits;
    [ValueError] for anything else and for a string longer than the cap. *)
Definition int (s : string) : Res Z :=
  match s with
  | EmptyString => Exc ValueError
  | _ =>
      if forallb isdigit (list_ascii_of_string s)
      then if (length s <=? int_max_str_digits)%nat
           then Val (int_of_digits s)
           else Exc ValueError
      else Exc ValueError
  end.

(** [str(n)] *)
Definition str (n : Z) : string := NilZero.string_of_int (Z.to_int n).

(** [re.search(r'(\d+)', s)]: group 1 of the first match, the first maximal
    run of digits of [s]. *)
Fixpoint search_digits (s : string) : option string :=
  match s with
  | EmptyString => None
  | String c s' =>
      if isdigit c then Some (fst (span isdigit s)) else search_digits s'
  end.

End PyStr.

(** ** The annotation pattern of [parse]

    [re.sub(r'\s*(ch|check|\+|mate|#|e\.?\s*p\.?).*$', '', notation,
    flags=re.IGNORECASE)].  Each definition is the backtracking matcher of
    one piece of the pattern; the Boolean says whether the whole rest of the
    pattern matches from there. *)

Module Annotation.
Import PyStr.

Definition newline : ascii := ascii_of_N 10.

(** One pattern character under [IGNORECASE]. *)
Definition ieq (c p : ascii) : bool := Ascii.eqb (upper_char c) (upper_char p).

(** A literal: the rest of the subject after it, when it matches. *)
Fixpoint lit (p s : string) : option string :=
  match p with
  | EmptyString => Some s
  | String pc p' =>
      match s with
      | EmptyString => None
      | String c s' => if ieq c pc then lit p' s' else None
      end
  end.

(** [.*$]: no newline up to the end of the subject, or up to a newline that
    is its last character. *)
Fixpoint to_end (t : string) : bool :=
  match t with
  | EmptyString => true
  | String c t' =>
      if Ascii.eqb c newline
      then match t' with EmptyString => true | _ => false end
      else to_end t'
  end.

Definition lit_to_end (p s : string) : bool :=
  match lit p s with
  | Some r => to_end r
  | None => false
  end.

(** [\.?] followed by the continuation [k]: greedy, then without. *)
Definition opt_dot (k : string -> bool) (s : string) : bool :=
  match s with
  | String "." s' => k s' || k s
  | _ => k s
  end.

(** [\s*] followed by the continuation [k]. *)
Fixpoint spaces (k : string -> bool) (s : string) : bool :=
  match s with
  | String c s' => if isspace c then spaces k s' || k s else k s
  | EmptyString => k s
  end.

(** [e\.?\s*p\.?.*$] *)
Definition en_passant (s : string) : bool :=
  match lit "e" s with
  | Some r =>
      opt_dot (spaces (fun r' =>
        match lit "p" r' with
        | Some r'' => opt_dot to_end r''
        | None => false
        end)) r
  | None => false
  end.

(** [(ch|check|\+|mate|#|e\.?\s*p\.?).*$] *)
Definition alternatives (s : string) : bool :=
  lit_to_end "ch" s || lit_to_end "check" s || lit_to_end "+" s ||
  lit_to_end "mate" s || lit_to_end "#" s || en_passant s.

(** The whole pattern, anchored at the head of [s]. *)
Definition matches_here (s : string) : bool := spaces alternatives s.

Fixpoint ends_with_newline (s : string) : bool :=
  match s with
  | EmptyString => false
  | String c EmptyString => Ascii.eqb c newline
  | String _ s' => ends_with_newline s'
  end.

(** The substitution: the subject is cut at the leftmost position where the
    pattern matches; the match runs to the end of the subject, short of a
    final newline. *)
Fixpoint sub (s : string) : string :=
  if matches_here s
  then (if ends_with_newline s then String newline EmptyString else EmptyString)
  else match s with
       | EmptyString => EmptyString
       | String c s' => String c (sub s')
       end.

End Annotation.

(** ** The chess library: pieces, moves and the board oracle *)

Module chess.

(** [chess.PieceType]: 1 pawn, 2 knight, 3 bishop, 4 rook, 5 queen, 6 king. *)
Definition PieceType := Z.
Definition PAWN : PieceType := 1.
Definition KNIGHT : PieceType := 2.
Definition BISHOP : PieceType := 3.
Definition ROOK : PieceType := 4.
Definition QUEEN : PieceType := 5.
Definition KING : PieceType := 6.

(** [chess.Color]: [True] is White. *)
Definition Color := bool.
Definition WHITE : Color := true.
Definition BLACK : Color := false.

Definition Square := Z.

Record Piece : Type := mkPiece {
  piece_type : PieceType;
  color : Color
}.

Record Move : Type := mkMove {
  from_square : Square;
  to_square : Square;
  promotion : option PieceType
}.

(** The answers of a [chess.Board] to the queries of the parser and of the
    formatter.  [legal_moves] is the enumeration of the legal moves, in the
    order of iteration.  [piece_at] is the answer of the library on the
    squares 0..63, those of the legal moves; for a square from 64 on the
    library raises [IndexError] and for a negative one it reads another
    square, which the record does not say. *)
Record Board : Type := mkBoard {
  turn : Color;
  legal_moves : list Move;
  piece_at : Square -> option Piece;
  has_kingside_castling_rights : Color -> bool;
  has_queenside_castling_rights : Color -> bool;
  is_castling : Move -> bool;
  is_kingside_castling : Move -> bool
}.

(** Truth value of an [Optional[int]]: [None] and [0] are false. *)
Definition truthy_int (o : option Z) : bool :=
  match o with
  | Some n => negb (n =? 0)
  | None => false
  end.

(** [Move.__bool__]: false for the null move only. *)
Definition Move_bool (m : Move) : bool :=
  negb (from_square m =? 0) || negb (to_square m =? 0) ||
  truthy_int (promotion m).

(** Truth value of an [Optional[Move]]. *)
Definition truthy_move (o : option Move) : bool :=
  match o with
  | Some m => Move_bool m
  | None => false
  end.

Definition option_Z_eqb (a b : option Z) : bool :=
  match a, b with
  | Some x, Some y => x =? y
  | None, None => true
  | _, _ => false
  end.

(** [Move.from_uci] on the four castling strings. *)
Definition e1g1 : Move := mkMove 4 6 None.
Definition e1c1 : Move := mkMove 4 2 None.
Definition e8g8 : Move := mkMove 60 62 None.
Definition e8c8 : Move := mkMove 60 58 None.

End chess.
Import chess.

(** ** [DescriptiveNotationParser] *)

Module DescriptiveNotationParser.
Import PyStr.

Local Notation "a == b" := (String.eqb a b) (at level 70, no associativity).

(** An instance at the time of a call.  [board] is the state of the
    caller's [Board] object, which the instance only references: a change
    the owner makes to that object after the construction is seen through
    the field.  [is_white_turn] is the copy of [board.turn] taken by the
    constructor. *)
Record Parser : Type := mkParser {
  board : Board;
  is_white_turn : bool
}.

(** Lines 59-61. *)
Definition __init__ (b : Board) : Parser :=
  {| board := b; is_white_turn := turn b |}.

(** The instance after the owner of the board has changed the board to
    [b']: the reference follows, the copied flag does not. *)
Definition board_mutated (self : Parser) (b' : Board) : Parser :=
  {| board := b'; is_white_turn := is_white_turn self |}.

(** The board is an object of the caller, and the parser holds a
    reference to it.  A heap gives the state of the board at each address;
    a parser object is the address of its board and the copied flag. *)
Definition address := nat.

Definition Heap := address -> Board.

Record Instance : Type := mkInstance {
  board_at : address;
  copied_turn : bool
}.

(** [DescriptiveNotationParser(board)] for the board at [a]. *)
Definition new (heap : Heap) (a : address) : Instance :=
  {| board_at := a; copied_turn := is_white_turn (__init__ (heap a)) |}.

(** [self] as a method sees it in the heap of the call. *)
Definition self_at (heap : Heap) (o : Instance) : Parser :=
  {| board := heap (board_at o); is_white_turn := copied_turn o |}.

(** The heap after the owner has brought the board at [a] to the state
    [b'], as [board.push(move)] does. *)
Definition assign (heap : Heap) (a : address) (b' : Board) : Heap :=
  fun x => if Nat.eqb x a then b' else heap x.

(** [FILE_MAP.get] *)
Definition FILE_MAP (k : string) : option ascii :=
  if k == "QR" then Some "a"%char
  else if k == "QN" then Some "b"%char
  else if k == "QB" then Some "c"%char
  else if k == "Q" then Some "d"%char
  else if k == "K" then Some "e"%char
  else if k == "KB" then Some "f"%char
  else if k == "KN" then Some "g"%char
  else if k == "KR" then Some "h"%char
  else None.

(** [AMBIGUOUS_FILES.get(k, [])] *)
Definition AMBIGUOUS_FILES (k : string) : list ascii :=
  if k == "R" then ["a"; "h"]%char
  else if k == "N" then ["b"; "g"]%char
  else if k == "B" then ["c"; "f"]%char
  else [].

(** [QUALIFIED_PIECES.get]: piece letter and side qualifier. *)
Definition QUALIFIED_PIECES (k : string) : option (string * string) :=
  if k == "QR" then Some ("R", "Q")
  else if k == "KR" then Some ("R", "K")
  else if k == "QN" then Some ("N", "Q")
  else if k == "KN" then Some ("N", "K")
  else if k == "QB" then Some ("B", "Q")
  else if k == "KB" then Some ("B", "K")
  else None.

(** [piece_map.get], the local dictionary of the four parsers. *)
Definition piece_map (k : string) : option PieceType :=
  if k == "P" then Some 1
  else if k == "R" then Some 4
  else if k == "N" then Some 2
  else if k == "B" then Some 3
  else if k == "Q" then Some 5
  else if k == "K" then Some 6
  else None.

(** [promo_map.get] of [_parse_promotion]. *)
Definition promo_map (k : string) : option PieceType :=
  if k == "Q" then Some 5
  else if k == "R" then Some 4
  else if k == "B" then Some 3
  else if k == "N" then Some 2
  else None.

(** Lines 544-546. *)
Definition _descriptive_file_to_standard (file_desc : string) : option ascii :=
  FILE_MAP file_desc.

(** Lines 548-558.  The result is never [None], and the tests of the
    callers for [None] are left out. *)
Definition _descriptive_rank_to_standard (self : Parser) (rank_desc : Z) : Z :=
  if is_white_turn self then rank_desc - 1 else 8 - rank_desc.

(** Lines 560-563.  [Square] is [int]: no range is checked. *)
Definition _file_rank_to_square (file : ascii) (rank : Z) : Square :=
  let file_idx := ord file - ord "a" in
  rank * 8 + file_idx.

(** Lines 123-131. *)
Definition _parse_castling_kingside (self : Parser) : option Move :=
  if is_white_turn self
  then if has_kingside_castling_rights (board self) true then Some e1g1 else None
  else if has_kingside_castling_rights (board self) false then Some e8g8 else None.

(** Lines 133-141. *)
Definition _parse_castling_queenside (self : Parser) : option Move :=
  if is_white_turn self
  then if has_queenside_castling_rights (board self) true then Some e1c1 else None
  else if has_queenside_castling_rights (board self) false then Some e8c8 else None.

(** [re.match(r'P-([A-Z]+)(\d+)\(([QRBN])\)', notation)]: the three groups. *)
Definition match_promotion (notation : string) : option (string * string * string) :=
  match notation with
  | String "P" (String "-" rest) =>
      let (file_desc, rest) := span isupper rest in
      let (rank_desc, rest) := span isdigit rest in
      match file_desc, rank_desc, rest with
      | String _ _, String _ _, String "(" (String c (String ")" _)) =>
          if mem (String c "") ["Q"; "R"; "B"; "N"]
          then Some (file_desc, rank_desc, String c "")
          else None
      | _, _, _ => None
      end
  | _ => None
  end.

(** Lines 143-165.  [int(rank_desc)] is evaluated before the test on the
    file. *)
Definition _parse_promotion (self : Parser) (notation : string) : Res (option Move) :=
  match match_promotion notation with
  | None => Val None
  | Some (file_desc, rank_desc, promo_piece) =>
      let target_file := _descriptive_file_to_standard file_desc in
      rank <- int rank_desc ;;
      let target_rank := _descriptive_rank_to_standard self rank in
      match target_file with
      | None => Val None
      | Some target_file =>
          let target_square := _file_rank_to_square target_file target_rank in
          Val (find (fun move =>
                 (to_square move =? target_square) &&
                 truthy_int (promotion move) &&
                 option_Z_eqb (promotion move) (promo_map promo_piece))
               (legal_moves (board self)))
      end
  end.

(** The test on the origin of a legal move that every filter makes:
    [piece and piece.piece_type == piece_type and piece.color ==
    self.board.turn]. *)
Definition origin_matches (self : Parser) (piece_type : PieceType) (move : Move) : bool :=
  match piece_at (board self) (from_square move) with
  | Some piece =>
      (chess.piece_type piece =? piece_type) && Bool.eqb (color piece) (turn (board self))
  | None => false
  end.

(** [self.board.piece_at(square)] as a truth value. *)
Definition occupied (self : Parser) (square : Square) : bool :=
  match piece_at (board self) square with
  | Some _ => true
  | None => false
  end.

(** The legal moves to [target_square] whose origin holds a piece of the
    kind and of the side to move, in the order of the oracle: the filter
    loop of the three destination parsers. *)
Definition moves_to (self : Parser) (piece_type : PieceType) (target_square : Square)
  : list Move :=
  filter (fun move => (to_square move =? target_square) &&
                      origin_matches self piece_type move)
         (legal_moves (board self)).

(** The end of [_parse_piece_move] and of [_parse_pawn_move]: one candidate
    is the answer; of several, the first that lands on a piece when the
    notation has a capture mark, else the first. *)
Definition choose_candidate (self : Parser) (is_capture : bool) (candidates : list Move)
  : option Move :=
  match candidates with
  | [] => None
  | [move] => Some move
  | first :: _ =>
      if is_capture
      then match find (fun move => occupied self (to_square move)) candidates with
           | Some move => Some move
           | None => Some first
           end
      else Some first
  end.

(** The test of the loop over the candidates of a qualified piece:
    queenside origins are the files a-d, kingside origins the files e-h. *)
Definition on_side (side_qualifier : string) (move : Move) : bool :=
  let from_file := from_square move mod 8 in
  if (side_qualifier == "Q") && (from_file <=? 3) then true
  else if (side_qualifier == "K") && (from_file >=? 4) then true
  else false.

(** The end of [_parse_qualified_piece_move] and of
    [_parse_qualified_capture]. *)
Definition choose_qualified (side_qualifier : string) (candidates : list Move)
  : option Move :=
  match candidates with
  | [] => None
  | [move] => Some move
  | first :: _ =>
      match find (on_side side_qualifier) candidates with
      | Some move => Some move
      | None => Some first
      end
  end.

Definition file_patterns : list string :=
  ["QR"; "QN"; "QB"; "KR"; "KN"; "KB"; "Q"; "K"].

(** The scan of the destination, written three times in the source
    ([_parse_piece_move], [_parse_qualified_piece_move], [_parse_pawn_move]):
    a file name, else an abbreviated file letter, then the first run of
    digits anywhere in what is left.  The result is [file_desc],
    [ambiguous_file] and [rank_desc]. *)
Definition scan_destination (notation : string)
  : Res (option string * option string * option Z) :=
  let (file_desc, notation) :=
    match find (startswith notation) file_patterns with
    | Some file_pattern => (Some file_pattern, drop (length file_pattern) notation)
    | None => (None, notation)
    end in
  let (ambiguous_file, notation) :=
    match file_desc with
    | Some _ => (None, notation)
    | None =>
        match find (startswith notation) ["R"; "N"; "B"] with
        | Some abbrev => (Some abbrev, drop 1 notation)
        | None => (None, notation)
        end
    end in
  match search_digits notation with
  | Some digits =>
      rank_desc <- int digits ;;
      Val (file_desc, ambiguous_file, Some rank_desc)
  | None => Val (file_desc, ambiguous_file, None)
  end.

(** Lines 409-440. *)
Definition _parse_generic_capture (self : Parser) (piece_char : string)
    (captured_type : option string) : option Move :=
  let piece_type := piece_map piece_char in
  let target_piece_type :=
    match captured_type with
    | Some t => piece_map t
    | None => None
    end in
  match piece_type with
  | None => None
  | Some piece_type =>
      let candidates :=
        filter (fun move =>
                  origin_matches self piece_type move &&
                  match piece_at (board self) (to_square move) with
                  | Some captured =>
                      match target_piece_type with
                      | None => true
                      | Some t => chess.piece_type captured =? t
                      end
                  | None => false
                  end)
               (legal_moves (board self)) in
      match candidates with
      | [] => None
      | first :: _ => Some first
      end
  end.

(** Lines 377-407. *)
Definition _parse_qualified_capture (self : Parser) (piece_char side_qualifier : string)
  : option Move :=
  match piece_map piece_char with
  | None => None
  | Some piece_type =>
      let candidates :=
        filter (fun move =>
                  origin_matches self piece_type move &&
                  occupied self (to_square move))
               (legal_moves (board self)) in
      choose_qualified side_qualifier candidates
  end.

(** [notation.replace('-', '').replace('x', '').replace('X', '')] *)
Definition remove_marks (notation : string) : string :=
  remove "X" (remove "x" (remove "-" notation)).

(** ['x' in notation or 'X' in notation] *)
Definition has_capture_mark (notation : string) : bool :=
  contains "x" notation || contains "X" notation.

(** The candidates of an abbreviated file letter: for each of its two
    files in turn, the legal moves to that file on the target rank. *)
Definition moves_to_ambiguous (self : Parser) (piece_type : PieceType)
    (ambiguous_file : string) (target_rank : Z) : list Move :=
  flat_map (fun target_file =>
              moves_to self piece_type (_file_rank_to_square target_file target_rank))
           (AMBIGUOUS_FILES ambiguous_file).

(** Lines 167-276. *)
Definition _parse_piece_move (self : Parser) (notation : string) : Res (option Move) :=
  piece_char <- index notation 0 ;;
  let notation := drop 1 notation in
  let is_capture := has_capture_mark notation in
  let notation := remove_marks notation in
  if mem notation ["P"; "R"; "N"; "B"; "Q"; "K"; ""]
  then
    let captured_type := if notation == "" then None else Some notation in
    Val (_parse_generic_capture self piece_char captured_type)
  else
    scanned <- scan_destination notation ;;
    match scanned with
    | (None, None, _) => Val None
    | (_, _, None) => Val None
    | (file_desc, ambiguous_file, Some rank_desc) =>
        match piece_map piece_char with
        | None => Val None
        | Some piece_type =>
            let target_rank := _descriptive_rank_to_standard self rank_desc in
            match ambiguous_file, file_desc with
            | Some ambiguous_file, _ =>
                Val (choose_candidate self is_capture
                       (moves_to_ambiguous self piece_type ambiguous_file target_rank))
            | None, None => Val None
            | None, Some file_desc =>
                match _descriptive_file_to_standard file_desc with
                | None => Val None
                | Some target_file =>
                    let target_square := _file_rank_to_square target_file target_rank in
                    Val (choose_candidate self is_capture
                           (moves_to self piece_type target_square))
                end
            end
        end
    end.

(** Lines 278-375.  The source also assigns [is_capture] here and never
    reads it. *)
Definition _parse_qualified_piece_move (self : Parser) (notation : string)
  : Res (option Move) :=
  let qualified_name := take 2 notation in
  let notation := drop 2 notation in
  match QUALIFIED_PIECES qualified_name with
  | None => Val None
  | Some (piece_char, side_qualifier) =>
      let notation := remove_marks notation in
      if (notation == "P") || (notation == "")
      then Val (_parse_qualified_capture self piece_char side_qualifier)
      else
        scanned <- scan_destination notation ;;
        match scanned with
        | (None, None, _) => Val None
        | (_, _, None) => Val None
        | (file_desc, ambiguous_file, Some rank_desc) =>
            match piece_map piece_char with
            | None => Val None
            | Some piece_type =>
                let target_rank := _descriptive_rank_to_standard self rank_desc in
                let target_squares :=
                  match ambiguous_file, file_desc with
                  | Some ambiguous_file, _ =>
                      map (fun f => _file_rank_to_square f target_rank)
                          (AMBIGUOUS_FILES ambiguous_file)
                  | None, Some file_desc =>
                      match _descriptive_file_to_standard file_desc with
                      | Some target_file =>
                          [_file_rank_to_square target_file target_rank]
                      | None => []
                      end
                  | None, None => []
                  end in
                match target_squares with
                | [] => Val None
                | _ =>
                    let candidates :=
                      filter (fun move =>
                                existsb (Z.eqb (to_square move)) target_squares &&
                                origin_matches self piece_type move)
                             (legal_moves (board self)) in
                    Val (choose_qualified side_qualifier candidates)
                end
            end
        end
  end.

(** Lines 442-542. *)
Definition _parse_pawn_move (self : Parser) (notation : string) : Res (option Move) :=
  let notation :=
    if startswith notation "P-" then drop 2 notation
    else if startswith notation "P" then drop 1 notation
    else notation in
  let is_capture := has_capture_mark notation in
  let remaining := remove "X" (remove "x" notation) in
  if mem remaining ["P"; "N"; "B"; "R"; "Q"; ""]
  then
    let captured_type := if remaining == "" then None else Some remaining in
    Val (_parse_generic_capture self "P" captured_type)
  else
    let notation := remove "X" (remove "x" notation) in
    scanned <- scan_destination notation ;;
    match scanned with
    | (None, None, _) => Val None
    | (_, _, None) => Val None
    | (file_desc, ambiguous_file, Some rank_desc) =>
        let target_rank := _descriptive_rank_to_standard self rank_desc in
        match ambiguous_file, file_desc with
        | Some ambiguous_file, _ =>
            Val (choose_candidate self is_capture
                   (moves_to_ambiguous self 1 ambiguous_file target_rank))
        | None, None => Val None
        | None, Some file_desc =>
            match _descriptive_file_to_standard file_desc with
            | None => Val None
            | Some target_file =>
                let target_square := _file_rank_to_square target_file target_rank in
                Val (choose_candidate self is_capture
                       (moves_to self 1 target_square))
            end
        end
    end.

(** [len(notation) > n and notation[n] in ['-', 'x', 'X']] *)
Definition mark_at (notation : string) (n : nat) : Res bool :=
  if (n <? length notation)%nat
  then c <- index notation n ;; Val (mem c ["-"; "x"; "X"])
  else Val false.

(** Lines 63-121. *)
Definition parse (self : Parser) (notation : string) : Res (option Move) :=
  let notation := upper (strip notation) in
  let notation := Annotation.sub notation in
  if (notation == "O-O") || (notation == "0-0")
  then Val (_parse_castling_kingside self)
  else if (notation == "O-O-O") || (notation == "0-0-0")
  then Val (_parse_castling_queenside self)
  else if contains "(" notation && contains ")" notation
  then _parse_promotion self notation
  else
    is_qualified <-
      match find (startswith notation) ["QR"; "KR"; "QN"; "KN"; "QB"; "KB"] with
      | Some _ => mark_at notation 2
      | None => Val false
      end ;;
    if is_qualified
    then _parse_qualified_piece_move self notation
    else if existsb (startswith notation) ["R"; "N"; "B"; "Q"]
    then _parse_piece_move self notation
    else if startswith notation "K"
    then
      is_king <- mark_at notation 1 ;;
      if is_king
      then _parse_piece_move self notation
      else if existsb (startswith notation) ["KB"; "KN"; "KR"]
      then _parse_pawn_move self notation
      else
        king_move <- _parse_piece_move self notation ;;
        if truthy_move king_move
        then Val king_move
        else _parse_pawn_move self notation
    else _parse_pawn_move self notation.

End DescriptiveNotationParser.

(** ** [MoveToDescriptive] *)

Module MoveToDescriptive.
Import PyStr.

(** [FILE_NAMES[k]] *)
Definition FILE_NAMES (k : Z) : Res string :=
  if k =? 0 then Val "QR"
  else if k =? 1 then Val "QN"
  else if k =? 2 then Val "QB"
  else if k =? 3 then Val "Q"
  else if k =? 4 then Val "K"
  else if k =? 5 then Val "KB"
  else if k =? 6 then Val "KN"
  else if k =? 7 then Val "KR"
  else Exc KeyError.

(** [PIECE_LETTERS.get(k, '')] *)
Definition PIECE_LETTERS (k : Z) : string :=
  if k =? 1 then "P"
  else if k =? 2 then "N"
  else if k =? 3 then "B"
  else if k =? 4 then "R"
  else if k =? 5 then "Q"
  else if k =? 6 then "K"
  else "".

(** [chess.SQUARE_NAMES[square]], a list of 64 names; a negative index
    counts from the end. *)
Definition square_name (square : Square) : Res string :=
  if (-64 <=? square) && (square <? 64)
  then
    let i := square mod 64 in
    Val (String (ascii_of_N (Z.to_N (97 + i mod 8)))
           (String (ascii_of_N (Z.to_N (49 + i / 8))) ""))
  else Exc IndexError.

(** [chess.piece_symbol(p)] for a piece type. *)
Definition piece_symbol (p : PieceType) : Res string :=
  if (1 <=? p) && (p <=? 6) then Val (lower (PIECE_LETTERS p))
  else Exc IndexError.

(** [move.uci()] *)
Definition uci (move : Move) : Res string :=
  if truthy_int (promotion move)
  then
    a <- square_name (from_square move) ;;
    b <- square_name (to_square move) ;;
    c <- match promotion move with
         | Some p => piece_symbol p
         | None => Val ""
         end ;;
    Val (a ++ b ++ c)
  else if Move_bool move
  then
    a <- square_name (from_square move) ;;
    b <- square_name (to_square move) ;;
    Val (a ++ b)
  else Val "0000".

(** [MoveToDescriptive.convert], lines 28-80 of [chess_board_gui.py]. *)
Definition convert (board : Board) (move : Move) : Res string :=
  if is_castling board move
  then if is_kingside_castling board move then Val "O-O" else Val "O-O-O"
  else
    let from_sq := from_square move in
    let to_sq := to_square move in
    let captured := piece_at board to_sq in
    match piece_at board from_sq with
    | None => uci move
    | Some piece =>
        let piece_letter := PIECE_LETTERS (piece_type piece) in
        let to_file := to_sq mod 8 in
        let to_rank := to_sq / 8 in
        let rank_num := if color piece then to_rank + 1 else 8 - to_rank in
        file_name <- FILE_NAMES to_file ;;
        result <-
          match captured with
          | Some _ =>
              if piece_type piece =? 1
              then
                let from_file := from_sq mod 8 in
                from_file_name <- FILE_NAMES from_file ;;
                Val (from_file_name ++ "Px" ++ file_name ++ str rank_num)
              else Val (piece_letter ++ "x" ++ file_name ++ str rank_num)
          | None => Val (piece_letter ++ "-" ++ file_name ++ str rank_num)
          end ;;
        match promotion move with
        | Some p =>
            if p =? 0 then Val result
            else Val (result ++ "(" ++ PIECE_LETTERS p ++ ")")
        | None => Val result
        end
    end.

End MoveToDescriptive.

(** ** Positions

    Board states written down as the oracle answers them: the placement as
    eight rows from the eighth rank to the first, the side to move, the
    castling rights, and the legal moves in the order in which the chess
    library enumerates them (pieces from the highest origin square down,
    each to its highest target first, then pawn captures, single steps,
    double steps and en passant captures). *)

Module Positions.
Import PyStr.

(** [Piece.from_symbol] *)
Definition piece_from_symbol (c : ascii) : option Piece :=
  let letter := String (upper_char c) "" in
  match DescriptiveNotationParser.piece_map letter with
  | Some t => Some (mkPiece t (isupper c))
  | None => None
  end.

Definition placement (rows : list string) (square : Square) : option Piece :=
  if (0 <=? square) && (square <? 64)
  then
    match get (Z.to_nat (square mod 8)) (nth (Z.to_nat (7 - square / 8)) rows "") with
    | Some c => piece_from_symbol c
    | None => None
    end
  else None.

(** The square of a name such as [e4]. *)
Definition parse_square (file rank : ascii) : Square :=
  (ord rank - 49) * 8 + (ord file - 97).

(** [Move.from_uci] on a move without promotion (four characters) or with
    one (five). *)
Definition from_uci (s : string) : Move :=
  match s with
  | String f1 (String r1 (String f2 (String r2 rest))) =>
      mkMove (parse_square f1 r1) (parse_square f2 r2)
        (match rest with
         | String p _ => DescriptiveNotationParser.promo_map (String (upper_char p) "")
         | EmptyString => None
         end)
  | _ => mkMove 0 0 None
  end.

(** [Board.is_castling]: a king that moves more than one file, or onto a
    rook of its own side. *)
Definition castling_of (at_ : Square -> option Piece) (side : Color) (move : Move) : bool :=
  match at_ (from_square move) with
  | Some k =>
      (piece_type k =? KING) &&
      ((1 <? Z.abs (from_square move mod 8 - to_square move mod 8)) ||
       match at_ (to_square move) with
       | Some r => (piece_type r =? ROOK) && Bool.eqb (color r) side
       | None => false
       end)
  | None => false
  end.

Definition position (rows : list string) (side : Color) (rights : string)
    (moves : list string) : Board :=
  let at_ := placement rows in
  {| turn := side;
     legal_moves := map from_uci moves;
     piece_at := at_;
     has_kingside_castling_rights :=
       fun c => contains (if c then "K" else "k")%char rights;
     has_queenside_castling_rights :=
       fun c => contains (if c then "Q" else "q")%char rights;
     is_castling := castling_of at_ side;
     is_kingside_castling :=
       fun move => castling_of at_ side move &&
                   (from_square move mod 8 <? to_square move mod 8) |}.

(** The initial position. *)
Definition initial : Board :=
  position ["rnbqkbnr"; "pppppppp"; "........"; "........";
            "........"; "........"; "PPPPPPPP"; "RNBQKBNR"]
    WHITE "KQkq"
    ["g1h3"; "g1f3"; "b1c3"; "b1a3";
     "h2h3"; "g2g3"; "f2f3"; "e2e3"; "d2d3"; "c2c3"; "b2b3"; "a2a3";
     "h2h4"; "g2g4"; "f2f4"; "e2e4"; "d2d4"; "c2c4"; "b2b4"; "a2a4"].

(** The position after 1. e4. *)
Definition after_e4 : Board :=
  position ["rnbqkbnr"; "pppppppp"; "........"; "........";
            "....P..."; "........"; "PPPP.PPP"; "RNBQKBNR"]
    BLACK "KQkq"
    ["g8h6"; "g8f6"; "b8c6"; "b8a6";
     "h7h6"; "g7g6"; "f7f6"; "e7e6"; "d7d6"; "c7c6"; "b7b6"; "a7a6";
     "h7h5"; "g7g5"; "f7f5"; "e7e5"; "d7d5"; "c7c5"; "b7b5"; "a7a5"].

(** The position of the castling test of the test script,
    [r1bqk2r/pppp1ppp/2n2n2/2b1p3/2B1P3/5N2/PPPP1PPP/RNBQK2R w KQkq]. *)
Definition italian : Board :=
  position ["r.bqk..r"; "pppp.ppp"; "..n..n.."; "..b.p...";
            "..B.P..."; ".....N.."; "PPPP.PPP"; "RNBQK..R"]
    WHITE "KQkq"
    ["c4f7"; "c4e6"; "c4a6"; "c4d5"; "c4b5"; "c4d3"; "c4b3"; "c4e2"; "c4f1";
     "f3g5"; "f3e5"; "f3h4"; "f3d4"; "f3g1";
     "h1g1"; "h1f1"; "e1e2"; "e1f1"; "d1e2"; "b1c3"; "b1a3";
     "e1g1";
     "h2h3"; "g2g3"; "d2d3"; "c2c3"; "b2b3"; "a2a3";
     "h2h4"; "g2g4"; "d2d4"; "b2b4"; "a2a4"].

(** White rooks on e5 and h1, the white king on g1; Black has the king on
    g8 and a pawn on a5.  White to move. *)
Definition two_rooks : Board :=
  position ["......k."; "........"; "........"; "p...R...";
            "........"; "........"; "........"; "......KR"]
    WHITE ""
    ["e5e8"; "e5e7"; "e5e6"; "e5h5"; "e5g5"; "e5f5"; "e5d5"; "e5c5"; "e5b5";
     "e5a5"; "e5e4"; "e5e3"; "e5e2"; "e5e1";
     "h1h8"; "h1h7"; "h1h6"; "h1h5"; "h1h4"; "h1h3"; "h1h2";
     "g1h2"; "g1g2"; "g1f2"; "g1f1"].

(** A white rook on a1 that can take a knight on a5, and no pawn on the
    board.  White to move. *)
Definition rook_takes_knight : Board :=
  position ["....k..."; "........"; "........"; "n.......";
            "........"; "........"; "........"; "R...K..."]
    WHITE ""
    ["e1f2"; "e1e2"; "e1d2"; "e1f1"; "e1d1";
     "a1a5"; "a1a4"; "a1a3"; "a1a2"; "a1d1"; "a1c1"; "a1b1"].

(** A white pawn on e4 that can take a pawn on d5 or step to e5.  White to
    move. *)
Definition pawn_takes : Board :=
  position ["....k..."; "........"; "........"; "...p....";
            "....P..."; "........"; "........"; "....K..."]
    WHITE ""
    ["e1f2"; "e1e2"; "e1d2"; "e1f1"; "e1d1"; "e4d5"; "e4e5"].

(** After Black's d7-d5: the white pawn on e5 can take en passant on d6,
    and there is no other capture.  White to move. *)
Definition en_passant_only : Board :=
  position ["....k..."; "........"; "........"; "...pP...";
            "........"; "........"; "........"; "....K..."]
    WHITE ""
    ["e1f2"; "e1e2"; "e1d2"; "e1f1"; "e1d1"; "e5e6"; "e5d6"].

(** A white pawn on e7 in front of the empty square e8.  White to move. *)
Definition pawn_on_seventh : Board :=
  position ["........"; "....P..."; "........"; "........";
            "........"; "........"; "k......."; "....K..."]
    WHITE ""
    ["e1f2"; "e1e2"; "e1d2"; "e1f1"; "e1d1";
     "e7e8q"; "e7e8r"; "e7e8b"; "e7e8n"].

End Positions.

(** ** Notions used in the statements *)

Module Notions.
Import PyStr DescriptiveNotationParser.

(** [m] is the first element of [l], in the order of [l], on which [p]
    holds. *)
Definition first_satisfying {A : Type} (p : A -> bool) (l : list A) (m : A) : Prop :=
  exists before after,
    l = (before ++ m :: after)%list /\ p m = true /\ Forall (fun x => p x = false) before.

(** The squares a destination names for the parser [self]: the square of a
    full file name on the rank, or the two squares of an abbreviated file
    letter. *)
Definition named_squares (self : Parser) (file_token : string) (rank_desc : Z)
  : list Square :=
  let target_rank := _descriptive_rank_to_standard self rank_desc in
  match FILE_MAP file_token with
  | Some f => [_file_rank_to_square f target_rank]
  | None => map (fun f => _file_rank_to_square f target_rank)
                (AMBIGUOUS_FILES file_token)
  end.

(** The candidates of a plain piece or pawn move of kind [kind] to the
    destination [file_token], [rank_desc]: the legal moves of such a piece
    of the side to move to the named square, in the order of the oracle;
    for an abbreviated file letter the moves to the queenside square, in
    the order of the oracle, then those to the kingside square. *)
Definition candidates (self : Parser) (kind : PieceType) (file_token : string)
    (rank_desc : Z) : list Move :=
  let target_rank := _descriptive_rank_to_standard self rank_desc in
  match FILE_MAP file_token with
  | Some f => moves_to self kind (_file_rank_to_square f target_rank)
  | None => moves_to_ambiguous self kind file_token target_rank
  end.

(** The candidates of a qualified piece move, in the order of the oracle. *)
Definition qualified_candidates (self : Parser) (kind : PieceType)
    (file_token : string) (rank_desc : Z) : list Move :=
  filter (fun move =>
            existsb (Z.eqb (to_square move)) (named_squares self file_token rank_desc) &&
            origin_matches self kind move)
         (legal_moves (board self)).

(** The six piece letters of a move, with their kinds. *)
Definition piece_letters : list (string * PieceType) :=
  [("P", PAWN); ("N", KNIGHT); ("B", BISHOP); ("R", ROOK); ("Q", QUEEN);
   ("K", KING)].

(** The destinations: the eight file names and the three abbreviated
    letters. *)
Definition file_tokens : list string :=
  file_patterns ++ ["R"; "N"; "B"].

(** The order of the rules in the words of the specification: with a
    qualifier, the candidate that alone has its origin on the side of the
    qualifier; otherwise, for a capture, a candidate that lands on a piece;
    otherwise the first candidate. *)
Definition disambiguate_as_specified (self : Parser) (side_qualifier : option string)
    (is_capture : bool) (cands : list Move) : option Move :=
  let by_capture :=
    if is_capture
    then match find (fun move => occupied self (to_square move)) cands with
         | Some move => Some move
         | None => hd_error cands
         end
    else hd_error cands in
  match side_qualifier with
  | Some side =>
      match filter (on_side side) cands with
      | [only] => Some only
      | _ => by_capture
      end
  | None => by_capture
  end.

(** [move] has an unambiguous single origin: it is the only legal move to
    its destination by a piece of the kind of [piece] of the side to move,
    or, for a promotion, the only legal move to its destination with that
    promotion. *)
Definition unambiguous (b : Board) (move : Move) (piece : Piece) : Prop :=
  forall other, In other (legal_moves b) -> to_square other = to_square move ->
    match promotion move with
    | None => origin_matches (__init__ b) (piece_type piece) other = true
    | Some _ => promotion other = promotion move
    end -> other = move.

(** What the chess library guarantees of a legal castling move: the side
    to move has the right, and the move is the king move of that side. *)
Definition castling_coherent (b : Board) (move : Move) : Prop :=
  is_castling b move = true ->
  if is_kingside_castling b move
  then has_kingside_castling_rights b (turn b) = true /\
       move = (if turn b then e1g1 else e8g8)
  else has_queenside_castling_rights b (turn b) = true /\
       move = (if turn b then e1c1 else e8c8).

(** A promotion of [move] is one of a pawn, to a knight, bishop, rook or
    queen. *)
Definition promotion_coherent (move : Move) (piece : Piece) : Prop :=
  match promotion move with
  | None => True
  | Some p => piece_type piece = PAWN /\ 2 <= p <= 5
  end.

(** The text of a move that is not castling, as [convert] builds it for a
    piece letter, a mark and a destination. *)
Definition move_text (letter mark file_token : string) (rank_desc : Z)
    (promo : option PieceType) : string :=
  letter ++ mark ++ file_token ++ str rank_desc ++
  match promo with
  | Some p => "(" ++ MoveToDescriptive.PIECE_LETTERS p ++ ")"
  | None => ""
  end.

(** Two boards that answer every query alike. *)
Definition same_answers (b1 b2 : Board) : Prop :=
  turn b1 = turn b2 /\
  legal_moves b1 = legal_moves b2 /\
  (forall square, piece_at b1 square = piece_at b2 square) /\
  (forall c, has_kingside_castling_rights b1 c = has_kingside_castling_rights b2 c) /\
  (forall c, has_queenside_castling_rights b1 c = has_queenside_castling_rights b2 c).

(** One of the marks that [remove_marks] deletes. *)
Definition is_mark (c : ascii) : bool :=
  Ascii.eqb c "-" || Ascii.eqb c "x" || Ascii.eqb c "X".

(** The length of the run of digits at the head of [s] when the marks in
    it are skipped. *)
Fixpoint run_across_marks (s : string) : nat :=
  match s with
  | EmptyString => O
  | String c s' =>
      if isdigit c then S (run_across_marks s')
      else if is_mark c then run_across_marks s'
      else O
  end.

(** The longest such run in [s]. *)
Fixpoint longest_run_across_marks (s : string) : nat :=
  match s with
  | EmptyString => O
  | String _ s' => Nat.max (run_across_marks s) (longest_run_across_marks s')
  end.

(** [c * n] for a one-character string. *)
Fixpoint repeat_char (c : ascii) (n : nat) : string :=
  match n with
  | O => EmptyString
  | S n' => String c (repeat_char c n')
  end.

End Notions.

(** ** Notations as [parse] reads them *)

Module Forms.
Import PyStr DescriptiveNotationParser.

(** The notation after lines 76-79 of [parse]: stripped, in upper case,
    cut at the first annotation. *)
Definition normalize (notation : string) : string :=
  Annotation.sub (upper (strip notation)).

(** A string of white space only. *)
Definition blank (s : string) : bool :=
  forallb isspace (list_ascii_of_string s).

(** A character at which no match of the annotation pattern can begin:
    not white space and, in either case, not one of c, m, e, [+], [#]. *)
Definition plain_char (c : ascii) : bool :=
  negb (isspace c) &&
  negb (existsb (Ascii.eqb (upper_char c)) ["C"; "M"; "E"; "+"; "#"]%char).

Definition plain (s : string) : bool :=
  forallb plain_char (list_ascii_of_string s).

(** Check, mate and en passant annotations as they are written after a
    move. *)
Definition annotations : list string :=
  ["+"; "#"; "++"; "ch"; " ch"; " ch."; "check"; " check"; "mate"; " mate";
   "e.p."; " e.p."; " e.p"; " ep"; " e. p."].

(** The four spellings of castling. *)
Definition castling_tokens : list string := ["O-O"; "0-0"; "O-O-O"; "0-0-0"].

(** [m] is a legal move whose origin holds a piece of kind [kind] of the
    side to move. *)
Definition legal_from (self : Parser) (kind : PieceType) (m : Move) : Prop :=
  In m (legal_moves (board self)) /\ origin_matches self kind m = true.

(** What [parse] makes of the text of a capture by a pawn from the file
    [from_file], [<origin file>Px<file><rank>]: the origin file is taken
    for the destination when it is one of K, KB, KN, KR; the text is a
    queen move when it begins with QR, QN or QB, and nothing when it
    begins with Q. *)
Definition reading_of_pawn_capture (self : Parser) (from_file rank_desc : Z)
  : option Move :=
  let target_rank := _descriptive_rank_to_standard self rank_desc in
  if 4 <=? from_file
  then choose_candidate self true (moves_to self PAWN (target_rank * 8 + from_file))
  else if from_file =? 3 then None
  else choose_candidate self true
         (moves_to_ambiguous self QUEEN
            (if from_file =? 0 then "R" else if from_file =? 1 then "N" else "B")
            target_rank).

(** The file names of the formatter ([FILE_NAMES], lines 21-24 of
    [chess_board_gui.py]) by file index. *)
Definition file_names_table : list (Z * Res string) :=
  [(0, Val "QR"); (1, Val "QN"); (2, Val "QB"); (3, Val "Q");
   (4, Val "K"); (5, Val "KB"); (6, Val "KN"); (7, Val "KR")].

End Forms.

(** ** The board window ([ChessBoardGUI] of [chess_board_gui.py])

    The geometry of the two canvases and the bookkeeping of the move
    history.  The Tk widgets are kept by what the handlers write into them:
    the content of the history text and the text of the navigation label.
    The [Board] object is not part of the state; what a handler reads from
    it (a FEN, the piece on a square) is an argument of the handler. *)

Module ChessBoardGUI.
Import PyStr.

Definition SQUARE_SIZE : Z := 64.
Definition BOARD_SIZE : Z := SQUARE_SIZE * 8.
Definition PIECE_TYPES : list string := ["K"; "Q"; "R"; "B"; "N"; "P"].

(** [_coords_to_square] (lines 351-357), on the integer pixel coordinates
    of a Tk event. *)
Definition _coords_to_square (x y : Z) : option Square :=
  let file := x / SQUARE_SIZE in
  let rank := 7 - y / SQUARE_SIZE in
  if (0 <=? file) && (file <? 8) && (0 <=? rank) && (rank <? 8)
  then Some (rank * 8 + file)
  else None.

(** [_square_to_coords] (lines 359-365). *)
Definition _square_to_coords (square : Square) : Z * Z :=
  let file := square mod 8 in
  let rank := square / 8 in
  (file * SQUARE_SIZE + SQUARE_SIZE / 2,
   (7 - rank) * SQUARE_SIZE + SQUARE_SIZE / 2).

(** The rectangle [(x1, y1, x2, y2)] that [_draw_board] creates for the
    square of [rank] and [file] (lines 305-310). *)
Definition square_rectangle (rank file : Z) : Z * Z * Z * Z :=
  let x1 := file * SQUARE_SIZE in
  let y1 := (7 - rank) * SQUARE_SIZE in
  (x1, y1, x1 + SQUARE_SIZE, y1 + SQUARE_SIZE).

(** The pixels of a rectangle: its left and upper edges belong to it, its
    right and lower edges to the neighbours. *)
Definition inside (r : Z * Z * Z * Z) (x y : Z) : Prop :=
  let '(x1, y1, x2, y2) := r in x1 <= x < x2 /\ y1 <= y < y2.

(** [target_square] of [_on_release] (lines 500-504), from the position of
    the release relative to the board canvas. *)
Definition release_target (rel_x rel_y : Z) : option Square :=
  if (0 <=? rel_x) && (rel_x <=? BOARD_SIZE) && (0 <=? rel_y) && (rel_y <=? BOARD_SIZE)
  then _coords_to_square rel_x rel_y
  else None.

(** The height at which [_draw_sidebar] draws the piece of index [i]
    (lines 274-275 and 288-289). *)
Definition sidebar_y (i : nat) : Z := Z.of_nat i * 32 + 20.

(** [drag_data["piece"]] as [_sidebar_press] sets it (lines 369-373);
    [None] when the press sets nothing. *)
Definition _sidebar_press (y : Z) (is_white : bool) : option string :=
  let index := y / 32 in
  if (0 <=? index) && (index <? Z.of_nat (List.length PIECE_TYPES))
  then
    match nth_error PIECE_TYPES (Z.to_nat index) with
    | Some piece_type => Some (if is_white then piece_type else lower piece_type)
    | None => None
    end
  else None.

(** *** Python lists *)

Definition len {A : Type} (l : list A) : Z := Z.of_nat (List.length l).

(** [l[:k]] *)
Definition slice_to {A : Type} (l : list A) (k : Z) : list A :=
  if k <? 0 then firstn (Z.to_nat (len l + k)) l else firstn (Z.to_nat k) l.

(** [l[i]] *)
Definition item {A : Type} (l : list A) (i : Z) : Res A :=
  let j := if i <? 0 then len l + i else i in
  if (0 <=? j) && (j <? len l)
  then
    match nth_error l (Z.to_nat j) with
    | Some a => Val a
    | None => Exc IndexError
    end
  else Exc IndexError.

(** *** The move history *)

Record Gui : Type := mkGui {
  move_history : list string;
  move_notations : list string;
  board_states : list string;
  current_move_index : Z;
  animating : bool;
  history_text : string;
  move_label : string
}.

Definition set_move_history (self : Gui) (v : list string) : Gui :=
  mkGui v (move_notations self) (board_states self) (current_move_index self)
        (animating self) (history_text self) (move_label self).

Definition set_move_notations (self : Gui) (v : list string) : Gui :=
  mkGui (move_history self) v (board_states self) (current_move_index self)
        (animating self) (history_text self) (move_label self).

Definition set_board_states (self : Gui) (v : list string) : Gui :=
  mkGui (move_history self) (move_notations self) v (current_move_index self)
        (animating self) (history_text self) (move_label self).

Definition set_current_move_index (self : Gui) (v : Z) : Gui :=
  mkGui (move_history self) (move_notations self) (board_states self) v
        (animating self) (history_text self) (move_label self).

Definition set_animating (self : Gui) (v : bool) : Gui :=
  mkGui (move_history self) (move_notations self) (board_states self)
        (current_move_index self) v (history_text self) (move_label self).

Definition set_history_text (self : Gui) (v : string) : Gui :=
  mkGui (move_history self) (move_notations self) (board_states self)
        (current_move_index self) (animating self) v (move_label self).

Definition set_move_label (self : Gui) (v : string) : Gui :=
  mkGui (move_history self) (move_notations self) (board_states self)
        (current_move_index self) (animating self) (history_text self) v.

(** [__init__] (lines 106-115) with the label of [_create_controls]
    (line 239); [fen] is [Board().fen()]. *)
Definition __init__ (fen : string) : Gui :=
  mkGui [] [] [fen] 0 false "" "Start".

(** [f"{num}. {who}: {notation}\n"] of lines 659-661 and 672-674. *)
Definition history_line (num : Z) (notation : string) : string :=
  str num ++ ". " ++ (if num mod 2 =? 1 then "W" else "B") ++ ": " ++ notation
    ++ String Annotation.newline "".

(** The loop of [_rebuild_history_display] from index [i] on. *)
Fixpoint listing (i : Z) (notations : list string) : string :=
  match notations with
  | [] => ""
  | notation :: rest => history_line (i + 1) notation ++ listing (i + 1) rest
  end.

(** [_rebuild_history_display] (lines 654-662). *)
Definition _rebuild_history_display (self : Gui) : Gui :=
  set_history_text self (listing 0 (move_notations self)).

(** [_add_history] (lines 669-676). *)
Definition _add_history (self : Gui) (notation : string) : Gui :=
  set_history_text self
    (history_text self ++ history_line (len (move_history self)) notation).

(** The text of [_update_nav_label] (lines 893-899). *)
Definition nav_text (self : Gui) : string :=
  if current_move_index self =? 0 then "Start"
  else str (current_move_index self) ++ "/" ++ str (len (board_states self) - 1).

Definition _update_nav_label (self : Gui) : Gui :=
  set_move_label self (nav_text self).

(** [_make_move] (lines 566-603).  [board] is [self.board] before the
    move, [fen] its FEN and [fen_pushed] its FEN after [push]. *)
Definition _make_move (self : Gui) (board : Board) (fen fen_pushed : string)
    (move : Move) (notation : option string) (animate : bool) : Res Gui :=
  let self :=
    if current_move_index self <? len (board_states self) - 1
    then
      let states := slice_to (board_states self) (current_move_index self + 1) in
      let history := slice_to (move_history self) (current_move_index self) in
      let notations := slice_to (move_notations self) (current_move_index self) in
      _rebuild_history_display
        (set_move_notations (set_move_history (set_board_states self states) history)
           notations)
    else self in
  let self := set_move_history self (move_history self ++ [fen])%list in
  notation <- match notation with
              | Some text => Val text
              | None => MoveToDescriptive.convert board move
              end ;;
  let self := set_move_notations self (move_notations self ++ [notation])%list in
  let piece := piece_at board (from_square move) in
  let self := set_board_states self (board_states self ++ [fen_pushed])%list in
  let self := set_current_move_index self (len (board_states self) - 1) in
  let self :=
    if animate && (match piece with Some _ => true | None => false end)
    then set_animating self true
    else self in
  Val (_update_nav_label (_add_history self notation)).

(** [_reset_board] (lines 693-706); [fen] is [Board().fen()]. *)
Definition _reset_board (self : Gui) (fen : string) : Gui :=
  _update_nav_label
    (set_history_text
       (set_current_move_index
          (set_board_states (set_move_notations (set_move_history self []) []) [fen]) 0)
       "").

(** [_clear_board] (lines 708-720); [fen] is the FEN of the cleared
    board. *)
Definition _clear_board (self : Gui) (fen : string) : Gui :=
  _update_nav_label
    (set_history_text
       (set_current_move_index
          (set_board_states (set_move_notations (set_move_history self []) []) [fen]) 0)
       "").

(** [_undo_move] (lines 722-744). *)
Definition _undo_move (self : Gui) : Gui :=
  if 1 <? len (board_states self)
  then
    let self := set_board_states self (removelast (board_states self)) in
    let self :=
      match move_history self with
      | [] => self
      | _ => set_move_history self (removelast (move_history self))
      end in
    let self :=
      match move_notations self with
      | [] => self
      | _ => set_move_notations self (removelast (move_notations self))
      end in
    let self := set_current_move_index self (len (board_states self) - 1) in
    _update_nav_label (_rebuild_history_display self)
  else self.

(** [_animate_navigation] (lines 803-843).  [moving] says whether the
    comparison of the two boards finds a piece to move, in which case
    [_animate_piece_move] (line 847) starts an animation. *)
Definition _animate_navigation (self : Gui) (from_index to_index : Z) (moving : bool)
    : Res Gui :=
  _ <- item (board_states self) from_index ;;
  _ <- item (board_states self) to_index ;;
  Val (if moving then set_animating self true else self).

(** [_navigate_to_move] (lines 780-801). *)
Definition _navigate_to_move (self : Gui) (index : Z) (animate moving : bool) : Res Gui :=
  if animating self then Val self
  else
    let old_index := current_move_index self in
    let self := set_current_move_index self index in
    _ <- item (board_states self) index ;;
    self <- (if animate && (Z.abs (index - old_index) =? 1)
             then _animate_navigation self old_index index moving
             else Val self) ;;
    Val (_update_nav_label self).

(** [_go_to_start], [_go_back], [_go_forward], [_go_to_end]
    (lines 760-778). *)
Definition _go_to_start (self : Gui) (moving : bool) : Res Gui :=
  if 0 <? current_move_index self
  then _navigate_to_move self 0 true moving
  else Val self.

Definition _go_back (self : Gui) (moving : bool) : Res Gui :=
  if 0 <? current_move_index self
  then _navigate_to_move self (current_move_index self - 1) true moving
  else Val self.

Definition _go_forward (self : Gui) (moving : bool) : Res Gui :=
  if current_move_index self <? len (board_states self) - 1
  then _navigate_to_move self (current_move_index self + 1) true moving
  else Val self.

Definition _go_to_end (self : Gui) (moving : bool) : Res Gui :=
  if current_move_index self <? len (board_states self) - 1
  then _navigate_to_move self (len (board_states self) - 1) true moving
  else Val self.

(** One handler run to its end.  The last timer callback of an animation
    (lines 632-636 and 871-876) clears [animating]; it may come at any
    time. *)
Inductive step : Gui -> Gui -> Prop :=
| step_make_move self board fen fen_pushed move notation animate self' :
    _make_move self board fen fen_pushed move notation animate = Val self' ->
    step self self'
| step_undo_move self : step self (_undo_move self)
| step_reset_board self fen : step self (_reset_board self fen)
| step_clear_board self fen : step self (_clear_board self fen)
| step_go_to_start self moving self' :
    _go_to_start self moving = Val self' -> step self self'
| step_go_back self moving self' :
    _go_back self moving = Val self' -> step self self'
| step_go_forward self moving self' :
    _go_forward self moving = Val self' -> step self self'
| step_go_to_end self moving self' :
    _go_to_end self moving = Val self' -> step self self'
| step_animation_ends self : step self (set_animating self false).

(** The states of a window after any number of handlers. *)
Inductive reachable : Gui -> Prop :=
| reachable_init fen : reachable (__init__ fen)
| reachable_step self self' : reachable self -> step self self' -> reachable self'.

(** The lists, the index and the two widgets agree. *)
Definition consistent (self : Gui) : Prop :=
  len (move_history self) = len (board_states self) - 1 /\
  len (move_notations self) = len (board_states self) - 1 /\
  0 <= current_move_index self < len (board_states self) /\
  history_text self = listing 0 (move_notations self) /\
  move_label self = nav_text self.

End ChessBoardGUI.

(** * Properties *)

Import PyStr DescriptiveNotationParser Notions.

(** ** Tables and small ranges *)

Lemma FILE_MAP_inv (tok : string) (f : ascii) :
  FILE_MAP tok = Some f ->
  In (tok, f) [("QR", "a"%char); ("QN", "b"%char); ("QB", "c"%char);
               ("Q", "d"%char); ("K", "e"%char); ("KB", "f"%char);
               ("KN", "g"%char); ("KR", "h"%char)].
Proof.
  unfold FILE_MAP.
  repeat match goal with
  | |- context [String.eqb ?a ?b] => destruct (String.eqb_spec a b) as [->|_]
  end; intros H; inversion H; subst; simpl; tauto.
Qed.

Lemma rank_digit_inv (r : Z) : 1 <= r <= 8 -> In r [1; 2; 3; 4; 5; 6; 7; 8].
Proof. intros H. simpl. lia. Qed.

(** Splits the membership hypotheses of a finite case analysis. *)
Ltac cases_of_In :=
  repeat match goal with
  | H : In _ _ |- _ => simpl in H
  | H : _ \/ _ |- _ => destruct H as [H|H]
  | H : (_, _) = (_, _) |- _ => inversion H; clear H
  | H : False |- _ => destruct H
  end; subst.

(** ** The destination of a pawn step *)

Section Destinations.

Local Opaque choose_candidate moves_to moves_to_ambiguous choose_qualified.

Lemma parse_pawn_step (self : Parser) (tok : string) (f : ascii) (r : Z) :
  FILE_MAP tok = Some f -> 1 <= r <= 8 ->
  parse self ("P-" ++ tok ++ str r) =
  Val (choose_candidate self false
         (moves_to self 1
            (_file_rank_to_square f (_descriptive_rank_to_standard self r)))).
Proof.
  intros Hf Hr. apply FILE_MAP_inv in Hf. apply rank_digit_inv in Hr.
  destruct self as [b w].
  cases_of_In; destruct w; lazy; reflexivity.
Qed.

End Destinations.

(** ** Rank perspective *)

(** C1.  The rank digit [r] of a notation resolves to the absolute rank
    index [r - 1] when the parser was built with White to move and to
    [8 - r] when it was built with Black to move.  The side is the one
    copied by the constructor: a later change of the board does not change
    the resolution.  The two colours resolve the same digit to ranks that
    mirror each other, and a pawn step [P-<file><r>] is looked up on the
    square of that rank. *)
Theorem rank_resolution_by_side (b : Board) (r : Z) (tok : string) (f : ascii) :
  1 <= r <= 8 ->
  FILE_MAP tok = Some f ->
  let self := __init__ b in
  let target_rank := if turn b then r - 1 else 8 - r in
  _descriptive_rank_to_standard self r = target_rank /\
  0 <= target_rank <= 7 /\
  (forall b', _descriptive_rank_to_standard (board_mutated self b') r = target_rank) /\
  _descriptive_rank_to_standard (mkParser b BLACK) r =
    7 - _descriptive_rank_to_standard (mkParser b WHITE) r /\
  parse self ("P-" ++ tok ++ str r) =
    Val (choose_candidate self false
           (moves_to self 1 (target_rank * 8 + (ord f - ord "a")))).
Proof.
  intros Hr Hf self target_rank.
  assert (E : _descriptive_rank_to_standard self r = target_rank) by reflexivity.
  split; [exact E |].
  split; [subst target_rank; destruct (turn b); lia |].
  split; [intros b'; exact E |].
  split; [unfold _descriptive_rank_to_standard, BLACK, WHITE; cbn [is_white_turn]; lia |].
  rewrite (parse_pawn_step self tok f r Hf Hr), E. reflexivity.
Qed.

Lemma rank_resolution_by_side_witness :
  (1 <= 4 <= 8 /\ FILE_MAP "K" = Some "e"%char) /\
  _descriptive_rank_to_standard (__init__ Positions.initial) 4 = 3 /\
  _descriptive_rank_to_standard (__init__ Positions.after_e4) 4 = 4.
Proof.
  split; [split; [lia | reflexivity] |].
  split.
  - apply (rank_resolution_by_side Positions.initial 4 "K" "e"); [lia | reflexivity].
  - apply (rank_resolution_by_side Positions.after_e4 4 "K" "e"); [lia | reflexivity].
Defined.

(** ** The opening moves of the test script *)

(** C2.  On the initial position with White to move, [P-K4] is the pawn
    move e2-e4, [N-KB3] the knight move g1-f3 and [P-Q4] the pawn move
    d2-d4; after 1. e4, with Black to move, [P-K4] is the pawn move
    e7-e5. *)
Theorem opening_moves_resolve :
  parse (__init__ Positions.initial) "P-K4" = Val (Some (Positions.from_uci "e2e4")) /\
  parse (__init__ Positions.after_e4) "P-K4" = Val (Some (Positions.from_uci "e7e5")) /\
  parse (__init__ Positions.initial) "N-KB3" = Val (Some (Positions.from_uci "g1f3")) /\
  parse (__init__ Positions.initial) "P-Q4" = Val (Some (Positions.from_uci "d2d4")).
Proof. repeat split; vm_compute; reflexivity. Qed.

(** The answers to the opening moves do not depend on the order in which
    the oracle enumerates the legal moves: each notation has one candidate. *)
Lemma filter_Permutation {A : Type} (p : A -> bool) (l l' : list A) :
  Permutation l l' -> Permutation (filter p l) (filter p l').
Proof.
  induction 1 as [|x l l' _ IH|x y l|l l' l'' _ IH1 _ IH2]; simpl.
  - constructor.
  - destruct (p x); [constructor|]; exact IH.
  - destruct (p x), (p y); try apply Permutation_refl. apply perm_swap.
  - exact (Permutation_trans IH1 IH2).
Qed.

Lemma moves_to_any_order (b0 b : Board) (kind : PieceType) (sq : Square) (m : Move) :
  turn b = turn b0 ->
  (forall square, piece_at b square = piece_at b0 square) ->
  Permutation (legal_moves b0) (legal_moves b) ->
  moves_to (__init__ b0) kind sq = [m] ->
  moves_to (__init__ b) kind sq = [m].
Proof.
  intros Ht Hp Hperm H0. unfold moves_to in *.
  apply Permutation_length_1_inv. rewrite <- H0.
  cbn [board __init__] in *.
  rewrite (filter_ext
             (fun move => (to_square move =? sq) && origin_matches (__init__ b) kind move)
             (fun move => (to_square move =? sq) && origin_matches (__init__ b0) kind move)).
  - apply filter_Permutation. exact Hperm.
  - intros move. unfold origin_matches, __init__. cbn [board].
    rewrite Hp, Ht. reflexivity.
Qed.

Lemma opening_moves_any_order (b : Board) :
  turn b = WHITE ->
  (forall square, piece_at b square = piece_at Positions.initial square) ->
  Permutation (legal_moves Positions.initial) (legal_moves b) ->
  parse (__init__ b) "P-K4" = Val (Some (Positions.from_uci "e2e4")) /\
  parse (__init__ b) "P-Q4" = Val (Some (Positions.from_uci "d2d4")).
Proof.
  intros Ht Hp Hperm.
  assert (Hw : is_white_turn (__init__ b) = true) by exact Ht.
  split.
  - change "P-K4" with ("P-" ++ "K" ++ str 4).
    rewrite (parse_pawn_step (__init__ b) "K" "e" 4 eq_refl ltac:(lia)).
    unfold _descriptive_rank_to_standard. rewrite Hw.
    rewrite (moves_to_any_order Positions.initial b 1 _ (Positions.from_uci "e2e4")
               Ht Hp Hperm); reflexivity.
  - change "P-Q4" with ("P-" ++ "Q" ++ str 4).
    rewrite (parse_pawn_step (__init__ b) "Q" "d" 4 eq_refl ltac:(lia)).
    unfold _descriptive_rank_to_standard. rewrite Hw.
    rewrite (moves_to_any_order Positions.initial b 1 _ (Positions.from_uci "d2d4")
               Ht Hp Hperm); reflexivity.
Qed.

(** ** Castling *)

(** The castling test of the test script. *)
Example castling_test_position :
  parse (__init__ Positions.italian) "O-O" = Val (Some e1g1) /\
  parse (__init__ Positions.italian) "O-O-O" = Val (Some e1c1) /\
  MoveToDescriptive.convert Positions.italian e1g1 = Val "O-O".
Proof. repeat split; vm_compute; reflexivity. Qed.

(** C5.  For the side to move, the kingside token ([O-O] or [0-0]) is the
    king move e1g1 for White and e8g8 for Black when the board grants that
    side the kingside right, and the queenside token ([O-O-O] or [0-0-0])
    is e1c1 or e8c8 when it grants the queenside right; without the right
    the parse fails.  The answer is a function of the side and of the right
    alone: neither the legal moves nor the placement are read. *)
Theorem castling_by_rights (b : Board) :
  let self := __init__ b in
  let kingside :=
    if has_kingside_castling_rights b (turn b)
    then Some (if turn b then e1g1 else e8g8) else None in
  let queenside :=
    if has_queenside_castling_rights b (turn b)
    then Some (if turn b then e1c1 else e8c8) else None in
  parse self "O-O" = Val kingside /\
  parse self "0-0" = Val kingside /\
  parse self "O-O-O" = Val queenside /\
  parse self "0-0-0" = Val queenside.
Proof.
  unfold parse, _parse_castling_kingside, _parse_castling_queenside. simpl.
  destruct (turn b); repeat split;
    match goal with
    | |- context [if ?c then _ else _] => destruct c; reflexivity
    end.
Qed.

Lemma QUALIFIED_PIECES_inv (q piece side : string) :
  QUALIFIED_PIECES q = Some (piece, side) ->
  In (q, piece, side)
     [("QR", "R", "Q"); ("KR", "R", "K"); ("QN", "N", "Q"); ("KN", "N", "K");
      ("QB", "B", "Q"); ("KB", "B", "K")].
Proof.
  unfold QUALIFIED_PIECES.
  repeat match goal with
  | |- context [String.eqb ?a ?b] => destruct (String.eqb_spec a b) as [->|_]
  end; intros H; inversion H; subst; simpl; tauto.
Qed.

(** ** Generic captures *)

Lemma filter_none {A : Type} (p : A -> bool) (l : list A) :
  (forall x, In x l -> p x = false) -> filter p l = [].
Proof.
  induction l as [|a l IH]; intros H; simpl.
  - reflexivity.
  - rewrite (H a (or_introl eq_refl)). apply IH. intros x Hx. apply H. right. exact Hx.
Qed.

Lemma filter_head {A : Type} (p : A -> bool) (l : list A) (m : A) (rest : list A) :
  filter p l = m :: rest -> In m l /\ p m = true.
Proof.
  intros H. apply filter_In. rewrite H. left. reflexivity.
Qed.

(** What [_parse_generic_capture] returns is a legal move of a piece of the
    named kind and of the side to move onto an occupied square, and the
    piece there has the kind of the captured letter when one is given. *)
Lemma generic_capture_sound (self : Parser) (piece_char : string)
    (captured_type : option string) (m : Move) :
  _parse_generic_capture self piece_char captured_type = Some m ->
  In m (legal_moves (board self)) /\
  (exists kind, piece_map piece_char = Some kind /\ origin_matches self kind m = true) /\
  (exists captured, piece_at (board self) (to_square m) = Some captured /\
     forall t kind, captured_type = Some t -> piece_map t = Some kind ->
                    piece_type captured = kind).
Proof.
  unfold _parse_generic_capture.
  destruct (piece_map piece_char) as [kind|]; [|discriminate].
  match goal with
  | |- context [filter ?p ?l] => destruct (filter p l) as [|first rest] eqn:E
  end; [discriminate|].
  intros H. inversion H; subst first. clear H.
  apply filter_head in E. destruct E as [Hin Hp].
  apply andb_true_iff in Hp. destruct Hp as [Ho Hc].
  split; [exact Hin|]. split; [exists kind; auto|].
  destruct (piece_at (board self) (to_square m)) as [captured|]; [|discriminate].
  exists captured. split; [reflexivity|].
  intros t k -> Hk. rewrite Hk in Hc. apply Z.eqb_eq in Hc. exact Hc.
Qed.

Lemma generic_capture_none (self : Parser) (piece_char : string)
    (captured_type : option string) (kind : PieceType) :
  piece_map piece_char = Some kind ->
  (forall move, In move (legal_moves (board self)) ->
                origin_matches self kind move = true ->
                piece_at (board self) (to_square move) = None) ->
  _parse_generic_capture self piece_char captured_type = None.
Proof.
  intros Hk H. unfold _parse_generic_capture. rewrite Hk.
  rewrite filter_none; [reflexivity|].
  intros x Hx. destruct (origin_matches self kind x) eqn:E; [|reflexivity].
  rewrite (H x Hx E). reflexivity.
Qed.

Section QualifiedCaptureForms.

Local Opaque _parse_qualified_capture.

(** A qualified piece, a capture mark and at most the letter P: the
    notation goes to [_parse_qualified_capture], which is not told the
    letter. *)
Lemma parse_qualified_capture_form (self : Parser) (q piece side captured : string) :
  QUALIFIED_PIECES q = Some (piece, side) -> In captured ["P"; ""] ->
  parse self (q ++ "x" ++ captured) =
  Val (_parse_qualified_capture self piece side).
Proof.
  intros Hq Hc. apply QUALIFIED_PIECES_inv in Hq. destruct self as [b w].
  cases_of_In; lazy; reflexivity.
Qed.

End QualifiedCaptureForms.

(** C4, at the failing input.  The rook on a1 can take the knight on a5
    and no pawn can be taken.  [QRxP] names a pawn as the captured piece;
    the qualified parser hands the notation to [_parse_qualified_capture],
    which has no parameter for the captured letter, and the answer is the
    capture of the knight.  The plain form [RxP] fails on the same board.
    On every board a qualified piece that takes a pawn is parsed as the
    same piece that takes anything. *)
Theorem qualified_capture_ignores_captured_letter :
  let self := __init__ Positions.rook_takes_knight in
  parse self "QRxP" = Val (Some (Positions.from_uci "a1a5")) /\
  piece_at Positions.rook_takes_knight (to_square (Positions.from_uci "a1a5")) =
    Some (mkPiece KNIGHT BLACK) /\
  parse self "RxP" = Val None /\
  Forall (fun q => forall any : Parser, parse any (q ++ "xP") = parse any (q ++ "x"))
         ["QR"; "KR"; "QN"; "KN"; "QB"; "KB"].
Proof.
  split; [vm_compute; reflexivity|].
  split; [vm_compute; reflexivity|].
  split; [vm_compute; reflexivity|].
  repeat constructor; intros any;
    match goal with
    | |- parse _ (?q ++ _) = _ =>
        destruct (QUALIFIED_PIECES q) as [[piece side]|] eqn:E;
          [|vm_compute in E; discriminate E];
        rewrite (parse_qualified_capture_form any q piece side "P" E
                   ltac:(simpl; tauto));
        rewrite (parse_qualified_capture_form any q piece side "" E
                   ltac:(simpl; tauto));
        reflexivity
    end.
Qed.

Section GenericCaptureForms.

Local Opaque _parse_generic_capture.

(** A piece letter, a capture mark and at most a captured letter: the
    notation goes to [_parse_generic_capture], with or without an en
    passant annotation behind it. *)
Lemma parse_generic_capture_form (self : Parser) (L : string) (kind : PieceType)
    (captured : string) :
  In (L, kind) piece_letters -> In captured ["P"; "N"; "B"; "R"; "Q"; ""] ->
  let captured_type := if String.eqb captured "" then None else Some captured in
  parse self (L ++ "x" ++ captured) =
    Val (_parse_generic_capture self L captured_type) /\
  parse self (L ++ "x" ++ captured ++ " e.p.") =
    Val (_parse_generic_capture self L captured_type).
Proof.
  intros HL Hc. destruct self as [b w].
  cases_of_In; split; lazy; reflexivity.
Qed.

End GenericCaptureForms.

(** C10.  When every legal move of a piece of the named kind of the side
    to move lands on an empty square, so that the only capture such a piece
    has is an en passant capture, the generic captures of that kind
    ([PxP], [PxN], ..., bare [Px]) fail, with or without the annotation
    [e.p.]: the filter asks for a piece on the destination square, and the
    pawn taken en passant does not stand there. *)
Theorem en_passant_generic_capture_fails (self : Parser) (L : string)
    (kind : PieceType) (captured : string) :
  In (L, kind) piece_letters ->
  In captured ["P"; "N"; "B"; "R"; "Q"; ""] ->
  (forall move, In move (legal_moves (board self)) ->
                origin_matches self kind move = true ->
                piece_at (board self) (to_square move) = None) ->
  parse self (L ++ "x" ++ captured) = Val None /\
  parse self (L ++ "x" ++ captured ++ " e.p.") = Val None.
Proof.
  intros HL Hc H.
  destruct (parse_generic_capture_form self L kind captured HL Hc) as [E1 E2].
  rewrite E1, E2.
  rewrite (generic_capture_none self L _ kind); [split; reflexivity | | exact H].
  cases_of_In; reflexivity.
Qed.

Lemma en_passant_generic_capture_fails_witness :
  parse (__init__ Positions.en_passant_only) "PxP" = Val None /\
  parse (__init__ Positions.en_passant_only) "PxP e.p." = Val None.
Proof.
  apply (en_passant_generic_capture_fails (__init__ Positions.en_passant_only)
           "P" PAWN "P").
  - simpl. tauto.
  - simpl. tauto.
  - intros move Hin. simpl in Hin.
    repeat destruct Hin as [<-|Hin]; try (destruct Hin);
      vm_compute; intros E; try discriminate E; reflexivity.
Defined.

(** ** Promotion *)

Lemma promo_map_inv (letter : string) (kind : PieceType) :
  promo_map letter = Some kind ->
  In (letter, kind) [("Q", 5); ("R", 4); ("B", 3); ("N", 2)].
Proof.
  unfold promo_map.
  repeat match goal with
  | |- context [String.eqb ?a ?b] => destruct (String.eqb_spec a b) as [->|_]
  end; intros H; inversion H; subst; simpl; tauto.
Qed.

(** The test of the loop of [_parse_promotion] for the square [target] and
    the promotion kind [kind]. *)
Lemma parse_promotion_form (self : Parser) (tok : string) (f : ascii) (r : Z)
    (letter : string) (kind : PieceType) :
  FILE_MAP tok = Some f -> 1 <= r <= 8 -> promo_map letter = Some kind ->
  parse self ("P-" ++ tok ++ str r ++ "(" ++ letter ++ ")") =
  Val (find (fun move =>
               (to_square move =?
                  _file_rank_to_square f (_descriptive_rank_to_standard self r)) &&
               truthy_int (promotion move) &&
               option_Z_eqb (promotion move) (Some kind))
            (legal_moves (board self))).
Proof.
  intros Hf Hr Hk.
  apply FILE_MAP_inv in Hf. apply rank_digit_inv in Hr. apply promo_map_inv in Hk.
  destruct self as [b w].
  cases_of_In; destruct w; lazy; reflexivity.
Qed.

Lemma option_Z_eqb_Some (o : option Z) (k : Z) :
  option_Z_eqb o (Some k) = true <-> o = Some k.
Proof.
  destruct o as [x|]; simpl.
  - rewrite Z.eqb_eq. split; [intros ->; reflexivity | intros H; inversion H; reflexivity].
  - split; discriminate.
Qed.

(** C6.  For a file name, a rank digit and a promotion letter among Q, R, B
    and N, the notation [P-<file><rank>(<letter>)] resolves the file and
    the rank to a square, and the answer is a legal move to that square
    that promotes to the kind of the letter; the parse fails exactly when
    the board has no such legal move. *)
Theorem promotion_resolves (self : Parser) (tok : string) (f : ascii) (r : Z)
    (letter : string) (kind : PieceType) :
  FILE_MAP tok = Some f -> 1 <= r <= 8 -> promo_map letter = Some kind ->
  let target := _file_rank_to_square f (_descriptive_rank_to_standard self r) in
  exists answer,
    parse self ("P-" ++ tok ++ str r ++ "(" ++ letter ++ ")") = Val answer /\
    (forall m, answer = Some m ->
       In m (legal_moves (board self)) /\ to_square m = target /\
       promotion m = Some kind) /\
    (answer = None <->
       forall m, In m (legal_moves (board self)) -> to_square m = target ->
                 promotion m <> Some kind).
Proof.
  intros Hf Hr Hk target.
  rewrite (parse_promotion_form self tok f r letter kind Hf Hr Hk).
  fold target.
  set (p := fun move : Move =>
              (to_square move =? target) && truthy_int (promotion move) &&
              option_Z_eqb (promotion move) (Some kind)).
  assert (Hp : forall m, p m = true <-> to_square m = target /\ promotion m = Some kind).
  { intros m. unfold p. rewrite !andb_true_iff, Z.eqb_eq, option_Z_eqb_Some.
    split; [tauto|]. intros [H1 H2]. repeat split; trivial.
    rewrite H2. apply promo_map_inv in Hk. cases_of_In; reflexivity. }
  exists (find p (legal_moves (board self))). split; [reflexivity|]. split.
  - intros m Hm. apply find_some in Hm. destruct Hm as [Hin Hm].
    apply Hp in Hm. tauto.
  - split.
    + intros Hnone m Hin Ht Hpr.
      pose proof (find_none p _ Hnone m Hin) as Hfalse.
      assert (p m = true) by (apply Hp; tauto). congruence.
    + intros Hall. destruct (find p (legal_moves (board self))) as [m|] eqn:E;
        [|reflexivity].
      apply find_some in E. destruct E as [Hin Hm]. apply Hp in Hm.
      destruct Hm as [Ht Hpr]. exfalso. exact (Hall m Hin Ht Hpr).
Qed.

Lemma promotion_resolves_witness :
  exists answer,
    parse (__init__ Positions.pawn_on_seventh) "P-K8(Q)" = Val answer /\
    (forall m, answer = Some m ->
       In m (legal_moves Positions.pawn_on_seventh) /\ to_square m = 60 /\
       promotion m = Some QUEEN) /\
    (answer = None <->
       forall m, In m (legal_moves Positions.pawn_on_seventh) -> to_square m = 60 ->
                 promotion m <> Some QUEEN).
Proof.
  apply (promotion_resolves (__init__ Positions.pawn_on_seventh) "K" "e" 8 "Q" QUEEN).
  - reflexivity.
  - lia.
  - reflexivity.
Defined.

(** ** What a parse depends on *)

Lemma find_ext {A : Type} (p q : A -> bool) (l : list A) :
  (forall x, p x = q x) -> find p l = find q l.
Proof.
  intros H. induction l as [|a l IH]; simpl; [reflexivity|].
  rewrite H, IH. reflexivity.
Qed.

Section Answers.

Variables (b1 b2 : Board) (w : bool).
Hypothesis same : same_answers b1 b2.

Let self1 := mkParser b1 w.
Let self2 := mkParser b2 w.

Lemma legal_moves_same : legal_moves (board self1) = legal_moves (board self2).
Proof. apply same. Qed.

Lemma piece_at_same (sq : Square) :
  piece_at (board self1) sq = piece_at (board self2) sq.
Proof. apply same. Qed.

Lemma origin_matches_same (k : PieceType) (m : Move) :
  origin_matches self1 k m = origin_matches self2 k m.
Proof.
  unfold origin_matches. rewrite piece_at_same.
  replace (turn (board self1)) with (turn (board self2)) by (symmetry; apply same).
  reflexivity.
Qed.

Lemma occupied_same (sq : Square) : occupied self1 sq = occupied self2 sq.
Proof. unfold occupied. rewrite piece_at_same. reflexivity. Qed.

Lemma moves_to_same (k : PieceType) (sq : Square) :
  moves_to self1 k sq = moves_to self2 k sq.
Proof.
  unfold moves_to. rewrite legal_moves_same.
  apply filter_ext. intros m. rewrite origin_matches_same. reflexivity.
Qed.

Lemma choose_candidate_same (c : bool) (l : list Move) :
  choose_candidate self1 c l = choose_candidate self2 c l.
Proof.
  unfold choose_candidate.
  rewrite (find_ext (fun move => occupied self1 (to_square move))
                    (fun move => occupied self2 (to_square move)));
    [reflexivity | intros; apply occupied_same].
Qed.

Lemma moves_to_ambiguous_same (k : PieceType) (a : string) (r : Z) :
  moves_to_ambiguous self1 k a r = moves_to_ambiguous self2 k a r.
Proof.
  unfold moves_to_ambiguous. apply flat_map_ext. intros; apply moves_to_same.
Qed.

Lemma rank_same (r : Z) :
  _descriptive_rank_to_standard self1 r = _descriptive_rank_to_standard self2 r.
Proof. reflexivity. Qed.

Lemma generic_capture_same (p : string) (c : option string) :
  _parse_generic_capture self1 p c = _parse_generic_capture self2 p c.
Proof.
  unfold _parse_generic_capture.
  destruct (piece_map p); [|reflexivity].
  rewrite legal_moves_same.
  match goal with
  | |- match filter ?f _ with _ => _ end = match filter ?g _ with _ => _ end =>
      rewrite (filter_ext f g)
  end; [reflexivity|].
  intros m. rewrite origin_matches_same, piece_at_same. reflexivity.
Qed.

Lemma qualified_capture_same (p c : string) :
  _parse_qualified_capture self1 p c = _parse_qualified_capture self2 p c.
Proof.
  unfold _parse_qualified_capture.
  destruct (piece_map p); [|reflexivity].
  rewrite legal_moves_same.
  match goal with
  | |- choose_qualified _ (filter ?f _) = choose_qualified _ (filter ?g _) =>
      rewrite (filter_ext f g)
  end; [reflexivity|].
  intros m. rewrite origin_matches_same, occupied_same. reflexivity.
Qed.

Lemma parse_piece_move_same (s : string) :
  _parse_piece_move self1 s = _parse_piece_move self2 s.
Proof.
  unfold _parse_piece_move.
  destruct (index s 0); simpl; [|reflexivity].
  match goal with |- context [if ?c then _ else _] => destruct c end.
  - rewrite generic_capture_same. reflexivity.
  - destruct (scan_destination _) as [[[fd am] rk]|]; simpl; [|reflexivity].
    destruct fd, am, rk; try reflexivity; destruct (piece_map a); try reflexivity;
      rewrite ?rank_same, ?moves_to_ambiguous_same, ?choose_candidate_same;
      try reflexivity.
    all: destruct (_descriptive_file_to_standard _); try reflexivity;
      rewrite ?rank_same, ?moves_to_same, ?choose_candidate_same; reflexivity.
Qed.

Lemma parse_pawn_move_same (s : string) :
  _parse_pawn_move self1 s = _parse_pawn_move self2 s.
Proof.
  unfold _parse_pawn_move.
  match goal with |- context [if mem ?x ?l then _ else _] => destruct (mem x l) end.
  - rewrite generic_capture_same. reflexivity.
  - destruct (scan_destination _) as [[[fd am] rk]|]; simpl; [|reflexivity].
    destruct fd, am, rk; try reflexivity;
      rewrite ?rank_same, ?moves_to_ambiguous_same, ?choose_candidate_same;
      try reflexivity.
    all: destruct (_descriptive_file_to_standard _); try reflexivity;
      rewrite ?rank_same, ?moves_to_same, ?choose_candidate_same; reflexivity.
Qed.

Lemma qualified_candidates_same (k : PieceType) (squares : list Square) :
  filter (fun move => existsb (Z.eqb (to_square move)) squares &&
                      origin_matches self1 k move) (legal_moves (board self1)) =
  filter (fun move => existsb (Z.eqb (to_square move)) squares &&
                      origin_matches self2 k move) (legal_moves (board self2)).
Proof.
  rewrite legal_moves_same. apply filter_ext. intros m.
  rewrite origin_matches_same. reflexivity.
Qed.

Lemma parse_qualified_piece_move_same (s : string) :
  _parse_qualified_piece_move self1 s = _parse_qualified_piece_move self2 s.
Proof.
  unfold _parse_qualified_piece_move.
  destruct (QUALIFIED_PIECES _) as [[piece_char side]|]; [|reflexivity].
  match goal with |- context [if ?c then _ else _] => destruct c end.
  - rewrite qualified_capture_same. reflexivity.
  - destruct (scan_destination _) as [[[fd am] rk]|]; cbn [bind]; [|reflexivity].
    destruct fd, am, rk; try reflexivity; destruct (piece_map piece_char);
      try reflexivity; rewrite ?rank_same;
      match goal with
      | |- match ?l with _ => _ end = _ => destruct l; [reflexivity|]
      end; rewrite qualified_candidates_same; reflexivity.
Qed.

Lemma parse_promotion_same (s : string) :
  _parse_promotion self1 s = _parse_promotion self2 s.
Proof.
  unfold _parse_promotion. rewrite legal_moves_same. reflexivity.
Qed.

Lemma parse_same (s : string) : parse self1 s = parse self2 s.
Proof.
  unfold parse.
  rewrite parse_promotion_same, parse_qualified_piece_move_same.
  set (n := Annotation.sub (upper (strip s))).
  rewrite !parse_piece_move_same, !parse_pawn_move_same.
  replace (_parse_castling_kingside self1) with (_parse_castling_kingside self2).
  replace (_parse_castling_queenside self1) with (_parse_castling_queenside self2).
  - reflexivity.
  - unfold _parse_castling_queenside. simpl.
    destruct same as (_ & _ & _ & _ & Hq). rewrite !Hq. reflexivity.
  - unfold _parse_castling_kingside. simpl.
    destruct same as (_ & _ & _ & Hk & _). rewrite !Hk. reflexivity.
Qed.

End Answers.

Lemma self_at_assign (heap : Heap) (a : address) (b' : Board) :
  self_at (assign heap a b') (new heap a) = board_mutated (__init__ (heap a)) b'.
Proof.
  unfold self_at, assign, new, board_mutated. cbn [board_at copied_turn].
  rewrite Nat.eqb_refl. reflexivity.
Qed.

(** C8, as stated, at a concrete input.  The parser is built on the initial
    position; the owner of the board then plays 1. e4 on it, as the test
    script does between two calls.  At the call the board is the position
    after 1. e4 with Black to move, and a parser built at that moment
    references the same board: the two answer [P-K4] differently, the first
    still resolving the rank for White. *)
Lemma stale_side_to_move :
  let heap0 : Heap := fun _ => Positions.initial in
  let parser := new heap0 O in
  let heap1 := assign heap0 O Positions.after_e4 in
  board (self_at heap1 parser) = board (self_at heap1 (new heap1 O)) /\
  parse (self_at heap1 parser) "P-K4" = Val None /\
  parse (self_at heap1 (new heap1 O)) "P-K4" =
    Val (Some (Positions.from_uci "e7e5")) /\
  ~ (forall (self1 self2 : Parser) (notation : string),
       board self1 = board self2 -> parse self1 notation = parse self2 notation).
Proof.
  intros heap0 parser heap1.
  assert (E1 : parse (self_at heap1 parser) "P-K4" = Val None)
    by (vm_compute; reflexivity).
  assert (E2 : parse (self_at heap1 (new heap1 O)) "P-K4" =
               Val (Some (Positions.from_uci "e7e5")))
    by (vm_compute; reflexivity).
  split; [reflexivity|]. split; [exact E1|]. split; [exact E2|].
  intros H.
  specialize (H (self_at heap1 parser) (self_at heap1 (new heap1 O)) "P-K4" eq_refl).
  rewrite E1, E2 in H. discriminate H.
Qed.

(** What [parse] reads of a board: two parsers with the same flag on
    boards that give the same side to move, legal moves, placement and
    castling rights return the same result. *)
Theorem parse_function_of_answers_and_flag (b1 b2 : Board) (w : bool) (s : string) :
  same_answers b1 b2 ->
  parse (mkParser b1 w) s = parse (mkParser b2 w) s /\
  parse (__init__ b1) s = parse (__init__ b2) s.
Proof.
  intros H. split.
  - apply parse_same. exact H.
  - unfold __init__. replace (turn b1) with (turn b2) by (symmetry; apply H).
    apply parse_same. exact H.
Qed.

Lemma parse_function_of_answers_and_flag_witness :
  let b2 := {| turn := turn Positions.initial;
               legal_moves := legal_moves Positions.initial;
               piece_at := piece_at Positions.initial;
               has_kingside_castling_rights := fun _ => true;
               has_queenside_castling_rights := fun _ => true;
               is_castling := fun _ => false;
               is_kingside_castling := fun _ => false |} in
  same_answers Positions.initial b2 /\
  parse (mkParser Positions.initial BLACK) "P-K4" = parse (mkParser b2 BLACK) "P-K4" /\
  parse (__init__ Positions.initial) "P-K4" = parse (__init__ b2) "P-K4".
Proof.
  intros b2.
  assert (H : same_answers Positions.initial b2).
  { repeat split; intros c; destruct c; reflexivity. }
  split; [exact H|].
  apply (parse_function_of_answers_and_flag Positions.initial b2 BLACK "P-K4" H).
Defined.

Lemma self_at_new heap a : self_at heap (new heap a) = __init__ (heap a).
Proof. reflexivity. Qed.

Lemma assign_same (heap : Heap) (a : address) (b' : Board) : assign heap a b' a = b'.
Proof. unfold assign. rewrite Nat.eqb_refl. reflexivity. Qed.

(** C8, amended.  The parser copies the side to move when it is built and
    does not read it again.  Built on a board that was at [heap a] and
    called when the same board object has become [b']: a castling token is
    answered for the side copied at construction, with the right that the
    board grants that side at the call; a pawn step [P-<file><r>] is looked
    up on the rank counted from the side copied at construction, among the
    legal moves at the call of the pawns of the side to move at the call;
    when the side to move at the call is the side copied, every notation
    is answered as by a parser built at the call; when it is the other
    side and the board grants either side the kingside right, [O-O] is
    answered differently from a parser built at the call. *)
Theorem parse_reads_copied_flag (heap : Heap) (a : address) (b' : Board) :
  let stale := self_at (assign heap a b') (new heap a) in
  let fresh := self_at (assign heap a b') (new (assign heap a b') a) in
  let copied := turn (heap a) in
  (forall token, In token ["O-O"; "0-0"] ->
     parse stale token =
     Val (if has_kingside_castling_rights b' copied
          then Some (if copied then e1g1 else e8g8) else None)) /\
  (forall token, In token ["O-O-O"; "0-0-0"] ->
     parse stale token =
     Val (if has_queenside_castling_rights b' copied
          then Some (if copied then e1c1 else e8c8) else None)) /\
  (forall tok f r, FILE_MAP tok = Some f -> 1 <= r <= 8 ->
     parse stale ("P-" ++ tok ++ str r) =
     Val (choose_candidate fresh false
            (moves_to fresh PAWN
               ((if copied then r - 1 else 8 - r) * 8 + (ord f - ord "a"))))) /\
  (turn b' = copied -> forall notation, parse stale notation = parse fresh notation) /\
  (turn b' <> copied ->
   has_kingside_castling_rights b' WHITE = true \/
   has_kingside_castling_rights b' BLACK = true ->
   parse stale "O-O" <> parse fresh "O-O").
Proof.
  intros stale fresh copied.
  assert (Es : stale = mkParser b' copied).
  { unfold stale. rewrite self_at_assign. reflexivity. }
  assert (Ef : fresh = __init__ b').
  { unfold fresh. rewrite self_at_new, assign_same. reflexivity. }
  clearbody stale fresh. subst stale fresh.
  split; [| split; [| split; [| split]]].
  - intros token [<- | [<- | []]];
      change (Val (_parse_castling_kingside (mkParser b' copied)) =
              Val (if has_kingside_castling_rights b' copied
                   then Some (if copied then e1g1 else e8g8) else None));
      unfold _parse_castling_kingside; cbn [is_white_turn board];
      destruct copied; reflexivity.
  - intros token [<- | [<- | []]];
      change (Val (_parse_castling_queenside (mkParser b' copied)) =
              Val (if has_queenside_castling_rights b' copied
                   then Some (if copied then e1c1 else e8c8) else None));
      unfold _parse_castling_queenside; cbn [is_white_turn board];
      destruct copied; reflexivity.
  - intros tok f r Hf Hr.
    rewrite (parse_pawn_step (mkParser b' copied) tok f r Hf Hr). reflexivity.
  - intros E notation. unfold __init__. rewrite E. reflexivity.
  - intros N R.
    change (parse (mkParser b' copied) "O-O")
      with (Val (_parse_castling_kingside (mkParser b' copied))).
    change (parse (__init__ b') "O-O")
      with (Val (_parse_castling_kingside (__init__ b'))).
    unfold _parse_castling_kingside, __init__, WHITE, BLACK in *.
    cbn [is_white_turn board].
    destruct (turn b'), copied; try congruence;
      destruct (has_kingside_castling_rights b' true),
               (has_kingside_castling_rights b' false);
      try discriminate; destruct R; discriminate.
Qed.

(** ** Disambiguation *)

Section DestinationForms.

Local Opaque choose_candidate moves_to moves_to_ambiguous choose_qualified.

(** A piece letter, a mark, a destination: the plain-piece parser, or the
    pawn parser for the letter P, chooses among [candidates]. *)
Lemma parse_piece_destination (self : Parser) (L : string) (kind : PieceType)
    (sep tok : string) (r : Z) :
  In (L, kind) piece_letters -> In sep ["-"; "x"] -> In tok file_tokens ->
  1 <= r <= 8 ->
  parse self (L ++ sep ++ tok ++ str r) =
  Val (choose_candidate self (String.eqb sep "x") (candidates self kind tok r)).
Proof.
  intros HL Hs Ht Hr. apply rank_digit_inv in Hr.
  destruct self as [b w].
  cases_of_In; destruct w; lazy; reflexivity.
Qed.

(** A qualified piece, a mark, a destination: the qualified parser chooses
    among [qualified_candidates]. *)
Lemma parse_qualified_destination (self : Parser) (q piece side : string)
    (kind : PieceType) (sep tok : string) (r : Z) :
  QUALIFIED_PIECES q = Some (piece, side) -> piece_map piece = Some kind ->
  In sep ["-"; "x"] -> In tok file_tokens -> 1 <= r <= 8 ->
  parse self (q ++ sep ++ tok ++ str r) =
  Val (choose_qualified side (qualified_candidates self kind tok r)).
Proof.
  intros Hq Hk Hs Ht Hr. apply rank_digit_inv in Hr. apply QUALIFIED_PIECES_inv in Hq.
  destruct self as [b w].
  cases_of_In; cbv in Hk; inversion Hk; subst kind; destruct w; lazy; reflexivity.
Qed.

End DestinationForms.

Lemma find_first_satisfying {A : Type} (p : A -> bool) (l : list A) (m : A) :
  find p l = Some m -> first_satisfying p l m.
Proof.
  induction l as [|a l IH]; simpl; [discriminate|].
  destruct (p a) eqn:E.
  - intros H. inversion H; subst a. exists [], l. repeat split; trivial.
  - intros H. destruct (IH H) as (before & after & Hl & Hm & Hb).
    exists (a :: before), after. subst l. repeat split; trivial.
    constructor; assumption.
Qed.

Lemma find_none_Forall {A : Type} (p : A -> bool) (l : list A) :
  find p l = None -> Forall (fun x => p x = false) l.
Proof.
  intros H. apply Forall_forall. intros x Hx. exact (find_none p l H x Hx).
Qed.

Lemma first_satisfying_only {A : Type} (p : A -> bool) (l : list A) (m only : A) :
  first_satisfying p l m -> filter p l = [only] -> m = only.
Proof.
  intros (before & after & -> & Hm & Hb) H.
  rewrite filter_app in H. simpl in H. rewrite Hm in H.
  rewrite (filter_none p before) in H.
  - simpl in H. inversion H. reflexivity.
  - intros x Hx. rewrite Forall_forall in Hb. exact (Hb x Hx).
Qed.

Lemma choose_qualified_several (side : string) (l : list Move) :
  (2 <= List.length l)%nat ->
  exists m, choose_qualified side l = Some m /\
    (first_satisfying (on_side side) l m \/
     (Forall (fun x => on_side side x = false) l /\ hd_error l = Some m)).
Proof.
  destruct l as [|m1 [|m2 rest]]; simpl List.length; try lia. intros _.
  unfold choose_qualified.
  destruct (find (on_side side) (m1 :: m2 :: rest)) as [m|] eqn:E.
  - exists m. split; [reflexivity|]. left. apply find_first_satisfying. exact E.
  - exists m1. split; [reflexivity|]. right. split; [|reflexivity].
    apply find_none_Forall. exact E.
Qed.

Lemma choose_candidate_several (self : Parser) (is_capture : bool) (l : list Move) :
  (2 <= List.length l)%nat ->
  exists m, choose_candidate self is_capture l = Some m /\
    if is_capture
    then first_satisfying (fun move => occupied self (to_square move)) l m \/
         (Forall (fun x => occupied self (to_square x) = false) l /\
          hd_error l = Some m)
    else hd_error l = Some m.
Proof.
  destruct l as [|m1 [|m2 rest]]; simpl List.length; try lia. intros _.
  unfold choose_candidate. destruct is_capture.
  - destruct (find _ (m1 :: m2 :: rest)) as [m|] eqn:E.
    + exists m. split; [reflexivity|]. left. apply find_first_satisfying. exact E.
    + exists m1. split; [reflexivity|]. right. split; [|reflexivity].
      apply (find_none_Forall (fun move => occupied self (to_square move))). exact E.
  - exists m1. split; reflexivity.
Qed.

(** C3, at the failing input.  White has rooks on e5 and h1 and Black a
    pawn on a5.  [KRxR5] has three candidates, e5h5, e5a5 and h1h5 in the
    order of the oracle, all three from the kingside, so the qualifier does
    not single one out.  The notation has a capture mark and e5a5 is the
    only candidate that lands on a piece: the order of the specification
    gives e5a5, the parser answers e5h5, onto an empty square.
    [_parse_qualified_piece_move] computes [is_capture] and never reads
    it: on every board a qualified piece move with [x] is answered as the
    same notation with [-].  The plain-piece and pawn parsers apply the
    preference: with [x] and several candidates they answer a candidate
    that lands on a piece whenever there is one, as [RxR5] shows on the
    same board.  Their candidates for an abbreviated file letter are
    collected file by file, the queenside square first, so the first
    candidate is not the first in the order of the oracle: on the initial
    position [N-B3] is b1c3, and g1f3 comes first in the oracle. *)
Theorem qualified_parse_drops_capture_preference :
  let self := __init__ Positions.two_rooks in
  let cands := qualified_candidates self ROOK "R" 5 in
  cands = map Positions.from_uci ["e5h5"; "e5a5"; "h1h5"] /\
  filter (on_side "K") cands = cands /\
  disambiguate_as_specified self (Some "K") true cands =
    Some (Positions.from_uci "e5a5") /\
  parse self "KRxR5" = Val (Some (Positions.from_uci "e5h5")) /\
  occupied self (to_square (Positions.from_uci "e5h5")) = false /\
  parse self "RxR5" = Val (Some (Positions.from_uci "e5a5")) /\
  (forall (any : Parser) (q piece side : string) (kind : PieceType) (tok : string) (r : Z),
     QUALIFIED_PIECES q = Some (piece, side) -> piece_map piece = Some kind ->
     In tok file_tokens -> 1 <= r <= 8 ->
     parse any (q ++ "x" ++ tok ++ str r) = parse any (q ++ "-" ++ tok ++ str r)) /\
  (forall (any : Parser) (L : string) (kind : PieceType) (tok : string) (r : Z)
          (capture : Move),
     In (L, kind) piece_letters -> In tok file_tokens -> 1 <= r <= 8 ->
     (2 <= List.length (candidates any kind tok r))%nat ->
     In capture (candidates any kind tok r) ->
     occupied any (to_square capture) = true ->
     exists m, parse any (L ++ "x" ++ tok ++ str r) = Val (Some m) /\
               occupied any (to_square m) = true) /\
  (let start := __init__ Positions.initial in
   qualified_candidates start KNIGHT "B" 3 = map Positions.from_uci ["g1f3"; "b1c3"] /\
   candidates start KNIGHT "B" 3 = map Positions.from_uci ["b1c3"; "g1f3"] /\
   parse start "N-B3" = Val (Some (Positions.from_uci "b1c3"))).
Proof.
  intros self cands.
  split; [vm_compute; reflexivity |].
  split; [vm_compute; reflexivity |].
  split; [vm_compute; reflexivity |].
  split; [vm_compute; reflexivity |].
  split; [vm_compute; reflexivity |].
  split; [vm_compute; reflexivity |].
  split.
  - intros any q piece side kind tok r Hq Hk Ht Hr.
    rewrite (parse_qualified_destination any q piece side kind "x" tok r Hq Hk
               ltac:(simpl; tauto) Ht Hr).
    rewrite (parse_qualified_destination any q piece side kind "-" tok r Hq Hk
               ltac:(simpl; tauto) Ht Hr).
    reflexivity.
  - split; [| intros start; split; [| split]; vm_compute; reflexivity].
    intros any L kind tok r capture HL Ht Hr Hlen Hin Hocc.
    rewrite (parse_piece_destination any L kind "x" tok r HL ltac:(simpl; tauto) Ht Hr).
    change (String.eqb "x" "x") with true.
    destruct (choose_candidate_several any true (candidates any kind tok r) Hlen)
      as (m & Hm & [Hfirst | [Hnone _]]).
    + exists m. split; [rewrite Hm; reflexivity |].
      destruct Hfirst as (before & after & _ & Hland & _). exact Hland.
    + rewrite Forall_forall in Hnone. rewrite (Hnone capture Hin) in Hocc.
      discriminate Hocc.
Qed.

(** The disambiguation as each parser does it, whenever more than one
    candidate survives the filter.  A qualified-piece parse returns the
    first of [qualified_candidates], which are in the order of the oracle,
    whose origin file is on the side of the qualifier (files a-d for Q,
    e-h for K); this is the candidate the qualifier singles out when there
    is exactly one; when no candidate is on that side it returns the first
    candidate.  The capture mark plays no part there.  A plain-piece or
    pawn parse has no qualifier and chooses among [candidates]: in the
    order of the oracle for a full file name, and for an abbreviated file
    letter the moves to the queenside square, in the order of the oracle,
    before those to the kingside square.  With a capture mark it returns
    the first of them whose destination holds a piece, and the first when
    none does; without a capture mark it returns the first. *)
Theorem disambiguation_by_parser (self : Parser) (q piece side L sep tok : string)
    (kind kindL : PieceType) (r : Z) :
  QUALIFIED_PIECES q = Some (piece, side) -> piece_map piece = Some kind ->
  In (L, kindL) piece_letters -> In sep ["-"; "x"] -> In tok file_tokens ->
  1 <= r <= 8 ->
  let qc := qualified_candidates self kind tok r in
  let pc := candidates self kindL tok r in
  let lands := fun move => occupied self (to_square move) in
  ((2 <= List.length qc)%nat ->
     exists m, parse self (q ++ sep ++ tok ++ str r) = Val (Some m) /\
       (first_satisfying (on_side side) qc m \/
        (Forall (fun x => on_side side x = false) qc /\ hd_error qc = Some m)) /\
       (forall only, filter (on_side side) qc = [only] -> m = only)) /\
  ((2 <= List.length pc)%nat ->
     exists m, parse self (L ++ sep ++ tok ++ str r) = Val (Some m) /\
       if String.eqb sep "x"
       then first_satisfying lands pc m \/
            (Forall (fun x => lands x = false) pc /\ hd_error pc = Some m)
       else hd_error pc = Some m).
Proof.
  intros Hq Hk HL Hs Ht Hr qc pc lands. split.
  - intros Hlen.
    rewrite (parse_qualified_destination self q piece side kind sep tok r Hq Hk Hs Ht Hr).
    fold qc. destruct (choose_qualified_several side qc Hlen) as (m & Hm & Hsel).
    exists m. split; [rewrite Hm; reflexivity|]. split; [exact Hsel|].
    intros only Honly. destruct Hsel as [Hfirst | [Hnone _]].
    + exact (first_satisfying_only _ _ _ _ Hfirst Honly).
    + rewrite filter_none in Honly; [discriminate|].
      intros x Hx. rewrite Forall_forall in Hnone. exact (Hnone x Hx).
  - intros Hlen.
    rewrite (parse_piece_destination self L kindL sep tok r HL Hs Ht Hr).
    fold pc.
    destruct (choose_candidate_several self (String.eqb sep "x") pc Hlen)
      as (m & Hm & Hsel).
    exists m. split; [rewrite Hm; reflexivity | exact Hsel].
Qed.

Lemma disambiguation_by_parser_witness :
  (exists m, parse (__init__ Positions.two_rooks) "KRxR5" = Val (Some m) /\
             on_side "K" m = true) /\
  (exists m, parse (__init__ Positions.two_rooks) "RxR5" = Val (Some m) /\
             occupied (__init__ Positions.two_rooks) (to_square m) = true).
Proof.
  assert (Hr : 1 <= 5 <= 8) by lia.
  assert (Hl : In ("R", ROOK) piece_letters) by (simpl; tauto).
  assert (Hs : In "x" ["-"; "x"]) by (simpl; tauto).
  assert (Ht : In "R" file_tokens) by (simpl; tauto).
  destruct (disambiguation_by_parser (__init__ Positions.two_rooks)
              "KR" "R" "K" "R" "x" "R" ROOK ROOK 5
              eq_refl eq_refl Hl Hs Ht Hr) as [Hq Hp].
  split.
  - destruct Hq as (m & Hm & _); [vm_compute; lia|].
    exists m. split; [exact Hm|].
    vm_compute in Hm. inversion Hm. reflexivity.
  - destruct Hp as (m & Hm & _); [vm_compute; lia|].
    exists m. split; [exact Hm|].
    vm_compute in Hm. inversion Hm. reflexivity.
Defined.

(** ** Formatting and parsing back *)

(** The formatter's file name and rank of a square are a file name and a
    rank digit that the parser resolves to that square. *)
Lemma destination_inverse (w : bool) (b : Board) (sq : Square) :
  0 <= sq < 64 ->
  let rank_num := if w then sq / 8 + 1 else 8 - sq / 8 in
  exists tok f,
    MoveToDescriptive.FILE_NAMES (sq mod 8) = Val tok /\
    FILE_MAP tok = Some f /\
    In tok file_tokens /\
    1 <= rank_num <= 8 /\
    _file_rank_to_square f (_descriptive_rank_to_standard (mkParser b w) rank_num) = sq.
Proof.
  intros Hsq rank_num.
  pose proof (Z.div_mod sq 8 ltac:(lia)) as Hdm.
  pose proof (Z.mod_pos_bound sq 8 ltac:(lia)) as Hm.
  assert (Hd : 0 <= sq / 8 <= 7).
  { split; [apply Z.div_pos; lia | apply Z.lt_succ_r, Z.div_lt_upper_bound; lia]. }
  assert (Hr : 1 <= rank_num <= 8) by (subst rank_num; destruct w; lia).
  assert (Hstd : _descriptive_rank_to_standard (mkParser b w) rank_num = sq / 8).
  { unfold _descriptive_rank_to_standard; subst rank_num; cbn [is_white_turn]; destruct w; lia. }
  rewrite Hstd.
  assert (Hc : sq mod 8 = 0 \/ sq mod 8 = 1 \/ sq mod 8 = 2 \/ sq mod 8 = 3 \/
               sq mod 8 = 4 \/ sq mod 8 = 5 \/ sq mod 8 = 6 \/ sq mod 8 = 7) by lia.
  destruct Hc as [Hc|[Hc|[Hc|[Hc|[Hc|[Hc|[Hc|Hc]]]]]]]; rewrite Hc;
  [ exists "QR", "a"%char | exists "QN", "b"%char | exists "QB", "c"%char
  | exists "Q", "d"%char | exists "K", "e"%char | exists "KB", "f"%char
  | exists "KN", "g"%char | exists "KR", "h"%char ];
  (split; [reflexivity|]; split; [reflexivity|]; split; [simpl; tauto|];
   split; [exact Hr|]; unfold _file_rank_to_square; cbn; lia).
Qed.

(** Two destinations that the parser resolves to the same square are the
    same file name and the same rank digit. *)
Lemma resolution_injective (self : Parser) (tok tok' : string) (f f' : ascii)
    (r r' : Z) :
  FILE_MAP tok = Some f -> FILE_MAP tok' = Some f' ->
  1 <= r <= 8 -> 1 <= r' <= 8 ->
  _file_rank_to_square f' (_descriptive_rank_to_standard self r') =
  _file_rank_to_square f (_descriptive_rank_to_standard self r) ->
  tok' = tok /\ r' = r.
Proof.
  intros Hf Hf' Hr Hr'. apply FILE_MAP_inv in Hf. apply FILE_MAP_inv in Hf'.
  unfold _file_rank_to_square, _descriptive_rank_to_standard.
  destruct (is_white_turn self); cases_of_In;
    repeat match goal with
    | |- context [ord ?c] =>
        let v := eval vm_compute in (ord c) in change (ord c) with v
    end;
    intros E; first [ split; [reflexivity | lia] | exfalso; lia ].
Qed.

Lemma append_assoc (a b c : string) : (a ++ b) ++ c = a ++ (b ++ c).
Proof. induction a as [|x a IH]; simpl; [reflexivity | rewrite IH; reflexivity]. Qed.

Lemma append_nil_r (a : string) : a ++ "" = a.
Proof. induction a as [|x a IH]; simpl; [reflexivity | rewrite IH; reflexivity]. Qed.

Lemma choose_candidate_all_same (self : Parser) (c : bool) (l : list Move) (m : Move) :
  In m l -> (forall x, In x l -> x = m) -> choose_candidate self c l = Some m.
Proof.
  intros Hin Hall. unfold choose_candidate.
  destruct l as [|a [|a' rest]].
  - destruct Hin.
  - rewrite (Hall a (or_introl eq_refl)). reflexivity.
  - destruct c.
    + destruct (find _ _) as [x|] eqn:E.
      * apply find_some in E. rewrite (Hall x (proj1 E)). reflexivity.
      * rewrite (Hall a (or_introl eq_refl)). reflexivity.
    + rewrite (Hall a (or_introl eq_refl)). reflexivity.
Qed.

Lemma find_unique {A : Type} (p : A -> bool) (l : list A) (m : A) :
  In m l -> p m = true -> (forall x, In x l -> p x = true -> x = m) ->
  find p l = Some m.
Proof.
  intros Hin Hp Hall. destruct (find p l) as [x|] eqn:E.
  - apply find_some in E. rewrite (Hall x (proj1 E) (proj2 E)). reflexivity.
  - rewrite (find_none p l E m Hin) in Hp. discriminate.
Qed.

Lemma parse_castling_tokens (b : Board) :
  let self := __init__ b in
  parse self "O-O" = Val (_parse_castling_kingside self) /\
  parse self "0-0" = Val (_parse_castling_kingside self) /\
  parse self "O-O-O" = Val (_parse_castling_queenside self) /\
  parse self "0-0-0" = Val (_parse_castling_queenside self).
Proof. repeat split. Qed.

(** C7, amended.  The file name and the rank digit that the formatter
    computes for a destination square are a file name and a digit that the
    parser, for the same side to move, resolves to that square.  For a
    legal move of a piece of the side to move that is not a capture by a
    pawn and that has an unambiguous single origin, the formatter writes
    the piece letter, [-] or [x], that file name and that digit, and the
    promotion letter in parentheses when there is one, and parsing that
    text gives the move back; a castling move is written [O-O] or [O-O-O]
    and parses back to itself.  Captures by a pawn, which the formatter
    prefixes with the file of the origin, are left out. *)
Theorem format_then_parse (b : Board) (m : Move) (piece : Piece) :
  In m (legal_moves b) ->
  piece_at b (from_square m) = Some piece ->
  color piece = turn b ->
  1 <= piece_type piece <= 6 ->
  0 <= to_square m < 64 ->
  castling_coherent b m ->
  promotion_coherent m piece ->
  (piece_type piece = PAWN -> piece_at b (to_square m) = None) ->
  unambiguous b m piece ->
  exists text,
    MoveToDescriptive.convert b m = Val text /\
    parse (__init__ b) text = Val (Some m) /\
    (is_castling b m = false ->
     exists tok f r,
       FILE_MAP tok = Some f /\ 1 <= r <= 8 /\
       _file_rank_to_square f (_descriptive_rank_to_standard (__init__ b) r) =
         to_square m /\
       text = move_text (MoveToDescriptive.PIECE_LETTERS (piece_type piece))
                (if occupied (__init__ b) (to_square m) then "x" else "-")
                tok r (promotion m) /\
       forall tok' f' r',
         FILE_MAP tok' = Some f' -> 1 <= r' <= 8 ->
         _file_rank_to_square f' (_descriptive_rank_to_standard (__init__ b) r') =
           to_square m ->
         tok' = tok /\ r' = r).
Proof.
  intros Hin Hpiece Hcol Hkind Hto Hcastle Hpromo Hnopc Hun.
  destruct (is_castling b m) eqn:Hc.
  - (* castling *)
    unfold MoveToDescriptive.convert. rewrite Hc.
    specialize (Hcastle Hc).
    destruct (parse_castling_tokens b) as (Hk & _ & Hq & _).
    destruct (is_kingside_castling b m).
    + exists "O-O". split; [reflexivity|]. split; [|discriminate].
      rewrite Hk. destruct Hcastle as [Hr ->].
      unfold _parse_castling_kingside, __init__; cbn [is_white_turn board].
      destruct (turn b); rewrite Hr; reflexivity.
    + exists "O-O-O". split; [reflexivity|]. split; [|discriminate].
      rewrite Hq. destruct Hcastle as [Hr ->].
      unfold _parse_castling_queenside, __init__; cbn [is_white_turn board].
      destruct (turn b); rewrite Hr; reflexivity.
  - destruct (destination_inverse (turn b) b (to_square m) Hto)
      as (tok & f & HF & HM & Ht & Hr & Hsq).
    set (r := if turn b then to_square m / 8 + 1 else 8 - to_square m / 8) in *.
    set (mark := if occupied (__init__ b) (to_square m) then "x" else "-").
    set (L := MoveToDescriptive.PIECE_LETTERS (piece_type piece)).
    assert (Hconv : MoveToDescriptive.convert b m = Val (move_text L mark tok r (promotion m))).
    { unfold MoveToDescriptive.convert. rewrite Hc, Hpiece, Hcol. fold r.
      rewrite HF. cbn [bind]. fold L.
      unfold move_text, mark, occupied, __init__; cbn [board].
      destruct (piece_at b (to_square m)) as [cap|] eqn:Hcap.
      - destruct (piece_type piece =? 1) eqn:Hp.
        + apply Z.eqb_eq in Hp. specialize (Hnopc Hp). discriminate.
        + cbn [bind]. unfold promotion_coherent in Hpromo.
          destruct (promotion m) as [p|].
          * destruct Hpromo as [Hpp _]. apply Z.eqb_neq in Hp. contradiction.
          * rewrite append_nil_r. reflexivity.
      - cbn [bind]. unfold promotion_coherent in Hpromo.
        destruct (promotion m) as [p|].
        + destruct Hpromo as [_ Hp]. replace (p =? 0) with false by (symmetry; apply Z.eqb_neq; lia).
          rewrite !append_assoc. reflexivity.
        + rewrite append_nil_r. reflexivity. }
    exists (move_text L mark tok r (promotion m)).
    split; [exact Hconv|]. split.
    + change (mkParser b (turn b)) with (__init__ b) in Hsq.
      unfold promotion_coherent in Hpromo.
      destruct (promotion m) as [p|] eqn:Hp.
      * (* a promotion: the promotion parser *)
        destruct Hpromo as [Hpawn Hrange].
        assert (Hempty : piece_at b (to_square m) = None) by (apply Hnopc; exact Hpawn).
        assert (HL : L = "P") by (unfold L; rewrite Hpawn; reflexivity).
        assert (Hmark : mark = "-")
          by (unfold mark, occupied, __init__; cbn [board]; rewrite Hempty; reflexivity).
        rewrite HL, Hmark. unfold move_text.
        assert (Hletter : promo_map (MoveToDescriptive.PIECE_LETTERS p) = Some p).
        { assert (Hcases : p = 2 \/ p = 3 \/ p = 4 \/ p = 5) by lia.
          destruct Hcases as [-> | [-> | [-> | ->]]]; reflexivity. }
        change ("P" ++ "-" ++ tok ++ str r ++ "(" ++ MoveToDescriptive.PIECE_LETTERS p ++ ")")
          with ("P-" ++ tok ++ str r ++ "(" ++ MoveToDescriptive.PIECE_LETTERS p ++ ")").
        rewrite (parse_promotion_form (__init__ b) tok f r _ p HM Hr Hletter).
        rewrite Hsq. f_equal.
        apply find_unique.
        -- exact Hin.
        -- rewrite Z.eqb_refl, Hp. simpl.
           replace (p =? 0) with false by (symmetry; apply Z.eqb_neq; lia).
           rewrite Z.eqb_refl. reflexivity.
        -- intros x Hx Hpx. rewrite !andb_true_iff in Hpx.
           destruct Hpx as [[Hxt _] Hxp].
           apply Z.eqb_eq in Hxt. apply option_Z_eqb_Some in Hxp.
           apply (Hun x Hx Hxt). rewrite Hp. exact Hxp.
      * (* no promotion: the piece or pawn parser *)
        unfold move_text. rewrite append_nil_r.
        assert (HLk : In (L, piece_type piece) piece_letters).
        { unfold L. 
          assert (Hcases : piece_type piece = 1 \/ piece_type piece = 2 \/
                           piece_type piece = 3 \/ piece_type piece = 4 \/
                           piece_type piece = 5 \/ piece_type piece = 6) by lia.
          destruct Hcases as [->|[->|[-> | [-> | [-> | ->]]]]]; simpl; tauto. }
        assert (Hmk : In mark ["-"; "x"]) by (unfold mark; destruct (occupied _ _); simpl; tauto).
        rewrite (parse_piece_destination (__init__ b) L (piece_type piece) mark tok r HLk Hmk Ht Hr).
        f_equal. unfold candidates. rewrite HM, Hsq.
        assert (Hom : origin_matches (__init__ b) (piece_type piece) m = true).
        { unfold origin_matches, __init__; cbn [board]. rewrite Hpiece, Hcol, Z.eqb_refl.
          destruct (turn b); reflexivity. }
        apply choose_candidate_all_same.
        -- apply filter_In. split; [exact Hin|]. rewrite Z.eqb_refl, Hom. reflexivity.
        -- intros x Hx. apply filter_In in Hx. destruct Hx as [Hx Hpx].
           apply andb_true_iff in Hpx. destruct Hpx as [Hxt Hxo].
           apply Z.eqb_eq in Hxt. apply (Hun x Hx Hxt). rewrite Hp. exact Hxo.
    + intros _. exists tok, f, r.
      split; [exact HM|]. split; [exact Hr|]. split; [exact Hsq|].
      split; [reflexivity|].
      intros tok' f' r' HM' Hr' Hsq'.
      apply (resolution_injective (__init__ b) tok tok' f f' r r' HM HM' Hr Hr').
      rewrite Hsq'. symmetry. exact Hsq.
Qed.

(** C7, as stated, at a concrete input.  The pawn on e4 takes on d5 and no
    other legal move goes to d5.  The formatter writes [KPxQ5], the file of
    the origin first; the parser reads the leading [K] as the file of the
    destination, looks for a pawn move to e5, and answers e4e5. *)
Lemma pawn_capture_not_reparsed :
  let b := Positions.pawn_takes in
  let m := Positions.from_uci "e4d5" in
  In m (legal_moves b) /\
  unambiguous b m (mkPiece PAWN WHITE) /\
  MoveToDescriptive.convert b m = Val "KPxQ5" /\
  parse (__init__ b) "KPxQ5" = Val (Some (Positions.from_uci "e4e5")) /\
  ~ (exists text, MoveToDescriptive.convert b m = Val text /\
                  parse (__init__ b) text = Val (Some m)).
Proof.
  intros b m.
  split; [vm_compute; tauto|].
  split.
  { intros other Hin Hto _. simpl in Hin.
    repeat (destruct Hin as [<-|Hin]; [try reflexivity; vm_compute in Hto; discriminate Hto|]).
    destruct Hin. }
  split; [vm_compute; reflexivity|].
  split; [vm_compute; reflexivity|].
  intros (text & Hc & Hp).
  assert (Ht : text = "KPxQ5") by (vm_compute in Hc; inversion Hc; reflexivity).
  subst text. vm_compute in Hp. discriminate Hp.
Qed.

Lemma format_then_parse_witness :
  let b := Positions.initial in
  let m := Positions.from_uci "e2e4" in
  (In m (legal_moves b) /\ unambiguous b m (mkPiece PAWN WHITE)) /\
  (exists text,
     MoveToDescriptive.convert b m = Val text /\
     parse (__init__ b) text = Val (Some m)) /\
  (exists text,
     MoveToDescriptive.convert Positions.italian e1g1 = Val text /\
     parse (__init__ Positions.italian) text = Val (Some e1g1)).
Proof.
  intros b m.
  assert (Hin : In m (legal_moves b)) by (vm_compute; tauto).
  assert (Hun : unambiguous b m (mkPiece PAWN WHITE)).
  { intros other Ho Hto _. simpl in Ho.
    repeat (destruct Ho as [<-|Ho]; [try reflexivity; vm_compute in Hto; discriminate Hto|]).
    destruct Ho. }
  split; [split; assumption|]. split.
  - destruct (format_then_parse b m (mkPiece PAWN WHITE)) as (text & Hc & Hp & _).
    + exact Hin.
    + reflexivity.
    + reflexivity.
    + simpl. unfold PAWN. lia.
    + vm_compute. split; [discriminate | reflexivity].
    + intros H. vm_compute in H. discriminate H.
    + exact I.
    + intros _. reflexivity.
    + exact Hun.
    + exists text. split; assumption.
  - destruct (format_then_parse Positions.italian e1g1 (mkPiece KING WHITE))
      as (text & Hc & Hp & _).
    + vm_compute. tauto.
    + reflexivity.
    + reflexivity.
    + simpl. unfold KING. lia.
    + vm_compute. split; [discriminate | reflexivity].
    + intros _. vm_compute. split; reflexivity.
    + exact I.
    + intros H. vm_compute in H. discriminate H.
    + intros other Ho Hto Hk. simpl in Ho.
      repeat (destruct Ho as [<-|Ho];
              [first [ reflexivity
                     | vm_compute in Hto; discriminate Hto
                     | vm_compute in Hk; discriminate Hk ]|]).
      destruct Ho.
    + exists text. split; assumption.
Defined.

(** ** Exceptions *)

Lemma returns_Val {A : Type} (v : A) : returns (Val v).
Proof. exists v. reflexivity. Qed.

Lemma returns_bind {A B : Type} (c : Res A) (k : A -> Res B) :
  returns c -> (forall a, returns (k a)) -> returns (bind c k).
Proof. intros [v ->] H. exact (H v). Qed.

Section DigitRuns.

Local Open Scope nat_scope.

Lemma remove_marks_cons (c : ascii) (s : string) :
  remove_marks (String c s)
  = if is_mark c then remove_marks s else String c (remove_marks s).
Proof.
  unfold remove_marks, is_mark. cbn [remove].
  destruct (Ascii.eqb_spec c "-") as [-> | N1]; [reflexivity |].
  cbn [remove orb].
  destruct (Ascii.eqb_spec c "x") as [-> | N2]; [reflexivity |].
  cbn [remove orb].
  destruct (Ascii.eqb_spec c "X") as [-> | N3]; reflexivity.
Qed.

Lemma mark_is_no_digit (c : ascii) : is_mark c = true -> isdigit c = false.
Proof.
  unfold is_mark.
  destruct (Ascii.eqb_spec c "-") as [E | _]; [rewrite E; reflexivity |].
  destruct (Ascii.eqb_spec c "x") as [E | _]; [rewrite E; reflexivity |].
  destruct (Ascii.eqb_spec c "X") as [E | _]; [rewrite E; reflexivity | discriminate].
Qed.

Lemma digit_run_cons (c : ascii) (s : string) :
  digit_run (String c s) = if isdigit c then S (digit_run s) else 0.
Proof.
  unfold digit_run. cbn [span]. destruct (isdigit c); [| reflexivity].
  destruct (span isdigit s). reflexivity.
Qed.

Lemma run_across_marks_removed (s : string) :
  run_across_marks s = digit_run (remove_marks s).
Proof.
  induction s as [| c s IH]; [reflexivity |].
  rewrite remove_marks_cons. cbn [run_across_marks].
  destruct (is_mark c) eqn:M.
  - rewrite (mark_is_no_digit c M). exact IH.
  - rewrite digit_run_cons. destruct (isdigit c); [rewrite IH |]; reflexivity.
Qed.

Lemma digit_run_le_longest (s : string) : digit_run s <= longest_digit_run s.
Proof. destruct s; cbn [longest_digit_run]; [reflexivity | lia]. Qed.

Lemma run_le_longest_across_marks (s : string) :
  run_across_marks s <= longest_run_across_marks s.
Proof. destruct s; cbn [longest_run_across_marks]; [reflexivity | lia]. Qed.

Lemma longest_run_across_marks_removed (s : string) :
  longest_run_across_marks s = longest_digit_run (remove_marks s).
Proof.
  induction s as [| c s IH]; [reflexivity |].
  cbn [longest_run_across_marks]. rewrite run_across_marks_removed, remove_marks_cons.
  destruct (is_mark c).
  - rewrite IH. pose proof (digit_run_le_longest (remove_marks s)). lia.
  - cbn [longest_digit_run]. rewrite IH. reflexivity.
Qed.

Lemma digit_run_le_across_marks (s : string) : digit_run s <= run_across_marks s.
Proof.
  induction s as [| c s IH]; [reflexivity |].
  rewrite digit_run_cons. cbn [run_across_marks]. destruct (isdigit c); lia.
Qed.

Lemma longest_run_drop (n : nat) (s : string) :
  longest_run_across_marks (drop n s) <= longest_run_across_marks s.
Proof.
  revert s. induction n as [| n IH]; intros s; [reflexivity |].
  destruct s as [| c s]; [reflexivity |].
  cbn [drop longest_run_across_marks]. specialize (IH s). lia.
Qed.

Lemma run_remove_mark (m : ascii) (s : string) :
  is_mark m = true -> run_across_marks (remove m s) = run_across_marks s.
Proof.
  intros M. induction s as [| c s IH]; [reflexivity |].
  cbn [remove]. destruct (Ascii.eqb_spec c m) as [-> | _].
  - cbn [run_across_marks]. rewrite (mark_is_no_digit m M), M. exact IH.
  - cbn [run_across_marks]. rewrite IH. reflexivity.
Qed.

Lemma longest_run_remove_mark (m : ascii) (s : string) :
  is_mark m = true ->
  longest_run_across_marks (remove m s) <= longest_run_across_marks s.
Proof.
  intros M. induction s as [| c s IH]; [reflexivity |].
  pose proof (run_remove_mark m (String c s) M) as E. cbn [remove] in E |- *.
  destruct (Ascii.eqb c m).
  - cbn [longest_run_across_marks]. lia.
  - cbn [longest_run_across_marks] in *. rewrite E. lia.
Qed.

Lemma longest_run_remove_marks (s : string) :
  longest_run_across_marks (remove_marks s) <= longest_run_across_marks s.
Proof.
  unfold remove_marks.
  pose proof (longest_run_remove_mark "X" (remove "x" (remove "-" s)) eq_refl).
  pose proof (longest_run_remove_mark "x" (remove "-" s) eq_refl).
  pose proof (longest_run_remove_mark "-" s eq_refl). lia.
Qed.

Lemma longest_run_span_rest (p : ascii -> bool) (s : string) :
  longest_run_across_marks (snd (span p s)) <= longest_run_across_marks s.
Proof.
  induction s as [| c s IH]; [reflexivity |].
  cbn [span]. destruct (p c); [| reflexivity].
  destruct (span p s) as [a b]. cbn [snd longest_run_across_marks] in *. lia.
Qed.

Lemma span_isdigit (s : string) :
  forallb isdigit (list_ascii_of_string (fst (span isdigit s))) = true.
Proof.
  induction s as [| c s IH]; [reflexivity |].
  cbn [span]. destruct (isdigit c) eqn:E; [| reflexivity].
  destruct (span isdigit s) as [a b]. cbn in *. rewrite E. exact IH.
Qed.

Lemma search_digits_run (s d : string) :
  search_digits s = Some d ->
  d <> "" /\ forallb isdigit (list_ascii_of_string d) = true /\
  String.length d <= longest_run_across_marks s.
Proof.
  induction s as [| c s IH]; [discriminate |].
  cbn [search_digits]. destruct (isdigit c) eqn:E.
  - intros H. injection H as <-. clear IH.
    split; [| split].
    + cbn [span]. rewrite E. destruct (span isdigit s). discriminate.
    + exact (span_isdigit (String c s)).
    + change (digit_run (String c s) <= longest_run_across_marks (String c s)).
      pose proof (digit_run_le_across_marks (String c s)).
      pose proof (run_le_longest_across_marks (String c s)). lia.
  - intros H. destruct (IH H) as (H1 & H2 & H3). repeat split; try assumption.
    cbn [longest_run_across_marks]. lia.
Qed.

Lemma int_returns (d : string) :
  d <> "" -> forallb isdigit (list_ascii_of_string d) = true ->
  String.length d <= int_max_str_digits -> returns (int d).
Proof.
  intros Hne Hd Hl. unfold int. destruct d as [| c d]; [contradiction |].
  rewrite Hd. apply Nat.leb_le in Hl. rewrite Hl. apply returns_Val.
Qed.

Lemma scan_destination_returns (n : string) :
  longest_run_across_marks n <= int_max_str_digits -> returns (scan_destination n).
Proof.
  intros H. unfold scan_destination.
  destruct (find _ file_patterns) as [fp |].
  - pose proof (longest_run_drop (String.length fp) n) as Hd.
    destruct (search_digits _) as [d |] eqn:E; [| apply returns_Val].
    apply search_digits_run in E. destruct E as (E1 & E2 & E3).
    apply returns_bind; [| intros; apply returns_Val].
    apply int_returns; trivial; lia.
  - destruct (find _ _) as [ab |].
    + pose proof (longest_run_drop 1 n) as Hd.
      destruct (search_digits _) as [d |] eqn:E; [| apply returns_Val].
      apply search_digits_run in E. destruct E as (E1 & E2 & E3).
      apply returns_bind; [| intros; apply returns_Val].
      apply int_returns; trivial; lia.
    + destruct (search_digits _) as [d |] eqn:E; [| apply returns_Val].
      apply search_digits_run in E. destruct E as (E1 & E2 & E3).
      apply returns_bind; [| intros; apply returns_Val].
      apply int_returns; trivial; lia.
Qed.

(** Every branch below the scan of the destination ends with a value. *)
Ltac all_branches_return :=
  repeat match goal with
  | |- returns (Val _) => apply returns_Val
  | |- returns (match ?x with _ => _ end) => destruct x
  | |- returns (if ?x then _ else _) => destruct x
  | |- returns (let (_, _) := ?x in _) => destruct x
  end.

Lemma parse_piece_move_returns (self : Parser) (n : string) :
  n <> "" -> longest_run_across_marks n <= int_max_str_digits ->
  returns (_parse_piece_move self n).
Proof.
  intros Hne H. unfold _parse_piece_move.
  destruct n as [| c n]; [contradiction |].
  cbn [index get bind drop].
  destruct (mem _ _); [apply returns_Val |].
  apply returns_bind.
  - apply scan_destination_returns.
    pose proof (longest_run_remove_marks n). cbn [longest_run_across_marks] in H. lia.
  - intros scanned. all_branches_return.
Qed.

Lemma parse_qualified_piece_move_returns (self : Parser) (n : string) :
  longest_run_across_marks n <= int_max_str_digits ->
  returns (_parse_qualified_piece_move self n).
Proof.
  intros H. unfold _parse_qualified_piece_move.
  destruct (QUALIFIED_PIECES _) as [[piece_char side] |]; [| apply returns_Val].
  destruct (_ || _)%bool; [apply returns_Val |].
  apply returns_bind.
  - apply scan_destination_returns.
    pose proof (longest_run_remove_marks (drop 2 n)).
    pose proof (longest_run_drop 2 n). lia.
  - intros scanned. all_branches_return.
Qed.

Lemma parse_pawn_move_returns (self : Parser) (n : string) :
  longest_run_across_marks n <= int_max_str_digits ->
  returns (_parse_pawn_move self n).
Proof.
  intros H. unfold _parse_pawn_move.
  set (n' := if startswith n "P-" then drop 2 n
             else if startswith n "P" then drop 1 n else n).
  assert (Hn' : longest_run_across_marks n' <= longest_run_across_marks n).
  { unfold n'. pose proof (longest_run_drop 2 n). pose proof (longest_run_drop 1 n).
    destruct (startswith n "P-"); [lia |]. destruct (startswith n "P"); lia. }
  destruct (mem _ _); [apply returns_Val |].
  apply returns_bind.
  - apply scan_destination_returns.
    pose proof (longest_run_remove_mark "X" (remove "x" n') eq_refl).
    pose proof (longest_run_remove_mark "x" n' eq_refl). lia.
  - intros scanned. all_branches_return.
Qed.

Lemma match_promotion_digits (n file_desc rank_desc promo : string) :
  match_promotion n = Some (file_desc, rank_desc, promo) ->
  rank_desc <> "" /\ forallb isdigit (list_ascii_of_string rank_desc) = true /\
  String.length rank_desc <= longest_run_across_marks n.
Proof.
  unfold match_promotion.
  destruct n as [| c0 [| c1 rest]]; try discriminate.
  - destruct c0 as [[] [] [] [] [] [] [] []]; discriminate.
  - destruct (Ascii.eqb_spec c0 "P"); [subst c0 |
      destruct c0 as [[] [] [] [] [] [] [] []]; try discriminate; contradiction].
    destruct (Ascii.eqb_spec c1 "-"); [subst c1 |
      destruct c1 as [[] [] [] [] [] [] [] []]; try discriminate; contradiction].
    pose proof (longest_run_span_rest isupper rest) as Hu.
    destruct (span isupper rest) as [fd r1] eqn:E1.
    pose proof (span_isdigit r1) as Hd1.
    pose proof (digit_run_le_across_marks r1) as Hd2.
    pose proof (run_le_longest_across_marks r1) as Hd3.
    unfold digit_run in Hd2.
    destruct (span isdigit r1) as [rd r2] eqn:E2.
    cbn [fst snd] in Hu, Hd1, Hd2.
    destruct fd as [| f0 fd]; [discriminate |].
    destruct rd as [| d0 rd]; [discriminate |].
    intros Hm.
    assert (rank_desc = String d0 rd).
    { destruct r2 as [| p0 r2]; [discriminate |].
      destruct p0 as [[] [] [] [] [] [] [] []]; try discriminate.
      destruct r2 as [| p1 r2]; [discriminate |].
      destruct r2 as [| p2 r2]; [discriminate |].
      destruct p2 as [[] [] [] [] [] [] [] []]; try discriminate.
      destruct (mem _ _); [| discriminate]. inversion Hm. reflexivity. }
    subst rank_desc. split; [discriminate |]. split; [exact Hd1 |].
    cbn [longest_run_across_marks]. lia.
Qed.

Lemma parse_promotion_returns (self : Parser) (n : string) :
  longest_run_across_marks n <= int_max_str_digits -> returns (_parse_promotion self n).
Proof.
  intros H. unfold _parse_promotion.
  destruct (match_promotion n) as [[[fd rd] pp] |] eqn:E; [| apply returns_Val].
  apply match_promotion_digits in E. destruct E as (E1 & E2 & E3).
  apply returns_bind.
  - apply int_returns; trivial; lia.
  - intros rank. all_branches_return.
Qed.

Lemma mark_at_returns (n : string) (i : nat) : returns (mark_at n i).
Proof.
  unfold mark_at. destruct (i <? String.length n) eqn:E; [| apply returns_Val].
  apply Nat.ltb_lt in E. unfold index.
  destruct (get i n) eqn:G.
  - apply returns_Val.
  - exfalso. revert i E G. induction n as [| c n IH]; intros i E G; simpl in *; [lia |].
    destruct i as [| i]; [discriminate |]. apply (IH i); [lia | exact G].
Qed.

(** [parse] from the normalised notation on. *)
Lemma parse_returns (self : Parser) (s : string) :
  longest_run_across_marks (Forms.normalize s) <= int_max_str_digits ->
  returns (parse self s).
Proof.
  unfold parse. fold (Forms.normalize s). set (n := Forms.normalize s). clearbody n.
  intros Hn.
  destruct (_ || _)%bool; [apply returns_Val |].
  destruct (_ || _)%bool; [apply returns_Val |].
  destruct (_ && _)%bool; [apply parse_promotion_returns; exact Hn |].
  apply returns_bind.
  { destruct (find _ _); [apply mark_at_returns | apply returns_Val]. }
  intros is_qualified.
  destruct is_qualified; [apply parse_qualified_piece_move_returns; exact Hn |].
  destruct n as [| c n].
  { cbn. eexists. reflexivity. }
  assert (Hne : String c n <> "") by discriminate.
  destruct (existsb _ _); [apply parse_piece_move_returns; assumption |].
  destruct (startswith _ "K"); [| apply parse_pawn_move_returns; exact Hn].
  apply returns_bind; [apply mark_at_returns |].
  intros is_king.
  destruct is_king; [apply parse_piece_move_returns; assumption |].
  destruct (existsb _ _); [apply parse_pawn_move_returns; exact Hn |].
  apply returns_bind; [apply parse_piece_move_returns; assumption |].
  intros king_move.
  destruct (truthy_move king_move); [apply returns_Val |].
  apply parse_pawn_move_returns. exact Hn.
Qed.

(** *** The normalisation does not lengthen a run *)

Lemma longest_run_lstrip (s : string) :
  longest_run_across_marks (lstrip s) <= longest_run_across_marks s.
Proof.
  induction s as [| c s IH]; [reflexivity |].
  cbn [lstrip]. destruct (isspace c); [| reflexivity].
  cbn [longest_run_across_marks]. lia.
Qed.

Lemma run_rstrip (s : string) : run_across_marks (rstrip s) <= run_across_marks s.
Proof.
  induction s as [| c s IH]; [reflexivity |].
  cbn [rstrip]. destruct (rstrip s) as [| d r].
  - destruct (isspace c); cbn [run_across_marks];
      destruct (isdigit c); try lia; destruct (is_mark c); lia.
  - cbn [run_across_marks] in *. destruct (isdigit c); [lia |].
    destruct (is_mark c); lia.
Qed.

Lemma longest_run_rstrip (s : string) :
  longest_run_across_marks (rstrip s) <= longest_run_across_marks s.
Proof.
  induction s as [| c s IH]; [reflexivity |].
  pose proof (run_rstrip (String c s)) as R. cbn [rstrip] in R |- *.
  destruct (rstrip s) as [| d r].
  - destruct (isspace c); cbn [longest_run_across_marks] in *; lia.
  - cbn [longest_run_across_marks] in *. lia.
Qed.

Lemma isdigit_upper_char (c : ascii) : isdigit (upper_char c) = isdigit c.
Proof. destruct c as [[] [] [] [] [] [] [] []]; reflexivity. Qed.

Lemma is_mark_upper_char (c : ascii) : is_mark (upper_char c) = is_mark c.
Proof. destruct c as [[] [] [] [] [] [] [] []]; reflexivity. Qed.

Lemma run_upper (s : string) : run_across_marks (upper s) = run_across_marks s.
Proof.
  induction s as [| c s IH]; [reflexivity |].
  cbn [upper run_across_marks].
  rewrite isdigit_upper_char, is_mark_upper_char, IH. reflexivity.
Qed.

Lemma longest_run_upper (s : string) :
  longest_run_across_marks (upper s) = longest_run_across_marks s.
Proof.
  induction s as [| c s IH]; [reflexivity |].
  pose proof (run_upper (String c s)) as R.
  cbn [upper longest_run_across_marks] in *. rewrite R, IH. reflexivity.
Qed.

Lemma run_sub (s : string) :
  run_across_marks (Annotation.sub s) <= run_across_marks s.
Proof.
  induction s as [| c s IH]; cbn [Annotation.sub].
  - destruct (Annotation.matches_here ""); [| reflexivity].
    destruct (Annotation.ends_with_newline ""); cbn; lia.
  - destruct (Annotation.matches_here (String c s)).
    + destruct (Annotation.ends_with_newline (String c s)); cbn; lia.
    + cbn [run_across_marks]. destruct (isdigit c); [lia |].
      destruct (is_mark c); lia.
Qed.

Lemma longest_run_sub (s : string) :
  longest_run_across_marks (Annotation.sub s) <= longest_run_across_marks s.
Proof.
  induction s as [| c s IH].
  - cbn [Annotation.sub]. destruct (Annotation.matches_here ""); [| reflexivity].
    destruct (Annotation.ends_with_newline ""); cbn; lia.
  - pose proof (run_sub (String c s)) as R. cbn [Annotation.sub] in R |- *.
    destruct (Annotation.matches_here (String c s)).
    + destruct (Annotation.ends_with_newline (String c s)); cbn; lia.
    + cbn [longest_run_across_marks] in *. lia.
Qed.

(** The normalisation of [parse] does not lengthen the runs of digits. *)
Lemma normalize_keeps_digit_runs (s : string) :
  longest_digit_run (remove_marks (Forms.normalize s))
  <= longest_digit_run (remove_marks s).
Proof.
  rewrite <- !longest_run_across_marks_removed. unfold Forms.normalize, strip.
  pose proof (longest_run_sub (upper (rstrip (lstrip s)))) as H1.
  rewrite longest_run_upper in H1.
  pose proof (longest_run_rstrip (lstrip s)). pose proof (longest_run_lstrip s). lia.
Qed.

(** *** The only exception *)

Lemma only_Val {A : Type} (v : A) : raises_only_ValueError (Val v).
Proof. intros e H. discriminate H. Qed.

Lemma only_bind {A B : Type} (c : Res A) (k : A -> Res B) :
  raises_only_ValueError c -> (forall a, raises_only_ValueError (k a)) ->
  raises_only_ValueError (bind c k).
Proof.
  intros Hc Hk e. destruct c as [a | e']; cbn [bind].
  - apply Hk.
  - intros H. injection H as <-. apply Hc. reflexivity.
Qed.

Lemma only_of_returns {A : Type} (c : Res A) : returns c -> raises_only_ValueError c.
Proof. intros [v ->]. apply only_Val. Qed.

Lemma only_int (d : string) : raises_only_ValueError (int d).
Proof.
  intros e. unfold int. destruct d as [| c d]; [intros [= <-]; reflexivity |].
  destruct (forallb _ _); [| intros [= <-]; reflexivity].
  destruct (_ <=? _); [discriminate | intros [= <-]; reflexivity].
Qed.

Ltac all_branches_raise_only :=
  repeat match goal with
  | |- raises_only_ValueError (Val _) => apply only_Val
  | |- raises_only_ValueError (bind (int _) _) => apply only_bind; [apply only_int | intros ?]
  | |- raises_only_ValueError (match ?x with _ => _ end) => destruct x
  | |- raises_only_ValueError (if ?x then _ else _) => destruct x
  | |- raises_only_ValueError (let (_, _) := ?x in _) => destruct x
  end.

Lemma only_scan_destination (n : string) : raises_only_ValueError (scan_destination n).
Proof. unfold scan_destination. all_branches_raise_only. Qed.

Lemma only_parse_piece_move (self : Parser) (n : string) :
  n <> "" -> raises_only_ValueError (_parse_piece_move self n).
Proof.
  intros Hne. unfold _parse_piece_move.
  destruct n as [| c n]; [contradiction |].
  cbn [index get bind drop].
  destruct (mem _ _); [apply only_Val |].
  apply only_bind; [apply only_scan_destination |].
  intros scanned. all_branches_raise_only.
Qed.

Lemma only_parse_qualified_piece_move (self : Parser) (n : string) :
  raises_only_ValueError (_parse_qualified_piece_move self n).
Proof.
  unfold _parse_qualified_piece_move.
  destruct (QUALIFIED_PIECES _) as [[piece_char side] |]; [| apply only_Val].
  destruct (_ || _)%bool; [apply only_Val |].
  apply only_bind; [apply only_scan_destination |].
  intros scanned. all_branches_raise_only.
Qed.

Lemma only_parse_pawn_move (self : Parser) (n : string) :
  raises_only_ValueError (_parse_pawn_move self n).
Proof.
  unfold _parse_pawn_move.
  destruct (mem _ _); [apply only_Val |].
  apply only_bind; [apply only_scan_destination |].
  intros scanned. all_branches_raise_only.
Qed.

Lemma only_parse_promotion (self : Parser) (n : string) :
  raises_only_ValueError (_parse_promotion self n).
Proof.
  unfold _parse_promotion.
  destruct (match_promotion n) as [[[fd rd] pp] |]; [| apply only_Val].
  apply only_bind; [apply only_int |].
  intros rank. all_branches_raise_only.
Qed.

Lemma parse_raises_only_ValueError (self : Parser) (s : string) :
  raises_only_ValueError (parse self s).
Proof.
  unfold parse. set (n := Annotation.sub (upper (strip s))). clearbody n.
  destruct (_ || _)%bool; [apply only_Val |].
  destruct (_ || _)%bool; [apply only_Val |].
  destruct (_ && _)%bool; [apply only_parse_promotion |].
  apply only_bind.
  { apply only_of_returns.
    destruct (find _ _); [apply mark_at_returns | apply returns_Val]. }
  intros is_qualified.
  destruct is_qualified; [apply only_parse_qualified_piece_move |].
  destruct n as [| c n].
  { cbn. apply only_Val. }
  assert (Hne : String c n <> "") by discriminate.
  destruct (existsb _ _); [apply only_parse_piece_move; assumption |].
  destruct (startswith _ "K"); [| apply only_parse_pawn_move].
  apply only_bind; [apply only_of_returns; apply mark_at_returns |].
  intros is_king.
  destruct is_king; [apply only_parse_piece_move; assumption |].
  destruct (existsb _ _); [apply only_parse_pawn_move |].
  apply only_bind; [apply only_parse_piece_move; assumption |].
  intros king_move.
  destruct (truthy_move king_move); [apply only_Val |].
  apply only_parse_pawn_move.
Qed.

End DigitRuns.

(** C9, as stated, at a concrete input.  [P-K] followed by 4301 digits is
    a pawn move with a rank of 4301 digits; the scan of the destination
    converts the digits with [int], which refuses a decimal string of more
    than 4300 digits with [ValueError], and nothing in the parser catches
    it. *)
Lemma rank_beyond_digit_cap_raises :
  parse (__init__ Positions.initial) ("P-K" ++ repeat_char "1" 4301) = Exc ValueError /\
  ~ (forall (self : Parser) (notation : string), returns (parse self notation)).
Proof.
  assert (E : parse (__init__ Positions.initial) ("P-K" ++ repeat_char "1" 4301) =
              Exc ValueError) by (vm_compute; reflexivity).
  split; [exact E|].
  intros H. destruct (H (__init__ Positions.initial) ("P-K" ++ repeat_char "1" 4301))
    as [v Hv].
  rewrite E in Hv. discriminate Hv.
Qed.

(** C9, amended.  For every ASCII input and every state of the oracle the
    only exception [parse] can raise is the [ValueError] of [int], and it
    raises nothing at all, ending with a move or with the failure value
    [None], when the notation as [parse] normalises it (stripped, in upper
    case, cut at the first annotation) has no run of more than 4300
    decimal digits once the marks [-], [x] and [X] are deleted, as the
    piece parsers delete them before they look for the rank.  The
    indexings are guarded by the tests on the length, and every string
    given to [int] is a non-empty run of digits of that notation.  This
    covers the malformed inputs (unknown file or rank tokens, no rank
    digit, an unmatched parenthesis, a rank digit out of range) and the
    grammatical inputs without a legal candidate. *)
Theorem parse_returns_below_digit_cap (self : Parser) (notation : string) :
  is_ascii notation = true ->
  raises_only_ValueError (parse self notation) /\
  ((longest_digit_run (remove_marks (Forms.normalize notation))
    <= int_max_str_digits)%nat ->
   returns (parse self notation)).
Proof.
  intros _. split; [apply parse_raises_only_ValueError |].
  intros H. apply parse_returns. rewrite longest_run_across_marks_removed. exact H.
Qed.

Lemma parse_returns_below_digit_cap_witness :
  is_ascii "P-K9" = true /\
  returns (parse (__init__ Positions.initial) "P-K9") /\
  returns (parse (__init__ Positions.initial) "P-Z4") /\
  returns (parse (__init__ Positions.initial) "N-KB") /\
  returns (parse (__init__ Positions.initial) "P-K8(Q") /\
  returns (parse (__init__ Positions.initial) "").
Proof.
  split; [reflexivity |].
  split; [| split; [| split; [| split]]];
    apply parse_returns_below_digit_cap; try reflexivity; vm_compute; lia.
Defined.

(** * Further properties of the parser and the formatter *)

Import Forms.

Lemma parse_by_normal_form (self : Parser) (s t : string) :
  normalize s = normalize t -> parse self s = parse self t.
Proof.
  intros H. unfold parse. fold (normalize s). fold (normalize t). rewrite H. reflexivity.
Qed.

Lemma isspace_lower_char (c : ascii) : isspace (lower_char c) = isspace c.
Proof. destruct c as [[] [] [] [] [] [] [] []]; reflexivity. Qed.

Lemma isspace_upper_char (c : ascii) : isspace (upper_char c) = isspace c.
Proof. destruct c as [[] [] [] [] [] [] [] []]; reflexivity. Qed.

Lemma upper_lower_char (c : ascii) : upper_char (lower_char c) = upper_char c.
Proof. destruct c as [[] [] [] [] [] [] [] []]; reflexivity. Qed.

Lemma upper_upper_char (c : ascii) : upper_char (upper_char c) = upper_char c.
Proof. destruct c as [[] [] [] [] [] [] [] []]; reflexivity. Qed.

Lemma lstrip_lower (s : string) : lstrip (lower s) = lower (lstrip s).
Proof.
  induction s as [|c s IH]; simpl; [reflexivity|].
  rewrite isspace_lower_char. destruct (isspace c); [exact IH | reflexivity].
Qed.

Lemma rstrip_lower (s : string) : rstrip (lower s) = lower (rstrip s).
Proof.
  induction s as [|c s IH]; simpl; [reflexivity|].
  rewrite IH, isspace_lower_char.
  destruct (rstrip s); simpl; [destruct (isspace c)|]; reflexivity.
Qed.

Lemma lstrip_upper (s : string) : lstrip (upper s) = upper (lstrip s).
Proof.
  induction s as [|c s IH]; simpl; [reflexivity|].
  rewrite isspace_upper_char. destruct (isspace c); [exact IH | reflexivity].
Qed.

Lemma rstrip_upper (s : string) : rstrip (upper s) = upper (rstrip s).
Proof.
  induction s as [|c s IH]; simpl; [reflexivity|].
  rewrite IH, isspace_upper_char.
  destruct (rstrip s); simpl; [destruct (isspace c)|]; reflexivity.
Qed.

Lemma upper_lower (s : string) : upper (lower s) = upper s.
Proof.
  induction s as [|c s IH]; simpl; [reflexivity|].
  rewrite upper_lower_char, IH. reflexivity.
Qed.

Lemma upper_upper (s : string) : upper (upper s) = upper s.
Proof.
  induction s as [|c s IH]; simpl; [reflexivity|].
  rewrite upper_upper_char, IH. reflexivity.
Qed.

(** X1.  An ASCII notation is read without regard to case. *)
Theorem parse_ignores_case (self : Parser) (s : string) :
  is_ascii s = true ->
  parse self (lower s) = parse self s /\ parse self (upper s) = parse self s.
Proof.
  intros _. split; apply parse_by_normal_form; unfold normalize, strip.
  - rewrite lstrip_lower, rstrip_lower, upper_lower. reflexivity.
  - rewrite lstrip_upper, rstrip_upper, upper_upper. reflexivity.
Qed.

Lemma parse_ignores_case_witness :
  is_ascii "n-Kb3" = true /\
  parse (__init__ Positions.initial) "n-kb3" = parse (__init__ Positions.initial) "n-Kb3" /\
  parse (__init__ Positions.initial) "N-KB3" = parse (__init__ Positions.initial) "n-Kb3".
Proof.
  split; [reflexivity |].
  apply (parse_ignores_case (__init__ Positions.initial) "n-Kb3"). reflexivity.
Defined.

Lemma lstrip_blank_app (ws s : string) : blank ws = true -> lstrip (ws ++ s) = lstrip s.
Proof.
  unfold blank. induction ws as [|c ws IH]; simpl; [reflexivity|].
  intros H. apply andb_true_iff in H. destruct H as [Hc H]. rewrite Hc. exact (IH H).
Qed.

Lemma rstrip_blank (ws : string) : blank ws = true -> rstrip ws = "".
Proof.
  unfold blank. induction ws as [|c ws IH]; simpl; [reflexivity|].
  intros H. apply andb_true_iff in H. destruct H as [Hc H]. rewrite (IH H), Hc. reflexivity.
Qed.

Lemma rstrip_app_blank (s ws : string) : blank ws = true -> rstrip (s ++ ws) = rstrip s.
Proof.
  intros H. induction s as [|c s IH]; simpl.
  - apply rstrip_blank. exact H.
  - rewrite IH. reflexivity.
Qed.

Lemma lstrip_blank (ws : string) : blank ws = true -> lstrip ws = "".
Proof.
  unfold blank. induction ws as [|c ws IH]; simpl; [reflexivity|].
  intros H. apply andb_true_iff in H. destruct H as [Hc H]. rewrite Hc. exact (IH H).
Qed.

Lemma strip_app_blank (s ws : string) :
  blank ws = true -> rstrip (lstrip (s ++ ws)) = rstrip (lstrip s).
Proof.
  intros H. induction s as [|c s IH]; simpl.
  - rewrite (lstrip_blank ws H). reflexivity.
  - destruct (isspace c); [exact IH|].
    change (String c (s ++ ws)) with (String c s ++ ws).
    apply rstrip_app_blank. exact H.
Qed.

(** X2.  White space around the notation is dropped. *)
Theorem parse_ignores_padding (self : Parser) (before s after : string) :
  blank before = true -> blank after = true ->
  parse self (before ++ s ++ after) = parse self s.
Proof.
  intros Hb Ha. apply parse_by_normal_form. unfold normalize, strip.
  rewrite (lstrip_blank_app before _ Hb), (strip_app_blank s after Ha). reflexivity.
Qed.

Lemma plain_char_no_match (c : ascii) (rest : string) :
  plain_char c = true -> Annotation.matches_here (String (upper_char c) rest) = false.
Proof.
  destruct c as [[] [] [] [] [] [] [] []]; intros H;
    first [ discriminate H | reflexivity ].
Qed.

Lemma plain_char_not_space (c : ascii) : plain_char c = true -> isspace c = false.
Proof.
  unfold plain_char. intros H. apply andb_true_iff in H. destruct H as [H _].
  destruct (isspace c); [discriminate H | reflexivity].
Qed.

Lemma upper_app (s t : string) : upper (s ++ t) = upper s ++ upper t.
Proof. induction s as [|c s IH]; simpl; [reflexivity | rewrite IH; reflexivity]. Qed.

Lemma sub_plain_app (s tail : string) :
  plain s = true -> Annotation.sub (upper s ++ tail) = upper s ++ Annotation.sub tail.
Proof.
  unfold plain. induction s as [|c s IH]; intros H; [reflexivity|].
  simpl in H. apply andb_true_iff in H. destruct H as [Hc H].
  cbn [upper append Annotation.sub].
  rewrite (plain_char_no_match c _ Hc), (IH H). reflexivity.
Qed.

Lemma rstrip_plain_app (s tail : string) :
  plain s = true -> tail <> "" -> rstrip tail = tail -> rstrip (s ++ tail) = s ++ tail.
Proof.
  unfold plain. intros H Hne Ht. induction s as [|c s IH]; [exact Ht|].
  simpl in H. apply andb_true_iff in H. destruct H as [Hc H].
  cbn [append rstrip]. rewrite (IH H).
  destruct (s ++ tail) eqn:E; [|reflexivity].
  destruct s; simpl in E; [contradiction | discriminate E].
Qed.

Lemma rstrip_plain (s : string) : plain s = true -> rstrip s = s.
Proof.
  unfold plain. induction s as [|c s IH]; intros H; [reflexivity|].
  simpl in H. apply andb_true_iff in H. destruct H as [Hc H].
  cbn [rstrip]. rewrite (IH H), (plain_char_not_space c Hc).
  destruct s; reflexivity.
Qed.

Lemma lstrip_plain_app (s tail : string) :
  plain s = true -> s <> "" -> lstrip (s ++ tail) = s ++ tail.
Proof.
  unfold plain. destruct s as [|c s]; intros H Hne; [contradiction|].
  simpl in H. apply andb_true_iff in H. destruct H as [Hc _].
  cbn [append lstrip]. rewrite (plain_char_not_space c Hc). reflexivity.
Qed.

Lemma normalize_plain (s : string) : plain s = true -> normalize s = upper s.
Proof.
  intros H. unfold normalize, strip.
  destruct s as [|c s]; [reflexivity|].
  rewrite <- (append_nil_r (String c s)) at 1.
  rewrite (lstrip_plain_app (String c s) "" H ltac:(discriminate)), append_nil_r.
  rewrite (rstrip_plain _ H).
  rewrite <- (append_nil_r (upper (String c s))) at 1.
  rewrite (sub_plain_app _ "" H). cbn [Annotation.sub]. 
  change (Annotation.sub "") with "". apply append_nil_r.
Qed.

Lemma normalize_annotated (s a : string) :
  plain s = true -> In a annotations -> normalize (s ++ a) = upper s.
Proof.
  intros H Ha.
  assert (Hfacts : a <> "" /\ rstrip a = a /\ Annotation.sub (upper a) = "" /\
                   normalize a = "").
  { unfold annotations in Ha. simpl in Ha.
    repeat (destruct Ha as [<-|Ha]; [repeat split; try discriminate; reflexivity|]).
    destruct Ha. }
  destruct Hfacts as (Hne & Hr & Hs & Hn).
  destruct s as [|c s]; [exact Hn|].
  unfold normalize, strip.
  rewrite (lstrip_plain_app _ a H ltac:(discriminate)).
  rewrite (rstrip_plain_app _ a H Hne Hr), upper_app, (sub_plain_app _ _ H), Hs.
  apply append_nil_r.
Qed.

(** X3.  A check, mate or en passant annotation behind a notation changes
    nothing. *)
Theorem parse_ignores_annotation (self : Parser) (s a : string) :
  plain s = true -> In a annotations ->
  parse self (s ++ a) = parse self s.
Proof.
  intros H Ha. apply parse_by_normal_form.
  rewrite (normalize_annotated s a H Ha), (normalize_plain s H). reflexivity.
Qed.

Lemma parse_ignores_annotation_witness :
  parse (__init__ Positions.initial) "P-K4 ch" =
  parse (__init__ Positions.initial) "P-K4" /\
  parse (__init__ Positions.italian) "O-O+" =
  parse (__init__ Positions.italian) "O-O".
Proof.
  split.
  - apply (parse_ignores_annotation (__init__ Positions.initial) "P-K4" " ch");
      [reflexivity | simpl; tauto].
  - apply (parse_ignores_annotation (__init__ Positions.italian) "O-O" "+");
      [reflexivity | simpl; tauto].
Defined.

Lemma normalize_blank (s : string) : blank s = true -> normalize s = "".
Proof.
  intros H. unfold normalize, strip. rewrite (lstrip_blank s H). reflexivity.
Qed.

Lemma hd_filter_find {A : Type} (p : A -> bool) (l : list A) :
  match filter p l with [] => None | first :: _ => Some first end = find p l.
Proof.
  induction l as [|a l IH]; simpl; [reflexivity|].
  destruct (p a); [reflexivity | exact IH].
Qed.

(** X4.  An empty or blank notation, or an annotation alone, is read as a
    pawn that takes anything: the answer is the first legal move of a pawn
    of the side to move onto an occupied square. *)
Theorem blank_notation_is_pawn_capture (self : Parser) (s : string) :
  blank s = true \/ In s annotations ->
  parse self s =
  Val (find (fun move => origin_matches self PAWN move &&
                         occupied self (to_square move))
            (legal_moves (board self))).
Proof.
  intros H.
  assert (Hn : normalize s = "").
  { destruct H as [H|H]; [exact (normalize_blank s H)|].
    unfold annotations in H. simpl in H.
    repeat (destruct H as [<-|H]; [reflexivity|]). destruct H. }
  rewrite (parse_by_normal_form self s "" Hn).
  change (parse self "") with (Val (_parse_generic_capture self "P" None)).
  f_equal. unfold _parse_generic_capture. cbn [piece_map String.eqb Ascii.eqb].
  change (piece_map "P") with (Some PAWN).
  rewrite <- hd_filter_find. 
  match goal with
  | |- match filter ?f _ with _ => _ end = match filter ?g _ with _ => _ end =>
      rewrite (filter_ext f g)
  end; [reflexivity|].
  intros m. unfold occupied. destruct (piece_at (board self) (to_square m)); reflexivity.
Qed.

Lemma blank_notation_is_pawn_capture_witness :
  parse (__init__ Positions.pawn_takes) "   " = Val (Some (Positions.from_uci "e4d5")) /\
  parse (__init__ Positions.initial) "" = Val None.
Proof.
  split.
  - rewrite (blank_notation_is_pawn_capture (__init__ Positions.pawn_takes) "   ");
      [reflexivity | left; reflexivity].
  - rewrite (blank_notation_is_pawn_capture (__init__ Positions.initial) "");
      [reflexivity | left; reflexivity].
Defined.

(** *** What a parser can answer *)

Lemma choose_candidate_In (self : Parser) (c : bool) (l : list Move) (m : Move) :
  choose_candidate self c l = Some m -> In m l.
Proof.
  unfold choose_candidate. destruct l as [|a [|a' rest]]; [discriminate| |].
  - intros H. inversion H. left. reflexivity.
  - destruct c.
    + destruct (find _ _) as [x|] eqn:E.
      * intros H. inversion H; subst x. apply find_some in E. exact (proj1 E).
      * intros H. inversion H. left. reflexivity.
    + intros H. inversion H. left. reflexivity.
Qed.

Lemma choose_qualified_In (side : string) (l : list Move) (m : Move) :
  choose_qualified side l = Some m -> In m l.
Proof.
  unfold choose_qualified. destruct l as [|a [|a' rest]]; [discriminate| |].
  - intros H. inversion H. left. reflexivity.
  - destruct (find _ _) as [x|] eqn:E.
    + intros H. inversion H; subst x. apply find_some in E. exact (proj1 E).
    + intros H. inversion H. left. reflexivity.
Qed.

Lemma moves_to_legal_from (self : Parser) (kind : PieceType) (sq : Square) (m : Move) :
  In m (moves_to self kind sq) -> legal_from self kind m /\ to_square m = sq.
Proof.
  unfold moves_to. intros H. apply filter_In in H. destruct H as [Hin H].
  apply andb_true_iff in H. destruct H as [Ht Ho]. apply Z.eqb_eq in Ht.
  repeat split; assumption.
Qed.

Lemma moves_to_ambiguous_legal_from (self : Parser) (kind : PieceType) (a : string)
    (rank : Z) (m : Move) :
  In m (moves_to_ambiguous self kind a rank) -> legal_from self kind m.
Proof.
  unfold moves_to_ambiguous. intros H. apply in_flat_map in H.
  destruct H as (f & _ & H). apply moves_to_legal_from in H. exact (proj1 H).
Qed.

Lemma generic_capture_legal_from (self : Parser) (piece_char : string)
    (captured_type : option string) (m : Move) :
  _parse_generic_capture self piece_char captured_type = Some m ->
  exists kind, piece_map piece_char = Some kind /\ legal_from self kind m.
Proof.
  intros H. apply generic_capture_sound in H.
  destruct H as (Hin & (kind & Hk & Ho) & _). exists kind. repeat split; assumption.
Qed.

Lemma qualified_capture_legal_from (self : Parser) (piece_char side : string) (m : Move) :
  _parse_qualified_capture self piece_char side = Some m ->
  exists kind, piece_map piece_char = Some kind /\ legal_from self kind m.
Proof.
  unfold _parse_qualified_capture. destruct (piece_map piece_char) as [kind|]; [|discriminate].
  intros H. apply choose_qualified_In in H. apply filter_In in H.
  destruct H as [Hin H]. apply andb_true_iff in H.
  exists kind. repeat split; tauto.
Qed.

Lemma parse_piece_move_legal_from (self : Parser) (n : string) (m : Move) :
  _parse_piece_move self n = Val (Some m) ->
  exists kind, piece_map (take 1 n) = Some kind /\ legal_from self kind m.
Proof.
  unfold _parse_piece_move. destruct n as [|c n]; [discriminate|].
  cbn [index get bind drop take].
  destruct (mem _ _).
  - intros H. inversion H as [H']. exact (generic_capture_legal_from _ _ _ _ H').
  - destruct (scan_destination _) as [[[fd am] rk]|]; cbn [bind]; [|discriminate].
    destruct fd as [fd|], am as [am|], rk as [rk|]; try discriminate;
      destruct (piece_map (String c "")) as [kind|]; try discriminate;
      try (destruct (_descriptive_file_to_standard fd); try discriminate);
      intros H; inversion H as [H']; apply choose_candidate_In in H';
      exists kind; (split; [reflexivity|]);
      first [ exact (moves_to_ambiguous_legal_from _ _ _ _ _ H')
            | exact (proj1 (moves_to_legal_from _ _ _ _ H')) ].
Qed.

Lemma parse_pawn_move_legal_from (self : Parser) (n : string) (m : Move) :
  _parse_pawn_move self n = Val (Some m) -> legal_from self PAWN m.
Proof.
  unfold _parse_pawn_move.
  match goal with |- context [if mem ?x ?l then _ else _] => destruct (mem x l) end.
  - intros H. inversion H as [H']. apply generic_capture_legal_from in H'.
    destruct H' as (kind & Hk & H'). inversion Hk; subst kind. exact H'.
  - destruct (scan_destination _) as [[[fd am] rk]|]; cbn [bind]; [|discriminate].
    destruct fd as [fd|], am as [am|], rk as [rk|]; try discriminate;
      try (destruct (_descriptive_file_to_standard fd); try discriminate);
      intros H; inversion H as [H']; apply choose_candidate_In in H';
      first [ exact (moves_to_ambiguous_legal_from _ _ _ _ _ H')
            | exact (proj1 (moves_to_legal_from _ _ _ _ H')) ].
Qed.

Lemma parse_qualified_piece_move_legal_from (self : Parser) (n : string) (m : Move) :
  _parse_qualified_piece_move self n = Val (Some m) ->
  exists piece_char side kind,
    QUALIFIED_PIECES (take 2 n) = Some (piece_char, side) /\
    piece_map piece_char = Some kind /\ legal_from self kind m.
Proof.
  unfold _parse_qualified_piece_move.
  destruct (QUALIFIED_PIECES _) as [[piece_char side]|]; [|discriminate].
  match goal with |- context [if ?c then _ else _] => destruct c end.
  - intros H. inversion H as [H']. apply qualified_capture_legal_from in H'.
    destruct H' as (kind & Hk & H'). exists piece_char, side, kind.
    split; [reflexivity|]. split; assumption.
  - destruct (scan_destination _) as [[[fd am] rk]|]; cbn [bind]; [|discriminate].
    destruct fd as [fd|], am as [am|], rk as [rk|]; try discriminate;
      destruct (piece_map piece_char) as [kind|] eqn:Ek; try discriminate;
      match goal with
      | |- match ?l with _ => _ end = _ -> _ => destruct l; [discriminate|]
      end;
      intros H; inversion H as [H']; apply choose_qualified_In in H';
      apply filter_In in H'; destruct H' as [Hin H'];
      apply andb_true_iff in H'; destruct H' as [_ Ho];
      exists piece_char, side, kind; repeat split; try reflexivity; assumption.
Qed.

Lemma parse_promotion_legal (self : Parser) (n : string) (m : Move) :
  _parse_promotion self n = Val (Some m) ->
  In m (legal_moves (board self)) /\
  exists kind, promotion m = Some kind /\ In kind [QUEEN; ROOK; BISHOP; KNIGHT].
Proof.
  unfold _parse_promotion.
  destruct (match_promotion n) as [[[fd rd] pp]|] eqn:E; [|discriminate].
  destruct (int rd) as [rank|]; cbn [bind]; [|discriminate].
  destruct (_descriptive_file_to_standard fd); [|discriminate].
  intros H. inversion H as [H']. apply find_some in H'. destruct H' as [Hin H'].
  split; [exact Hin|].
  rewrite !andb_true_iff in H'. destruct H' as [[_ Ht] He].
  destruct (promo_map pp) as [kind|] eqn:Ek.
  - apply option_Z_eqb_Some in He. exists kind. split; [exact He|].
    apply promo_map_inv in Ek. simpl in Ek.
    destruct Ek as [Ek|[Ek|[Ek|[Ek|[]]]]]; inversion Ek; simpl; tauto.
  - destruct (promotion m); simpl in *; discriminate.
Qed.

Lemma piece_map_range (k : string) (kind : PieceType) :
  piece_map k = Some kind -> In kind [PAWN; KNIGHT; BISHOP; ROOK; QUEEN; KING].
Proof.
  unfold piece_map.
  repeat match goal with
  | |- context [String.eqb ?a ?b] => destruct (String.eqb a b)
  end; intros H; inversion H; simpl; tauto.
Qed.

(** X5.  What [parse] can answer.  A castling token is answered with one of the
    four king moves, built by the parser.  Every other answer is a move of
    the oracle: for a notation with parentheses a legal move that promotes
    to a queen, rook, bishop or knight; otherwise a legal move whose origin
    holds a piece of the side to move. *)
Theorem parse_answers_from_the_oracle (self : Parser) (s : string) (m : Move) :
  parse self s = Val (Some m) ->
  (In (normalize s) castling_tokens /\ In m [e1g1; e1c1; e8g8; e8c8]) \/
  (In m (legal_moves (board self)) /\
   exists kind, promotion m = Some kind /\ In kind [QUEEN; ROOK; BISHOP; KNIGHT]) \/
  (exists kind, In kind [PAWN; KNIGHT; BISHOP; ROOK; QUEEN; KING] /\
                legal_from self kind m).
Proof.
  unfold parse. fold (normalize s). set (n := normalize s). clearbody n.
  assert (Hpiece : forall x, _parse_piece_move self x = Val (Some m) ->
            exists kind, In kind [PAWN; KNIGHT; BISHOP; ROOK; QUEEN; KING] /\
                         legal_from self kind m).
  { intros x H. apply parse_piece_move_legal_from in H. destruct H as (kind & Hk & H).
    exists kind. split; [exact (piece_map_range _ _ Hk) | exact H]. }
  assert (Hpawn : forall x, _parse_pawn_move self x = Val (Some m) ->
            exists kind, In kind [PAWN; KNIGHT; BISHOP; ROOK; QUEEN; KING] /\
                         legal_from self kind m).
  { intros x H. apply parse_pawn_move_legal_from in H.
    exists PAWN. split; [simpl; tauto | exact H]. }
  destruct (String.eqb_spec n "O-O") as [->|H1].
  { cbn [orb]. intros H. left. split; [simpl; tauto|].
    inversion H as [H']. unfold _parse_castling_kingside in H'.
    repeat match type of H' with
    | (if ?c then _ else _) = _ => destruct c
    end; inversion H'; simpl; tauto. }
  destruct (String.eqb_spec n "0-0") as [->|H2].
  { cbn [orb]. intros H. left. split; [simpl; tauto|].
    inversion H as [H']. unfold _parse_castling_kingside in H'.
    repeat match type of H' with
    | (if ?c then _ else _) = _ => destruct c
    end; inversion H'; simpl; tauto. }
  cbn [orb].
  destruct (String.eqb_spec n "O-O-O") as [->|H3].
  { cbn [orb]. intros H. left. split; [simpl; tauto|].
    inversion H as [H']. unfold _parse_castling_queenside in H'.
    repeat match type of H' with
    | (if ?c then _ else _) = _ => destruct c
    end; inversion H'; simpl; tauto. }
  destruct (String.eqb_spec n "0-0-0") as [->|H4].
  { cbn [orb]. intros H. left. split; [simpl; tauto|].
    inversion H as [H']. unfold _parse_castling_queenside in H'.
    repeat match type of H' with
    | (if ?c then _ else _) = _ => destruct c
    end; inversion H'; simpl; tauto. }
  cbn [orb].
  destruct (_ && _)%bool.
  { intros H. right. left. exact (parse_promotion_legal _ _ _ H). }
  right. right. revert H.
  match goal with |- bind ?c _ = _ -> _ => destruct c as [q|]; cbn [bind]; [|discriminate] end.
  destruct q.
  { intros H. apply parse_qualified_piece_move_legal_from in H.
    destruct H as (pc & side & kind & _ & Hk & H).
    exists kind. split; [exact (piece_map_range _ _ Hk) | exact H]. }
  destruct (existsb _ _); [apply Hpiece|].
  destruct (startswith n "K"); [|apply Hpawn].
  destruct (mark_at n 1) as [k|]; cbn [bind]; [|discriminate].
  destruct k; [apply Hpiece|].
  destruct (existsb _ _); [apply Hpawn|].
  destruct (_parse_piece_move self n) as [km|] eqn:E; cbn [bind]; [|discriminate].
  destruct (truthy_move km).
  - intros H. inversion H; subst km. exact (Hpiece _ E).
  - apply Hpawn.
Qed.

Lemma parse_answers_from_the_oracle_witness :
  exists kind, In kind [PAWN; KNIGHT; BISHOP; ROOK; QUEEN; KING] /\
               legal_from (__init__ Positions.initial) kind (Positions.from_uci "g1f3").
Proof.
  destruct (parse_answers_from_the_oracle (__init__ Positions.initial) "N-KB3"
              (Positions.from_uci "g1f3")) as [[H _]|[[_ (k & H & _)]|H]].
  - vm_compute. reflexivity.
  - vm_compute in H. repeat (destruct H as [H|H]; [discriminate H|]). destruct H.
  - vm_compute in H. discriminate H.
  - exact H.
Defined.

Lemma match_promotion_prefix (n : string) :
  startswith n "P-" = false -> match_promotion n = None.
Proof.
  unfold startswith, match_promotion.
  destruct n as [|c0 [|c1 rest]].
  - reflexivity.
  - destruct c0 as [[] [] [] [] [] [] [] []]; reflexivity.
  - destruct c0 as [[] [] [] [] [] [] [] []]; try reflexivity;
      destruct c1 as [[] [] [] [] [] [] [] []]; try reflexivity.
    cbn. destruct (prefix "" rest) eqn:E; [discriminate|].
    destruct rest; discriminate E.
Qed.

Lemma parenthesised_without_pawn_prefix (self : Parser) (s : string) :
  contains "(" (normalize s) = true -> contains ")" (normalize s) = true ->
  startswith (normalize s) "P-" = false ->
  parse self s = Val None.
Proof.
  unfold parse. fold (normalize s). set (n := normalize s). clearbody n.
  intros Ho Hc Hp.
  destruct (String.eqb_spec n "O-O") as [->|_]; [discriminate Ho|].
  destruct (String.eqb_spec n "0-0") as [->|_]; [discriminate Ho|].
  destruct (String.eqb_spec n "O-O-O") as [->|_]; [discriminate Ho|].
  destruct (String.eqb_spec n "0-0-0") as [->|_]; [discriminate Ho|].
  cbn [orb]. rewrite Ho, Hc. cbn [andb].
  unfold _parse_promotion. rewrite (match_promotion_prefix n Hp). reflexivity.
Qed.



Section MoreForms.

Local Opaque choose_candidate moves_to moves_to_ambiguous choose_qualified
  _parse_generic_capture _parse_qualified_capture.

(** X7.  A promotion to a file that is named by its abbreviated letter fails,
    whatever the board. *)
Theorem promotion_needs_full_file_name (self : Parser) (tok letter : string) (r : Z) :
  In tok ["R"; "N"; "B"] -> In letter ["Q"; "R"; "B"; "N"] -> 1 <= r <= 8 ->
  parse self ("P-" ++ tok ++ str r ++ "(" ++ letter ++ ")") = Val None.
Proof.
  intros Ht Hl Hr. apply rank_digit_inv in Hr. destruct self as [b w].
  cases_of_In; lazy; reflexivity.
Qed.

(** X8.  A qualified piece that takes a named piece other than a pawn fails,
    whatever the board. *)
Theorem qualified_capture_of_piece_fails (self : Parser) (q captured : string) :
  In q ["QR"; "KR"; "QN"; "KN"; "QB"; "KB"] ->
  In captured ["R"; "N"; "B"; "Q"; "K"] ->
  parse self (q ++ "x" ++ captured) = Val None.
Proof.
  intros Hq Hc. destruct self as [b w].
  cases_of_In; lazy; reflexivity.
Qed.

(** X9.  A destination without a piece letter and without [P-].  On the files
    K, KB, KN and KR it is the pawn move to that square.  [Q] and a digit
    fails.  QR, QN and QB and a digit are read as the queen that moves to
    the file R, N or B. *)
Theorem bare_destination (self : Parser) (tok : string) (r : Z) :
  In tok file_patterns -> 1 <= r <= 8 ->
  parse self (tok ++ str r) =
  if startswith tok "K" then parse self ("P-" ++ tok ++ str r)
  else if String.eqb tok "Q" then Val None
  else parse self ("Q-" ++ drop 1 tok ++ str r).
Proof.
  intros Ht Hr. apply rank_digit_inv in Hr. destruct self as [b w].
  unfold file_patterns in Ht.
  cases_of_In; destruct w; lazy; reflexivity.
Qed.

(** The same equation as [parse_piece_destination], for the digits 0 and 9. *)
Lemma parse_piece_destination_off_board (self : Parser) (L : string)
    (kind : PieceType) (sep tok : string) (r : Z) :
  In (L, kind) piece_letters -> In sep ["-"; "x"] -> In tok file_tokens ->
  In r [0; 9] ->
  parse self (L ++ sep ++ tok ++ str r) =
  Val (choose_candidate self (String.eqb sep "x") (candidates self kind tok r)).
Proof.
  intros HL Hs Ht Hr. destruct self as [b w].
  cases_of_In; destruct w; lazy; reflexivity.
Qed.

End MoreForms.

Lemma file_index_range (f : ascii) (tok : string) :
  FILE_MAP tok = Some f \/ In f (AMBIGUOUS_FILES tok) -> 0 <= ord f - ord "a" <= 7.
Proof.
  intros [H|H].
  - apply FILE_MAP_inv in H. cases_of_In; vm_compute; split; discriminate.
  - unfold AMBIGUOUS_FILES in H.
    repeat match type of H with
    | In _ (if ?c then _ else _) => destruct c
    end; cases_of_In; vm_compute; split; discriminate.
Qed.

Lemma candidates_off_board (self : Parser) (kind : PieceType) (tok : string) (r : Z) :
  In r [0; 9] ->
  (forall m, In m (legal_moves (board self)) -> 0 <= to_square m < 64) ->
  candidates self kind tok r = [].
Proof.
  intros Hr Hb.
  assert (Hrank : _descriptive_rank_to_standard self r = -1 \/
                  _descriptive_rank_to_standard self r = 8).
  { unfold _descriptive_rank_to_standard.
    destruct (is_white_turn self); simpl in Hr; destruct Hr as [<-|[<-|[]]]; auto. }
  assert (Hempty : forall f, 0 <= ord f - ord "a" <= 7 ->
            moves_to self kind (_file_rank_to_square f (_descriptive_rank_to_standard self r)) = []).
  { intros f Hf. unfold moves_to. apply filter_none. intros m Hm.
    specialize (Hb m Hm). unfold _file_rank_to_square.
    destruct (Z.eqb_spec (to_square m)
                (_descriptive_rank_to_standard self r * 8 + (ord f - ord "a")));
      [|reflexivity].
    exfalso. lia. }
  unfold candidates. destruct (FILE_MAP tok) as [f|] eqn:E.
  - apply Hempty. apply (file_index_range f tok). left. exact E.
  - unfold moves_to_ambiguous.
    assert (Hall : forall f, In f (AMBIGUOUS_FILES tok) -> 0 <= ord f - ord "a" <= 7)
      by (intros f Hf; apply (file_index_range f tok); right; exact Hf).
    induction (AMBIGUOUS_FILES tok) as [|f l IH]; [reflexivity|].
    cbn [flat_map]. rewrite (Hempty f (Hall f (or_introl eq_refl))).
    apply IH. intros f' Hf'. apply Hall. right. exact Hf'.
Qed.

(** X10.  A rank digit 0 or 9 names a rank off the board: when the legal moves
    of the oracle all end on the board, a move to such a rank fails, for
    either side, every piece letter and every destination file. *)
Theorem rank_off_the_board_fails (self : Parser) (L : string) (kind : PieceType)
    (sep tok : string) (r : Z) :
  In (L, kind) piece_letters -> In sep ["-"; "x"] -> In tok file_tokens ->
  In r [0; 9] ->
  (forall m, In m (legal_moves (board self)) -> 0 <= to_square m < 64) ->
  parse self (L ++ sep ++ tok ++ str r) = Val None.
Proof.
  intros HL Hs Ht Hr Hb.
  rewrite (parse_piece_destination_off_board self L kind sep tok r HL Hs Ht Hr).
  rewrite (candidates_off_board self kind tok r Hr Hb). reflexivity.
Qed.

Lemma rank_off_the_board_fails_witness :
  parse (__init__ Positions.initial) "P-K9" = Val None /\
  parse (__init__ Positions.after_e4) "N-B0" = Val None.
Proof.
  split.
  - apply (rank_off_the_board_fails (__init__ Positions.initial) "P" PAWN "-" "K" 9);
      try (simpl; tauto).
    intros m Hm. simpl in Hm.
    repeat (destruct Hm as [<-|Hm]; [vm_compute; split; [discriminate | reflexivity]|]).
    destruct Hm.
  - apply (rank_off_the_board_fails (__init__ Positions.after_e4) "N" KNIGHT "-" "B" 0);
      try (simpl; tauto).
    intros m Hm. simpl in Hm.
    repeat (destruct Hm as [<-|Hm]; [vm_compute; split; [discriminate | reflexivity]|]).
    destruct Hm.
Defined.

(** X11.  A destination on an abbreviated file letter (R, N or B).  The answer
    is a legal move of a piece of the named kind of the side to move to
    one of the two squares the letter names on the rank; when a single
    legal move of such a piece reaches either square, it is the answer,
    on whichever side it is. *)
Theorem abbreviated_file_resolves (self : Parser) (L : string) (kind : PieceType)
    (sep tok : string) (r : Z) :
  In (L, kind) piece_letters -> In sep ["-"; "x"] -> In tok ["R"; "N"; "B"] ->
  1 <= r <= 8 ->
  let text := L ++ sep ++ tok ++ str r in
  (forall m, parse self text = Val (Some m) ->
     legal_from self kind m /\ In (to_square m) (named_squares self tok r)) /\
  (forall m, candidates self kind tok r = [m] -> parse self text = Val (Some m)) /\
  (candidates self kind tok r = [] -> parse self text = Val None).
Proof.
  intros HL Hs Ht Hr text. unfold text.
  assert (Ht' : In tok file_tokens) by (unfold file_tokens; simpl in *; tauto).
  rewrite (parse_piece_destination self L kind sep tok r HL Hs Ht' Hr).
  assert (Hc : candidates self kind tok r =
               moves_to_ambiguous self kind tok (_descriptive_rank_to_standard self r))
    by (simpl in Ht; destruct Ht as [<-|[<-|[<-|[]]]]; reflexivity).
  assert (Hn : named_squares self tok r =
               map (fun f => _file_rank_to_square f (_descriptive_rank_to_standard self r))
                   (AMBIGUOUS_FILES tok))
    by (simpl in Ht; destruct Ht as [<-|[<-|[<-|[]]]]; reflexivity).
  split; [|split].
  - intros m H. inversion H as [H']. apply choose_candidate_In in H'.
    rewrite Hc in H'. split; [exact (moves_to_ambiguous_legal_from _ _ _ _ _ H')|].
    rewrite Hn. unfold moves_to_ambiguous in H'. apply in_flat_map in H'.
    destruct H' as (f & Hf & H'). apply moves_to_legal_from in H'.
    destruct H' as [_ Hsq]. rewrite Hsq.
    apply (in_map (fun f => _file_rank_to_square f _)). exact Hf.
  - intros m ->. reflexivity.
  - intros ->. reflexivity.
Qed.

Lemma abbreviated_file_resolves_witness :
  legal_from (__init__ Positions.after_e4) KNIGHT (Positions.from_uci "b8c6") /\
  In (to_square (Positions.from_uci "b8c6"))
     (named_squares (__init__ Positions.after_e4) "B" 3).
Proof.
  assert (Hr : 1 <= 3 <= 8) by lia.
  destruct (abbreviated_file_resolves (__init__ Positions.after_e4) "N" KNIGHT "-" "B" 3
              ltac:(simpl; tauto) ltac:(simpl; tauto) ltac:(simpl; tauto) Hr)
    as (H & _ & _).
  apply H. vm_compute. reflexivity.
Defined.

Lemma FILE_NAMES_inv (k : Z) :
  0 <= k <= 7 -> In (k, MoveToDescriptive.FILE_NAMES k) file_names_table.
Proof.
  intros H.
  assert (Hc : k = 0 \/ k = 1 \/ k = 2 \/ k = 3 \/ k = 4 \/ k = 5 \/ k = 6 \/ k = 7) by lia.
  destruct Hc as [-> | [-> | [-> | [-> | [-> | [-> | [-> | ->]]]]]]]; simpl; tauto.
Qed.

Section PawnCaptureText.

Local Opaque choose_candidate moves_to moves_to_ambiguous choose_qualified.

Lemma parse_pawn_capture_text (self : Parser) (ff r : Z) (tokf tokt : string) :
  In (ff, Val tokf) file_names_table ->
  In tokt file_patterns -> 1 <= r <= 8 ->
  parse self (tokf ++ "Px" ++ tokt ++ str r) =
  Val (reading_of_pawn_capture self ff r).
Proof.
  intros Hf Ht Hr. apply rank_digit_inv in Hr. destruct self as [b w].
  unfold file_patterns in Ht. unfold file_names_table in Hf.
  cases_of_In; destruct w; lazy; reflexivity.
Qed.

End PawnCaptureText.

Lemma plain_app (a b : string) : plain (a ++ b) = plain a && plain b.
Proof.
  unfold plain. induction a as [|c a IH]; simpl; [reflexivity|].
  rewrite IH, andb_assoc. reflexivity.
Qed.

Lemma contains_app (c : ascii) (a b : string) :
  contains c (a ++ b) = contains c a || contains c b.
Proof.
  induction a as [|d a IH]; simpl; [reflexivity|].
  rewrite IH, orb_assoc. reflexivity.
Qed.

(** The text of a capture by a pawn with a promotion fails. *)
Lemma parse_pawn_capture_promotion_text (self : Parser) (ff r p : Z)
    (tokf tokt : string) :
  In (ff, Val tokf) file_names_table ->
  In tokt file_patterns -> 1 <= r <= 8 ->
  parse self (tokf ++ "Px" ++ tokt ++ str r ++
              "(" ++ MoveToDescriptive.PIECE_LETTERS p ++ ")") = Val None.
Proof.
  intros Hf Ht Hr. apply rank_digit_inv in Hr.
  unfold file_patterns in Ht. unfold file_names_table in Hf.
  assert (P1 : plain tokf = true) by (clear -Hf; cases_of_In; reflexivity).
  assert (P2 : plain tokt = true) by (clear -Ht; cases_of_In; reflexivity).
  assert (P3 : plain (str r) = true) by (clear -Hr; cases_of_In; reflexivity).
  assert (P4 : plain (MoveToDescriptive.PIECE_LETTERS p) = true).
  { unfold MoveToDescriptive.PIECE_LETTERS.
    repeat match goal with
    | |- context [if ?c then _ else _] => destruct c
    end; reflexivity. }
  assert (S : forall rest, startswith (upper (tokf ++ "Px" ++ rest)) "P-" = false)
    by (clear -Hf; intros rest; cases_of_In; reflexivity).
  set (text := tokf ++ "Px" ++ tokt ++ str r ++
               "(" ++ MoveToDescriptive.PIECE_LETTERS p ++ ")").
  assert (Hplain : plain text = true).
  { unfold text. rewrite !plain_app, P1, P2, P3, P4. reflexivity. }
  apply parenthesised_without_pawn_prefix; rewrite (normalize_plain text Hplain); unfold text.
  - rewrite !upper_app, !contains_app. cbn. rewrite !orb_true_r. reflexivity.
  - rewrite !upper_app, !contains_app. cbn. rewrite !orb_true_r. reflexivity.
  - apply S.
Qed.

(** X12.  No capture by a pawn is read back from its own text.  The formatter
    writes the file of the origin in front of [Px]; the parser takes that
    file for the destination, or the text for a queen move, or fails, and
    in no case answers the move that was formatted. *)
Theorem pawn_capture_never_parses_back (b : Board) (m : Move) (piece captured : Piece) :
  piece_at b (from_square m) = Some piece ->
  piece_type piece = PAWN ->
  color piece = turn b ->
  piece_at b (to_square m) = Some captured ->
  0 <= to_square m < 64 ->
  from_square m mod 8 <> to_square m mod 8 ->
  is_castling b m = false ->
  exists text,
    MoveToDescriptive.convert b m = Val text /\
    parse (__init__ b) text <> Val (Some m).
Proof.
  intros Hpiece Hpawn Hcol Hcap Hto Hfiles Hcastle.
  pose proof (Z.mod_pos_bound (from_square m) 8 ltac:(lia)) as Hff.
  pose proof (Z.mod_pos_bound (to_square m) 8 ltac:(lia)) as Htf.
  set (ff := from_square m mod 8) in *. set (tf := to_square m mod 8) in *.
  set (r := if turn b then to_square m / 8 + 1 else 8 - to_square m / 8).
  assert (Hd : 0 <= to_square m / 8 <= 7).
  { split; [apply Z.div_pos; lia | apply Z.lt_succ_r, Z.div_lt_upper_bound; lia]. }
  assert (Hr : 1 <= r <= 8) by (unfold r; destruct (turn b); lia).
  pose proof (FILE_NAMES_inv ff ltac:(lia)) as Hf.
  pose proof (FILE_NAMES_inv tf ltac:(lia)) as Ht.
  destruct (MoveToDescriptive.FILE_NAMES ff) as [tokf|e] eqn:Ef;
    [|exfalso; clear -Hf; unfold file_names_table in Hf; cases_of_In].
  destruct (MoveToDescriptive.FILE_NAMES tf) as [tokt|e] eqn:Et;
    [|exfalso; clear -Ht; unfold file_names_table in Ht; cases_of_In].
  assert (Ht' : In tokt file_patterns).
  { clear -Ht. unfold file_names_table in Ht. unfold file_patterns.
    cases_of_In; simpl; tauto. }
  assert (Hconv : MoveToDescriptive.convert b m =
            Val (match promotion m with
                 | Some p => if p =? 0 then tokf ++ "Px" ++ tokt ++ str r
                             else tokf ++ "Px" ++ tokt ++ str r ++
                                  "(" ++ MoveToDescriptive.PIECE_LETTERS p ++ ")"
                 | None => tokf ++ "Px" ++ tokt ++ str r
                 end)).
  { unfold MoveToDescriptive.convert. rewrite Hcastle, Hpiece, Hcap, Hcol, Hpawn.
    fold tf ff r. rewrite Et. cbn [bind Z.eqb PAWN Pos.eqb]. rewrite Ef. cbn [bind].
    destruct (promotion m) as [p|]; [|reflexivity].
    destruct (p =? 0); [reflexivity|].
    rewrite !append_assoc. reflexivity. }
  eexists. split; [exact Hconv|].
  assert (Hplain_case :
    parse (__init__ b) (tokf ++ "Px" ++ tokt ++ str r) <> Val (Some m)).
  { rewrite (parse_pawn_capture_text (__init__ b) ff r tokf tokt Hf Ht' Hr).
    unfold reading_of_pawn_capture. intros H. inversion H as [H']. clear H.
    destruct (4 <=? ff) eqn:E4.
    - apply choose_candidate_In, moves_to_legal_from in H'. destruct H' as [_ Hsq].
      apply Hfiles. fold ff tf. unfold tf. rewrite Hsq.
      rewrite Z.add_comm, Z.mod_add by lia. rewrite Z.mod_small; lia.
    - destruct (ff =? 3); [discriminate H'|].
      apply choose_candidate_In, moves_to_ambiguous_legal_from in H'.
      destruct H' as [_ Ho]. unfold origin_matches, __init__ in Ho. cbn [board] in Ho.
      rewrite Hpiece, Hpawn in Ho. discriminate Ho. }
  destruct (promotion m) as [p|]; [|exact Hplain_case].
  destruct (p =? 0); [exact Hplain_case|].
  rewrite (parse_pawn_capture_promotion_text (__init__ b) ff r p tokf tokt Hf Ht' Hr).
  discriminate.
Qed.

Lemma pawn_capture_never_parses_back_witness :
  exists text,
    MoveToDescriptive.convert Positions.pawn_takes (Positions.from_uci "e4d5") = Val text /\
    parse (__init__ Positions.pawn_takes) text <> Val (Some (Positions.from_uci "e4d5")).
Proof.
  apply (pawn_capture_never_parses_back Positions.pawn_takes (Positions.from_uci "e4d5")
           (mkPiece PAWN WHITE) (mkPiece PAWN BLACK)); try reflexivity.
  - vm_compute. split; [discriminate | reflexivity].
  - vm_compute. discriminate.
Defined.

(** X13.  [convert] raises nothing on a move between two squares of the
    board whose origin square holds a piece, be the move legal or not:
    the file of a square is its residue modulo 8, always a key of
    [FILE_NAMES], and the letters of the pieces are read with a default. *)
Theorem convert_returns (b : Board) (m : Move) (piece : Piece) :
  0 <= from_square m < 64 ->
  0 <= to_square m < 64 ->
  piece_at b (from_square m) = Some piece ->
  returns (MoveToDescriptive.convert b m).
Proof.
  intros _ _ Hpiece. unfold MoveToDescriptive.convert.
  destruct (is_castling b m).
  { destruct (is_kingside_castling b m); eexists; reflexivity. }
  rewrite Hpiece.
  assert (HF : forall sq, exists tok, MoveToDescriptive.FILE_NAMES (sq mod 8) = Val tok).
  { intros sq. pose proof (Z.mod_pos_bound sq 8 ltac:(lia)) as Hm.
    pose proof (FILE_NAMES_inv (sq mod 8) ltac:(lia)) as H.
    destruct (MoveToDescriptive.FILE_NAMES (sq mod 8)) as [tok|e];
      [exists tok; reflexivity|].
    exfalso. clear -H. unfold file_names_table in H. cases_of_In. }
  destruct (HF (to_square m)) as [tokt ->]. cbn [bind].
  destruct (piece_at b (to_square m)) as [captured|].
  - destruct (piece_type piece =? 1).
    + destruct (HF (from_square m)) as [tokf ->]. cbn [bind].
      destruct (promotion m) as [q|]; [destruct (q =? 0)|]; eexists; reflexivity.
    + cbn [bind]. destruct (promotion m) as [q|]; [destruct (q =? 0)|];
        eexists; reflexivity.
  - cbn [bind]. destruct (promotion m) as [q|]; [destruct (q =? 0)|];
      eexists; reflexivity.
Qed.

Lemma convert_returns_witness :
  returns (MoveToDescriptive.convert Positions.initial (mkMove 12 52 (Some KING))).
Proof.
  apply (convert_returns Positions.initial (mkMove 12 52 (Some KING))
           (mkPiece PAWN WHITE)); [cbn; lia | cbn; lia | reflexivity].
Defined.

Lemma parse_ignores_padding_witness :
  parse (__init__ Positions.initial) ("  " ++ "P-K4" ++ String (ascii_of_N 9) " ")
  = parse (__init__ Positions.initial) "P-K4".
Proof. apply parse_ignores_padding; reflexivity. Defined.

Lemma promotion_needs_full_file_name_witness :
  parse (__init__ Positions.pawn_on_seventh) "P-R8(Q)" = Val None.
Proof.
  apply (promotion_needs_full_file_name (__init__ Positions.pawn_on_seventh) "R" "Q" 8);
    [simpl; tauto | simpl; tauto | lia].
Defined.

Lemma qualified_capture_of_piece_fails_witness :
  parse (__init__ Positions.rook_takes_knight) "QRxN" = Val None.
Proof.
  apply (qualified_capture_of_piece_fails (__init__ Positions.rook_takes_knight) "QR" "N");
    simpl; tauto.
Defined.

Lemma bare_destination_witness :
  parse (__init__ Positions.initial) "K4" = parse (__init__ Positions.initial) "P-K4" /\
  parse (__init__ Positions.initial) "Q4" = Val None /\
  parse (__init__ Positions.initial) "QB3"
  = parse (__init__ Positions.initial) "Q-B3".
Proof.
  split; [| split].
  - apply (bare_destination (__init__ Positions.initial) "K" 4); [simpl; tauto | lia].
  - apply (bare_destination (__init__ Positions.initial) "Q" 4); [simpl; tauto | lia].
  - apply (bare_destination (__init__ Positions.initial) "QB" 3); [simpl; tauto | lia].
Defined.

(** * Properties of the board window *)

Import ChessBoardGUI.

Lemma coords_to_square_Some (x y : Z) (square : Square) :
  _coords_to_square x y = Some square <->
  0 <= x < 512 /\ 0 <= y < 512 /\ square = (7 - y / 64) * 8 + x / 64.
Proof.
  unfold _coords_to_square, SQUARE_SIZE.
  destruct ((0 <=? x / 64) && (x / 64 <? 8) && (0 <=? 7 - y / 64) && (7 - y / 64 <? 8))
    eqn:E.
  - repeat rewrite andb_true_iff in E. destruct E as [[[E1 E2] E3] E4].
    apply Z.leb_le in E1, E3. apply Z.ltb_lt in E2, E4.
    split.
    + intros H. injection H as <-. repeat split; Z.div_mod_to_equations; lia.
    + intros (_ & _ & ->). reflexivity.
  - split; [discriminate |].
    intros (Hx & Hy & _). exfalso.
    assert (0 <= x / 64 < 8) by (Z.div_mod_to_equations; lia).
    assert (0 <= y / 64 < 8) by (Z.div_mod_to_equations; lia).
    repeat rewrite andb_false_iff in E.
    rewrite !Z.leb_gt, !Z.ltb_ge in E. lia.
Qed.

(** X14.  A press on the board finds the square whose rectangle was drawn under
    it: [_coords_to_square] answers a square exactly for the pixels inside
    the rectangle that [_draw_board] creates for that square, and nothing
    for a pixel in no rectangle. *)
Theorem click_finds_the_square_drawn (x y : Z) (square : Square) :
  _coords_to_square x y = Some square <->
  exists rank file,
    0 <= rank < 8 /\ 0 <= file < 8 /\ square = rank * 8 + file /\
    inside (square_rectangle rank file) x y.
Proof.
  rewrite coords_to_square_Some. unfold inside, square_rectangle, SQUARE_SIZE.
  split.
  - intros (Hx & Hy & ->). exists (7 - y / 64), (x / 64).
    repeat split; Z.div_mod_to_equations; lia.
  - intros (rank & file & Hr & Hf & -> & (Hx1 & Hx2) & (Hy1 & Hy2)).
    assert (x / 64 = file) by (Z.div_mod_to_equations; lia).
    assert (y / 64 = 7 - rank) by (Z.div_mod_to_equations; lia).
    repeat split; try lia.
Qed.

(** X15.  The centre of a square leads back to the square, and the square found
    under a pixel has its centre in the middle of the 64 by 64 cell of that
    pixel. *)
Theorem square_centre_round_trip (square : Square) (x y : Z) :
  (0 <= square < 64 ->
   _coords_to_square (fst (_square_to_coords square)) (snd (_square_to_coords square))
   = Some square) /\
  (_coords_to_square x y = Some square ->
   _square_to_coords square = (x / 64 * 64 + 32, y / 64 * 64 + 32)).
Proof.
  split.
  - intros H. apply coords_to_square_Some.
    unfold _square_to_coords, SQUARE_SIZE. cbn [fst snd].
    change (64 / 2) with 32.
    repeat split; Z.div_mod_to_equations; lia.
  - intros H. apply coords_to_square_Some in H. destruct H as (Hx & Hy & ->).
    unfold _square_to_coords, SQUARE_SIZE. change (64 / 2) with 32.
    f_equal; Z.div_mod_to_equations; lia.
Qed.

(** X16.  The guard of [_on_release] lets the pixels 512 of the right and lower
    edge through, but [_coords_to_square] finds no square there: a release
    has a target exactly for 0 <= x, y < 512, and the target is the square
    of [_coords_to_square] whatever the guard says. *)
Theorem release_on_the_edge_is_off_the_board (rel_x rel_y : Z) :
  release_target rel_x rel_y = _coords_to_square rel_x rel_y /\
  ((exists square, release_target rel_x rel_y = Some square) <->
   0 <= rel_x < 512 /\ 0 <= rel_y < 512).
Proof.
  assert (E : release_target rel_x rel_y = _coords_to_square rel_x rel_y).
  { unfold release_target, BOARD_SIZE, SQUARE_SIZE. change (64 * 8) with 512.
    destruct ((0 <=? rel_x) && (rel_x <=? 512) && (0 <=? rel_y) && (rel_y <=? 512)) eqn:G;
      [reflexivity |].
    destruct (_coords_to_square rel_x rel_y) as [square |] eqn:C; [| reflexivity].
    apply coords_to_square_Some in C. destruct C as (Hx & Hy & _).
    repeat rewrite andb_false_iff in G. rewrite !Z.leb_gt in G. lia. }
  split; [exact E |]. rewrite E. split.
  - intros (square & H). apply coords_to_square_Some in H. tauto.
  - intros (Hx & Hy). exists ((7 - rel_y / 64) * 8 + rel_x / 64).
    apply coords_to_square_Some. tauto.
Qed.

(** X17.  A press in the band of 32 pixels around a piece drawn in a sidebar
    picks that piece in the colour of the sidebar, every symbol picked is
    one that [Piece.from_symbol] takes for a piece of that colour, and a
    press picks nothing exactly above the first band and from pixel 192
    on. *)
Theorem sidebar_press_picks_the_piece_drawn (i : nat) (piece_type : string)
    (d y : Z) (is_white : bool) :
  (nth_error PIECE_TYPES i = Some piece_type -> -20 <= d < 12 ->
   _sidebar_press (sidebar_y i + d) is_white
   = Some (if is_white then piece_type else lower piece_type)) /\
  (forall symbol, _sidebar_press y is_white = Some symbol ->
     exists c piece,
       symbol = String c "" /\ Positions.piece_from_symbol c = Some piece /\
       color piece = is_white) /\
  (_sidebar_press y is_white = None <-> y < 0 \/ 192 <= y).
Proof.
  split; [| split].
  - intros Hi Hd.
    assert (Hlt : (i < 6)%nat).
    { change 6%nat with (List.length PIECE_TYPES).
      apply nth_error_Some. rewrite Hi. discriminate. }
    unfold _sidebar_press, sidebar_y.
    assert (E : (Z.of_nat i * 32 + 20 + d) / 32 = Z.of_nat i)
      by (Z.div_mod_to_equations; lia).
    rewrite E. change (Z.of_nat (List.length PIECE_TYPES)) with 6.
    replace ((0 <=? Z.of_nat i) && (Z.of_nat i <? 6)) with true
      by (symmetry; apply andb_true_iff; split; [apply Z.leb_le | apply Z.ltb_lt]; lia).
    rewrite Nat2Z.id, Hi. reflexivity.
  - intros symbol. unfold _sidebar_press.
    change (Z.of_nat (List.length PIECE_TYPES)) with 6.
    destruct ((0 <=? y / 32) && (y / 32 <? 6)) eqn:G; [| discriminate].
    apply andb_true_iff in G. destruct G as [G1 G2].
    apply Z.leb_le in G1. apply Z.ltb_lt in G2.
    assert (Hk : (Z.to_nat (y / 32) < 6)%nat) by lia.
    destruct (Z.to_nat (y / 32)) as [| [| [| [| [| [| k]]]]]]; [| | | | | | lia];
      destruct is_white; intros H; injection H as <-;
      eexists; eexists; (split; [reflexivity | split; reflexivity]).
  - unfold _sidebar_press.
    change (Z.of_nat (List.length PIECE_TYPES)) with 6.
    destruct ((0 <=? y / 32) && (y / 32 <? 6)) eqn:G.
    + apply andb_true_iff in G. destruct G as [G1 G2].
      apply Z.leb_le in G1. apply Z.ltb_lt in G2.
      assert (Hk : (Z.to_nat (y / 32) < 6)%nat) by lia.
      split.
      * destruct (Z.to_nat (y / 32)) as [| [| [| [| [| [| k]]]]]]; [| | | | | | lia];
          discriminate.
      * intros H. exfalso. Z.div_mod_to_equations. lia.
    + split; [intros _ | reflexivity].
      apply andb_false_iff in G. rewrite Z.leb_gt, Z.ltb_ge in G.
      Z.div_mod_to_equations. lia.
Qed.

Lemma len_app {A : Type} (l k : list A) : len (l ++ k)%list = len l + len k.
Proof. unfold len. rewrite length_app. lia. Qed.

Lemma len_firstn {A : Type} (l : list A) (k : Z) :
  0 <= k <= len l -> len (firstn (Z.to_nat k) l) = k.
Proof. unfold len. intros H. rewrite length_firstn. lia. Qed.

Lemma len_nonneg {A : Type} (l : list A) : 0 <= len l.
Proof. unfold len. lia. Qed.

Lemma slice_to_firstn {A : Type} (l : list A) (k : Z) :
  0 <= k -> slice_to l k = firstn (Z.to_nat k) l.
Proof.
  intros H. unfold slice_to.
  destruct (k <? 0) eqn:E; [apply Z.ltb_lt in E; lia | reflexivity].
Qed.

Lemma firstn_len {A : Type} (l : list A) : firstn (Z.to_nat (len l)) l = l.
Proof. unfold len. rewrite Nat2Z.id. apply firstn_all. Qed.

Lemma item_in_range {A : Type} (l : list A) (i : Z) :
  0 <= i < len l -> returns (item l i).
Proof.
  intros H. unfold item.
  destruct (i <? 0) eqn:E; [apply Z.ltb_lt in E; lia |].
  replace ((0 <=? i) && (i <? len l)) with true
    by (symmetry; apply andb_true_iff; split; [apply Z.leb_le | apply Z.ltb_lt]; lia).
  destruct (nth_error l (Z.to_nat i)) as [a |] eqn:N; [apply returns_Val |].
  apply nth_error_None in N. unfold len in H. lia.
Qed.

Lemma listing_app (i : Z) (l : list string) (notation : string) :
  listing i (l ++ [notation])%list
  = listing i l ++ history_line (i + len l + 1) notation.
Proof.
  revert i. induction l as [| x l IH]; intros i.
  - cbn [listing List.app]. unfold len. cbn [List.length Z.of_nat].
    rewrite append_nil_r. replace (i + 0 + 1) with (i + 1) by lia. reflexivity.
  - cbn [listing List.app]. rewrite IH, append_assoc. do 3 f_equal.
    unfold len. cbn [List.length]. lia.
Qed.

Lemma removelast_len {A : Type} (l : list A) :
  len (removelast l) = Z.max 0 (len l - 1).
Proof.
  unfold len. rewrite removelast_firstn_len, length_firstn. lia.
Qed.

(** What [_make_move] leaves, read from a consistent state. *)
Lemma make_move_result (self : Gui) (board : Board) (fen fen_pushed : string)
    (move : Move) (notation : option string) (animate : bool) (self' : Gui) :
  consistent self ->
  _make_move self board fen fen_pushed move notation animate = Val self' ->
  exists text,
    match notation with
    | Some given => text = given
    | None => MoveToDescriptive.convert board move = Val text
    end /\
    move_history self'
    = (firstn (Z.to_nat (current_move_index self)) (move_history self) ++ [fen])%list /\
    move_notations self'
    = (firstn (Z.to_nat (current_move_index self)) (move_notations self) ++ [text])%list /\
    board_states self'
    = (firstn (Z.to_nat (current_move_index self + 1)) (board_states self)
         ++ [fen_pushed])%list /\
    current_move_index self' = current_move_index self + 1 /\
    animating self'
    = (if animate && (match piece_at board (from_square move) with
                      | Some _ => true
                      | None => false
                      end)
       then true else animating self) /\
    history_text self' = listing 0 (move_notations self') /\
    move_label self' = nav_text self'.
Proof.
  intros (Hh & Hn & Hi & Ht & Hl) H.
  unfold _make_move in H.
  set (cut :=
         if current_move_index self <? len (board_states self) - 1
         then
           _rebuild_history_display
             (set_move_notations
                (set_move_history
                   (set_board_states self
                      (slice_to (board_states self) (current_move_index self + 1)))
                   (slice_to (move_history self) (current_move_index self)))
                (slice_to (move_notations self) (current_move_index self)))
         else self) in H.
  assert (C : move_history cut
              = firstn (Z.to_nat (current_move_index self)) (move_history self) /\
              move_notations cut
              = firstn (Z.to_nat (current_move_index self)) (move_notations self) /\
              board_states cut
              = firstn (Z.to_nat (current_move_index self + 1)) (board_states self) /\
              current_move_index cut = current_move_index self /\
              animating cut = animating self /\
              history_text cut = listing 0 (move_notations cut)).
  { subst cut. destruct (current_move_index self <? len (board_states self) - 1) eqn:E.
    - cbn. rewrite !slice_to_firstn by lia. repeat split; reflexivity.
    - apply Z.ltb_ge in E.
      assert (Ec : current_move_index self = len (board_states self) - 1) by lia.
      repeat split; try assumption.
      + rewrite Ec, <- Hh. symmetry. apply firstn_len.
      + rewrite Ec, <- Hn. symmetry. apply firstn_len.
      + replace (current_move_index self + 1) with (len (board_states self)) by lia.
        symmetry. apply firstn_len. }
  clearbody cut. destruct C as (Ch & Cn & Cb & Ci & Ca & Ct).
  assert (Lh : len (move_history cut) = current_move_index self)
    by (rewrite Ch; apply len_firstn; lia).
  assert (Ln : len (move_notations cut) = current_move_index self)
    by (rewrite Cn; apply len_firstn; lia).
  assert (Lb : len (board_states cut) = current_move_index self + 1)
    by (rewrite Cb; apply len_firstn; lia).
  assert (R : forall text,
             (match notation with
              | Some given => Val given
              | None => MoveToDescriptive.convert board move
              end) = Val text ->
             match notation with
             | Some given => text = given
             | None => MoveToDescriptive.convert board move = Val text
             end).
  { intros text. destruct notation; [intros [=]; congruence | tauto]. }
  destruct (match notation with
            | Some given => Val given
            | None => MoveToDescriptive.convert board move
            end) as [text | e]; [| discriminate].
  specialize (R text eq_refl). cbn [bind] in H.
  exists text. split; [exact R |].
  injection H as <-.
  destruct (animate && match piece_at board (from_square move) with
                       | Some _ => true
                       | None => false
                       end);
    cbn; rewrite ?Ch, ?Cn, ?Cb, ?Ci, ?Ca;
    (repeat split; try reflexivity);
    try (rewrite len_app, <- Cb, Lb; unfold len; cbn [List.length]; lia).
  all: rewrite listing_app, <- Cn, <- Ct; do 2 f_equal;
       rewrite len_app, <- Ch, Lh, Ln; unfold len; cbn [List.length]; lia.
Qed.

Lemma make_move_consistent (self : Gui) (board : Board) (fen fen_pushed : string)
    (move : Move) (notation : option string) (animate : bool) (self' : Gui) :
  consistent self ->
  _make_move self board fen fen_pushed move notation animate = Val self' ->
  consistent self'.
Proof.
  intros C H. pose proof C as (Hh & Hn & Hi & Ht & Hl).
  destruct (make_move_result _ _ _ _ _ _ _ _ C H)
    as (text & _ & Eh & En & Eb & Ei & _ & Et & El).
  assert (Lh : len (move_history self') = current_move_index self + 1)
    by (rewrite Eh, len_app, len_firstn by lia; reflexivity).
  assert (Ln : len (move_notations self') = current_move_index self + 1)
    by (rewrite En, len_app, len_firstn by lia; reflexivity).
  assert (Lb : len (board_states self') = current_move_index self + 2)
    by (rewrite Eb, len_app, len_firstn by lia; change (len [fen_pushed]) with 1; lia).
  repeat split; try lia; assumption.
Qed.

Lemma undo_move_consistent (self : Gui) : consistent self -> consistent (_undo_move self).
Proof.
  intros C. pose proof C as (Hh & Hn & Hi & Ht & Hl). unfold _undo_move.
  destruct (1 <? len (board_states self)) eqn:E; [| exact C].
  apply Z.ltb_lt in E.
  cbn [move_history move_notations board_states set_board_states set_move_history].
  destruct (move_history self) as [| h hs] eqn:Eh;
    [unfold len in Hh; cbn [List.length] in Hh; unfold len in E; lia |].
  cbn [move_history move_notations board_states set_board_states set_move_history].
  destruct (move_notations self) as [| n ns] eqn:En;
    [unfold len in Hn; cbn [List.length] in Hn; unfold len in E; lia |].
  unfold consistent. cbn -[removelast len listing].
  rewrite !removelast_len, Hh, Hn.
  repeat split; try lia; reflexivity.
Qed.

Lemma fresh_consistent (self : Gui) (fen : string) :
  consistent (_reset_board self fen) /\ consistent (_clear_board self fen).
Proof. split; repeat split; cbn; lia. Qed.

(** [_navigate_to_move] to an index of the list. *)
Lemma navigate_in_range (self : Gui) (index : Z) (moving : bool) :
  0 <= current_move_index self < len (board_states self) ->
  0 <= index < len (board_states self) ->
  _navigate_to_move self index true moving
  = Val (if animating self then self
         else
           _update_nav_label
             (if (Z.abs (index - current_move_index self) =? 1) && moving
              then set_animating (set_current_move_index self index) true
              else set_current_move_index self index)).
Proof.
  intros Hc Hi. unfold _navigate_to_move.
  destruct (animating self); [reflexivity |].
  cbn [board_states set_current_move_index].
  destruct (item_in_range (board_states self) index Hi) as [v ->].
  cbn [bind andb current_move_index].
  destruct (Z.abs (index - current_move_index self) =? 1); [| reflexivity].
  unfold _animate_navigation. cbn [board_states set_current_move_index].
  destruct (item_in_range (board_states self) _ Hc) as [v1 ->].
  destruct (item_in_range (board_states self) index Hi) as [v2 ->].
  cbn [bind andb]. destruct moving; reflexivity.
Qed.

Lemma navigate_consistent (self : Gui) (index : Z) (moving : bool) (self' : Gui) :
  consistent self ->
  0 <= index < len (board_states self) ->
  _navigate_to_move self index true moving = Val self' ->
  consistent self'.
Proof.
  intros C Hi H. pose proof C as (Hh & Hn & Hc & Ht & Hl).
  rewrite (navigate_in_range self index moving Hc Hi) in H. injection H as <-.
  destruct (animating self); [exact C |].
  destruct ((Z.abs (index - current_move_index self) =? 1) && moving);
    repeat split; cbn; try lia; assumption.
Qed.

Lemma step_consistent (self self' : Gui) :
  consistent self -> step self self' -> consistent self'.
Proof.
  intros C S. pose proof C as (Hh & Hn & Hc & Ht & Hl).
  destruct S as [self board fen fen_pushed move notation animate self' H
                | self | self fen | self fen
                | self moving self' H | self moving self' H
                | self moving self' H | self moving self' H | self].
  - exact (make_move_consistent _ _ _ _ _ _ _ _ C H).
  - exact (undo_move_consistent _ C).
  - exact (proj1 (fresh_consistent self fen)).
  - exact (proj2 (fresh_consistent self fen)).
  - unfold _go_to_start in H. destruct (0 <? current_move_index self);
      [| injection H as <-; exact C].
    apply (navigate_consistent self 0 moving); [exact C | lia | exact H].
  - unfold _go_back in H. destruct (0 <? current_move_index self) eqn:E;
      [| injection H as <-; exact C].
    apply Z.ltb_lt in E.
    apply (navigate_consistent self (current_move_index self - 1) moving);
      [exact C | lia | exact H].
  - unfold _go_forward in H.
    destruct (current_move_index self <? len (board_states self) - 1) eqn:E;
      [| injection H as <-; exact C].
    apply Z.ltb_lt in E.
    apply (navigate_consistent self (current_move_index self + 1) moving);
      [exact C | lia | exact H].
  - unfold _go_to_end in H.
    destruct (current_move_index self <? len (board_states self) - 1) eqn:E;
      [| injection H as <-; exact C].
    apply Z.ltb_lt in E.
    apply (navigate_consistent self (len (board_states self) - 1) moving);
      [exact C | lia | exact H].
  - exact C.
Qed.

Lemma init_consistent (fen : string) : consistent (__init__ fen).
Proof. repeat split; cbn; lia. Qed.

(** X18.  Whatever the handlers that ran, the history of a window is
    consistent: there is one FEN and one notation per move and one board
    state more, the index of the position shown is an index of the list of
    states, the history text is the numbered listing of the notations and
    the navigation label shows the index. *)
Theorem history_stays_consistent (self : Gui) : reachable self -> consistent self.
Proof.
  induction 1 as [fen | self self' _ IH S].
  - apply init_consistent.
  - exact (step_consistent self self' IH S).
Qed.

Lemma history_stays_consistent_witness :
  consistent
    (_undo_move
       (mkGui ["start"] ["P-K4"] ["start"; "next"] 1 true (history_line 1 "P-K4") "1/1")).
Proof.
  apply history_stays_consistent.
  eapply reachable_step; [| apply step_undo_move].
  eapply reachable_step; [apply (reachable_init "start") |].
  apply (step_make_move _ Positions.initial "start" "next" (mkMove 12 28 None)
           (Some "P-K4") true).
  vm_compute. reflexivity.
Defined.

(** X19.  In a consistent state no navigation button raises.  While no
    animation runs they lead to the first position, one back but not
    before the first, one forward but not past the last, and to the last;
    while an animation runs they change nothing. *)
Theorem navigation_stays_in_range (self : Gui) (moving : bool) :
  consistent self ->
  exists first back forward last,
    _go_to_start self moving = Val first /\
    _go_back self moving = Val back /\
    _go_forward self moving = Val forward /\
    _go_to_end self moving = Val last /\
    (animating self = false ->
     current_move_index first = 0 /\
     current_move_index back = Z.max 0 (current_move_index self - 1) /\
     current_move_index forward
     = Z.min (current_move_index self + 1) (len (board_states self) - 1) /\
     current_move_index last = len (board_states self) - 1) /\
    (animating self = true ->
     first = self /\ back = self /\ forward = self /\ last = self).
Proof.
  intros (Hh & Hn & Hc & Ht & Hl).
  unfold _go_to_start, _go_back, _go_forward, _go_to_end.
  destruct (0 <? current_move_index self) eqn:E0;
    destruct (current_move_index self <? len (board_states self) - 1) eqn:E1;
    rewrite ?Z.ltb_lt, ?Z.ltb_ge in E0, E1;
    rewrite ?(navigate_in_range self 0 moving Hc) by lia;
    rewrite ?(navigate_in_range self (current_move_index self - 1) moving Hc) by lia;
    rewrite ?(navigate_in_range self (current_move_index self + 1) moving Hc) by lia;
    rewrite ?(navigate_in_range self (len (board_states self) - 1) moving Hc) by lia;
    do 4 eexists; (do 4 (split; [reflexivity |]));
    destruct (animating self); (split; [intros A | intros A]); try discriminate;
    try (repeat split; reflexivity);
    repeat match goal with
           | |- context [if ?c then _ else _] => destruct c
           end;
    cbn; lia.
Qed.

Lemma navigation_stays_in_range_witness :
  exists first back forward last,
    _go_to_start (mkGui ["a"; "b"] ["P-K4"; "P-K4"] ["a"; "b"; "c"] 1 false
                    (listing 0 ["P-K4"; "P-K4"]) "1/2") true = Val first /\
    _go_back (mkGui ["a"; "b"] ["P-K4"; "P-K4"] ["a"; "b"; "c"] 1 false
                (listing 0 ["P-K4"; "P-K4"]) "1/2") true = Val back /\
    _go_forward (mkGui ["a"; "b"] ["P-K4"; "P-K4"] ["a"; "b"; "c"] 1 false
                   (listing 0 ["P-K4"; "P-K4"]) "1/2") true = Val forward /\
    _go_to_end (mkGui ["a"; "b"] ["P-K4"; "P-K4"] ["a"; "b"; "c"] 1 false
                  (listing 0 ["P-K4"; "P-K4"]) "1/2") true = Val last /\
    current_move_index first = 0 /\ current_move_index back = 0 /\
    current_move_index forward = 2 /\ current_move_index last = 2.
Proof.
  destruct (navigation_stays_in_range
              (mkGui ["a"; "b"] ["P-K4"; "P-K4"] ["a"; "b"; "c"] 1 false
                 (listing 0 ["P-K4"; "P-K4"]) "1/2") true)
    as (first & back & forward & last & H1 & H2 & H3 & H4 & H5 & _).
  - repeat split; cbn; lia.
  - exists first, back, forward, last.
    destruct (H5 eq_refl) as (I1 & I2 & I3 & I4).
    repeat split; assumption.
Defined.

(** X20.  A move made while position [k] is shown becomes move [k + 1] and the
    last one: the states after position [k] and the notations and FENs of
    the moves after it are dropped, the new ones are appended, and the new
    position is shown.  The notation recorded is the one given, or the
    formatter's when none is given. *)
Theorem move_replaces_later_moves (self : Gui) (board : Board) (fen fen_pushed : string)
    (move : Move) (notation : option string) (animate : bool) (self' : Gui) :
  consistent self ->
  _make_move self board fen fen_pushed move notation animate = Val self' ->
  exists text,
    match notation with
    | Some given => text = given
    | None => MoveToDescriptive.convert board move = Val text
    end /\
    move_history self'
    = (firstn (Z.to_nat (current_move_index self)) (move_history self) ++ [fen])%list /\
    move_notations self'
    = (firstn (Z.to_nat (current_move_index self)) (move_notations self) ++ [text])%list /\
    board_states self'
    = (firstn (Z.to_nat (current_move_index self + 1)) (board_states self)
         ++ [fen_pushed])%list /\
    current_move_index self' = current_move_index self + 1 /\
    current_move_index self' = len (board_states self') - 1.
Proof.
  intros C H. pose proof C as (Hh & Hn & Hc & Ht & Hl).
  destruct (make_move_result _ _ _ _ _ _ _ _ C H)
    as (text & R & Eh & En & Eb & Ei & _ & _ & _).
  exists text. repeat split; try assumption.
  rewrite Ei, Eb, len_app, len_firstn by lia. change (len [fen_pushed]) with 1. lia.
Qed.

Lemma move_replaces_later_moves_witness :
  exists text,
    MoveToDescriptive.convert Positions.after_e4 (mkMove 57 42 None) = Val text /\
    move_notations
      (mkGui ["a"; "b"] ["P-K4"; "N-QB3"] ["a"; "b"; "d"] 2 true
         (listing 0 ["P-K4"; "N-QB3"]) "2/2")
    = (firstn 1 ["P-K4"; "P-K4"] ++ [text])%list.
Proof.
  destruct (move_replaces_later_moves
              (mkGui ["a"; "b"] ["P-K4"; "P-K4"] ["a"; "b"; "c"] 1 false
                 (listing 0 ["P-K4"; "P-K4"]) "1/2")
              Positions.after_e4 "b" "d" (mkMove 57 42 None) None true
              (mkGui ["a"; "b"] ["P-K4"; "N-QB3"] ["a"; "b"; "d"] 2 true
                 (listing 0 ["P-K4"; "N-QB3"]) "2/2"))
    as (text & R & Eh & En & Eb & Ei & _).
  - repeat split; cbn; lia.
  - vm_compute. reflexivity.
  - exists text. split; [exact R | exact En].
Defined.

Lemma undo_move_last (self : Gui) (history notations states : list string)
    (fen notation state : string) :
  move_history self = (history ++ [fen])%list ->
  move_notations self = (notations ++ [notation])%list ->
  board_states self = (states ++ [state])%list ->
  states <> [] ->
  _undo_move self
  = mkGui history notations states (len states - 1) (animating self)
      (listing 0 notations)
      (if len states - 1 =? 0 then "Start"
       else str (len states - 1) ++ "/" ++ str (len states - 1)).
Proof.
  intros Eh En Eb N. destruct self as [mh mn bs i a t l].
  cbn [move_history move_notations board_states] in Eh, En, Eb. subst mh mn bs.
  unfold _undo_move.
  cbn [move_history move_notations board_states set_board_states set_move_history].
  replace (1 <? len (states ++ [state])%list) with true.
  2:{ symmetry. apply Z.ltb_lt. rewrite len_app. change (len [state]) with 1.
      destruct states; [congruence |]. unfold len. cbn [List.length]. lia. }
  destruct history as [| h0 history]; destruct notations as [| n0 notations];
    cbn [List.app];
    cbn [move_history move_notations board_states set_board_states set_move_history
         set_move_notations];
    unfold _update_nav_label, _rebuild_history_display, nav_text;
    cbn [move_history move_notations board_states current_move_index animating
         history_text move_label set_board_states set_move_history set_move_notations
         set_current_move_index set_history_text set_move_label];
    rewrite ?removelast_last;
    try change (removelast [fen]) with (@nil string);
    try change (removelast [notation]) with (@nil string);
    try change (h0 :: (history ++ [fen]))%list with ((h0 :: history) ++ [fen])%list;
    try change (n0 :: (notations ++ [notation]))%list
      with ((n0 :: notations) ++ [notation])%list;
    rewrite ?removelast_last; reflexivity.
Qed.

(** X21.  [_undo_move] after a move gives back the lists, the index, the
    history text and the label as they were before the move when the move
    was made at the last position; only an animation that the move started
    goes on.  After a move made at an earlier position it gives back the
    history cut at that position: the moves that the new one replaced do
    not come back. *)
Theorem undo_reverts_the_move (self : Gui) (board : Board) (fen fen_pushed : string)
    (move : Move) (notation : option string) (animate : bool) (self' : Gui) :
  consistent self ->
  _make_move self board fen fen_pushed move notation animate = Val self' ->
  move_history (_undo_move self')
  = firstn (Z.to_nat (current_move_index self)) (move_history self) /\
  move_notations (_undo_move self')
  = firstn (Z.to_nat (current_move_index self)) (move_notations self) /\
  board_states (_undo_move self')
  = firstn (Z.to_nat (current_move_index self + 1)) (board_states self) /\
  current_move_index (_undo_move self') = current_move_index self /\
  (current_move_index self = len (board_states self) - 1 ->
   _undo_move self' = set_animating self (animating self')).
Proof.
  intros C H. pose proof C as (Hh & Hn & Hc & Ht & Hl).
  destruct (make_move_result _ _ _ _ _ _ _ _ C H)
    as (text & _ & Eh & En & Eb & Ei & _ & _ & _).
  assert (U : _undo_move self'
              = mkGui (firstn (Z.to_nat (current_move_index self)) (move_history self))
                  (firstn (Z.to_nat (current_move_index self)) (move_notations self))
                  (firstn (Z.to_nat (current_move_index self + 1)) (board_states self))
                  (current_move_index self) (animating self')
                  (listing 0
                     (firstn (Z.to_nat (current_move_index self)) (move_notations self)))
                  (if current_move_index self =? 0 then "Start"
                   else str (current_move_index self) ++ "/"
                        ++ str (current_move_index self))).
  { rewrite (undo_move_last self' _ _ _ fen text fen_pushed Eh En Eb).
    - rewrite len_firstn by lia.
      replace (current_move_index self + 1 - 1) with (current_move_index self) by lia.
      reflexivity.
    - intros N. apply (f_equal len) in N. rewrite len_firstn in N by lia.
      change (len []) with 0 in N. lia. }
  rewrite U. cbn [move_history move_notations board_states current_move_index].
  repeat split.
  intros Last.
  assert (Fh : firstn (Z.to_nat (current_move_index self)) (move_history self)
               = move_history self)
    by (rewrite Last, <- Hh; apply firstn_len).
  assert (Fn : firstn (Z.to_nat (current_move_index self)) (move_notations self)
               = move_notations self)
    by (rewrite Last, <- Hn; apply firstn_len).
  assert (Fb : firstn (Z.to_nat (current_move_index self + 1)) (board_states self)
               = board_states self)
    by (replace (current_move_index self + 1) with (len (board_states self)) by lia;
        apply firstn_len).
  rewrite Fh, Fn, Fb, <- Ht.
  unfold nav_text in Hl. rewrite <- Last in Hl. rewrite <- Hl.
  destruct self; reflexivity.
Qed.

Lemma undo_reverts_the_move_witness :
  _undo_move
    (mkGui ["a"; "b"] ["P-K4"; "N-QB3"] ["a"; "b"; "d"] 2 true
       (listing 0 ["P-K4"; "N-QB3"]) "2/2")
  = mkGui ["a"] ["P-K4"] ["a"; "b"] 1 true (listing 0 ["P-K4"]) "1/1".
Proof.
  apply (undo_reverts_the_move
           (mkGui ["a"] ["P-K4"] ["a"; "b"] 1 false (listing 0 ["P-K4"]) "1/1")
           Positions.after_e4 "b" "d" (mkMove 57 42 None) None true).
  - repeat split; cbn; lia.
  - vm_compute. reflexivity.
  - reflexivity.
Defined.

Lemma square_centre_round_trip_witness :
  _coords_to_square 288 480 = Some 4 /\ _square_to_coords 4 = (288, 480).
Proof.
  split.
  - apply (proj1 (square_centre_round_trip 4 0 0)). lia.
  - apply (proj2 (square_centre_round_trip 4 300 500)). reflexivity.
Defined.

Lemma sidebar_press_picks_the_piece_drawn_witness :
  _sidebar_press 120 false = Some "b".
Proof.
  apply (proj1 (sidebar_press_picks_the_piece_drawn 3 "B" 4 0 false));
    [reflexivity | lia].
Defined.
